(** * Batch source-transformation scripts of crm2, embedded and verified

    The repository holds five Python scripts that rewrite the text of
    TypeScript route handlers: [apply-rbac.py], [apply-phase1-standards.py],
    [update-phase1-endpoints.py], [migrate-endpoints.py] and
    [fix-all-methods.py].  Each script is embedded below as a Rocq module
    named after it; the functions keep their Python names.

    Text is a list of character codes; the scripts read their files as
    UTF-8, and the embedding covers the texts of 7-bit characters, on which
    [\s], [\w] and [str.strip] are as defined below.  The Python [str]
    operations and the subset of [re] that the scripts use are embedded
    first, as executable functions, and the scripts are written on top of
    them. *)

From Stdlib Require Import List Ascii Arith Lia Bool.
From Stdlib Require String DecimalString.
Import ListNotations.

Set Implicit Arguments.

(* ================================================================== *)
(** * Text *)

Definition str := list ascii.

Inductive str_lit : Set :=
| lit_nil
| lit_cons (a : ascii) (l : str_lit).

Fixpoint str_parse (bs : list Byte.byte) : str_lit :=
  match bs with
  | [] => lit_nil
  | b :: t => lit_cons (ascii_of_byte b) (str_parse t)
  end.

Fixpoint str_print (l : str_lit) : list Byte.byte :=
  match l with
  | lit_nil => []
  | lit_cons a t => byte_of_ascii a :: str_print t
  end.

Declare Scope str_scope.
Delimit Scope str_scope with str.
Set Warnings "-via-type-remapping,-via-type-mismatch".
String Notation str str_parse str_print
  (via str_lit mapping [[nil] => lit_nil, [cons] => lit_cons]) : str_scope.
Set Warnings "via-type-remapping,via-type-mismatch".
Bind Scope str_scope with str.
Open Scope str_scope.
Open Scope list_scope.

(** The characters that cannot be written inside a literal. *)
Definition nl : ascii := "010"%char.
Definition dquote : ascii := "034"%char.

Definition is_nl (c : ascii) : bool := Ascii.eqb c nl.

Definition code (c : ascii) : nat := nat_of_ascii c.

Definition between (lo hi : nat) (c : ascii) : bool :=
  (lo <=? code c) && (code c <=? hi).

(** [\s] and [str.isspace] on the 7-bit range: tab, LF, VT, FF, CR, the
    four separators 28..31 and the blank. *)
Definition is_space (c : ascii) : bool :=
  between 9 13 c || between 28 32 c.

(** [\w] on the 7-bit range: letters, digits and the underscore. *)
Definition is_word (c : ascii) : bool :=
  between 48 57 c || between 65 90 c || between 97 122 c || (code c =? 95).

(** Membership of a character in a set written as a text. *)
Fixpoint one_of (set : str) (c : ascii) : bool :=
  match set with
  | [] => false
  | a :: set' => Ascii.eqb c a || one_of set' c
  end.

(** The decimal numeral of a number, as an f-string prints it. *)
Definition str_of_nat (n : nat) : str :=
  String.list_ascii_of_string (DecimalString.NilZero.string_of_uint (Nat.to_uint n)).

Definition str_eqb (a b : str) : bool :=
  if list_eq_dec ascii_dec a b then true else false.

(** The exceptions the scripts can meet. *)
Inductive exn : Set :=
| AttributeError      (* an attribute of [None] was asked for *)
| OSError.            (* [open] or [stat] failed *)

Inductive outcome (A : Type) : Type :=
| Done : A -> outcome A
| Raised : exn -> outcome A.

Arguments Done {A} _.
Arguments Raised {A} _.

(* ================================================================== *)
(** * Python [str] operations *)

Module Py.

(** [s.startswith(p)] *)
Fixpoint startswith (p s : str) : bool :=
  match p, s with
  | [], _ => true
  | a :: p', b :: s' => Ascii.eqb a b && startswith p' s'
  | _ :: _, [] => false
  end.

(** [x in s] *)
Fixpoint contains (x s : str) : bool :=
  startswith x s ||
  match s with
  | [] => false
  | _ :: s' => contains x s'
  end.

(** [s.find(x)], with [None] for -1 *)
Fixpoint find (x s : str) : option nat :=
  if startswith x s then Some 0
  else match s with
       | [] => None
       | _ :: s' => option_map S (find x s')
       end.

(** [s[a:b]] for [0 <= a <= b] *)
Definition slice (a b : nat) (s : str) : str := firstn (b - a) (skipn a s).

(** [s.replace(old, new)] scans left to right and replaces each
    occurrence that does not overlap an earlier one.  [skip] counts the
    characters of the occurrence just replaced that are still to be passed
    over. *)
Fixpoint replace_go (old new : str) (skip : nat) (s : str) : str :=
  match s with
  | [] => []
  | c :: s' =>
      match skip with
      | S k => replace_go old new k s'
      | 0 =>
          if startswith old s
          then new ++ replace_go old new (length old - 1) s'
          else c :: replace_go old new 0 s'
      end
  end.

(** [s.count(x)] for a non-empty [x]: the occurrences that do not
    overlap. *)
Fixpoint count_go (x : str) (skip : nat) (s : str) : nat :=
  match s with
  | [] => 0
  | _ :: s' =>
      match skip with
      | S k => count_go x k s'
      | 0 =>
          if startswith x s then S (count_go x (length x - 1) s')
          else count_go x 0 s'
      end
  end.

Definition count (x s : str) : nat := count_go x 0 s.

(** With an empty [old] Python puts [new] before every character and at
    the end. *)
Fixpoint intersperse (new s : str) : str :=
  match s with
  | [] => new
  | c :: s' => new ++ c :: intersperse new s'
  end.

Definition replace (old new s : str) : str :=
  match old with
  | [] => intersperse new s
  | _ :: _ => replace_go old new 0 s
  end.

(** [s.split(sep)] for a non-empty [sep]: the first piece and the list of
    the following ones. *)
Fixpoint split_go (sep : str) (skip : nat) (s : str) : str * list str :=
  match s with
  | [] => ([], [])
  | c :: s' =>
      match skip with
      | S k => split_go sep k s'
      | 0 =>
          if startswith sep s
          then ([], let (p, ps) := split_go sep (length sep - 1) s' in p :: ps)
          else let (p, ps) := split_go sep 0 s' in (c :: p, ps)
      end
  end.

Definition split (sep s : str) : list str :=
  let (p, ps) := split_go sep 0 s in p :: ps.

(** [sep.join(pieces)] *)
Fixpoint join (sep : str) (pieces : list str) : str :=
  match pieces with
  | [] => []
  | [p] => p
  | p :: rest => p ++ sep ++ join sep rest
  end.

Fixpoint lstrip (s : str) : str :=
  match s with
  | [] => []
  | c :: s' => if is_space c then lstrip s' else s
  end.

Definition rstrip (s : str) : str := rev (lstrip (rev s)).

(** [s.strip()] *)
Definition strip (s : str) : str := rstrip (lstrip s).

(** [lst.insert(i, x)]: beyond the end the element is appended. *)
Fixpoint list_insert (A : Type) (i : nat) (x : A) (l : list A) : list A :=
  match i, l with
  | 0, _ => x :: l
  | S _, [] => [x]
  | S j, y :: l' => y :: list_insert j x l'
  end.

End Py.

(* ================================================================== *)
(** * The subset of Python [re] used by the scripts

    A backtracking matcher in continuation-passing style, as [re] is:
    alternatives are tried left to right, a greedy repetition tries one
    more iteration before it tries to stop, a lazy one the other way
    round, and the first complete match wins. *)

Module Re.

Inductive regex : Type :=
| Eps : regex                          (* the empty pattern *)
| Cls : (ascii -> bool) -> regex       (* one character of a class *)
| Seq : regex -> regex -> regex
| Alt : regex -> regex -> regex        (* a|b *)
| Rep : bool -> regex -> regex         (* r* when greedy, r*? when not *)
| Grp : nat -> regex -> regex          (* capturing group number n *)
| Ahead : regex -> regex               (* (?=r) *)
| Bol : regex.                         (* ^ under re.MULTILINE *)

(** Captured groups, most recent binding first. *)
Definition caps := list (nat * str).

Fixpoint group (g : caps) (i : nat) : str :=
  match g with
  | [] => []
  | (j, s) :: g' => if i =? j then s else group g' i
  end.

Definition first_some (A : Type) (x y : option A) : option A :=
  match x with
  | Some _ => x
  | None => y
  end.

(** The loop of a repetition, over the matcher [body] of the repeated
    pattern: [n] bounds the iterations that are left, and an iteration has
    to consume a character. *)
Section Loop.
Variable R : Type.
Variable body : bool -> str -> caps -> (bool -> str -> caps -> option R) -> option R.
Variable greedy : bool.
Variable k : bool -> str -> caps -> option R.

Fixpoint rep_loop (n : nat) (bol : bool) (s : str) (g : caps) : option R :=
  match n with
  | 0 => k bol s g
  | S n' =>
      let more :=
        body bol s g
             (fun bol' s' g' =>
                if length s' <? length s then rep_loop n' bol' s' g' else None) in
      if greedy then first_some more (k bol s g)
      else first_some (k bol s g) more
  end.
End Loop.

(** [rx r bol s g k]: match [r] at the head of [s], then continue with
    [k] on what is left; [bol] tells whether [s] starts a line, [g] holds
    the groups captured so far. *)
Fixpoint rx (r : regex) (R : Type) (bol : bool) (s : str) (g : caps)
    (k : bool -> str -> caps -> option R) {struct r} : option R :=
  match r with
  | Eps => k bol s g
  | Cls p =>
      match s with
      | c :: s' => if p c then k (is_nl c) s' g else None
      | [] => None
      end
  | Seq a b => rx a bol s g (fun bol' s' g' => rx b bol' s' g' k)
  | Alt a b => first_some (rx a bol s g k) (rx b bol s g k)
  | Rep greedy a =>
      rep_loop (fun bol' s' g' k' => rx a bol' s' g' k') greedy k (length s) bol s g
  | Grp i a =>
      rx a bol s g
         (fun bol' s' g' =>
            k bol' s' ((i, firstn (length s - length s') s) :: g'))
  | Ahead a =>
      match rx a bol s g (fun _ _ g' => Some g') with
      | Some g' => k bol s g'
      | None => None
      end
  | Bol => if bol then k bol s g else None
  end.

(** Pattern syntax. *)
Fixpoint lit (l : str) : regex :=
  match l with
  | [] => Eps
  | c :: l' => Seq (Cls (Ascii.eqb c)) (lit l')
  end.

Fixpoint cat (rs : list regex) : regex :=
  match rs with
  | [] => Eps
  | r :: rs' => Seq r (cat rs')
  end.

Definition star (r : regex) : regex := Rep true r.
Definition lazy_star (r : regex) : regex := Rep false r.
Definition plus (r : regex) : regex := Seq r (Rep true r).
Definition opt (r : regex) : regex := Alt r Eps.
Definition any : regex := Cls (fun _ => true).            (* . under DOTALL *)
Definition ws : regex := Cls is_space.                    (* \s *)
Definition wd : regex := Cls is_word.                     (* \w *)
Definition set (chars : str) : regex := Cls (one_of chars).
Definition nset (chars : str) : regex := Cls (fun c => negb (one_of chars c)).

(** A match attempt at the head of [s]: the length of the match and the
    groups. *)
Definition match_at (r : regex) (bol : bool) (s : str) : option (nat * caps) :=
  rx r bol s [] (fun _ s' g => Some (length s - length s', g)).

(** [re.search]: the leftmost position where an attempt succeeds, as
    (start, end, groups). *)
Fixpoint search_from (r : regex) (bol : bool) (s : str) : option (nat * nat * caps) :=
  match match_at r bol s with
  | Some (n, g) => Some (0, n, g)
  | None =>
      match s with
      | [] => None
      | c :: s' =>
          match search_from r (is_nl c) s' with
          | Some (a, b, g) => Some (S a, S b, g)
          | None => None
          end
      end
  end.

Definition search (r : regex) (s : str) : option (nat * nat * caps) :=
  search_from r true s.

(** [re.finditer]: all the non-overlapping matches, left to right, as
    (start, end, groups); [skip] counts the characters of the last match
    still to be passed over and [pos] is the offset of [s]. *)
Fixpoint finditer_go (r : regex) (bol : bool) (skip pos : nat) (s : str)
  : list (nat * nat * caps) :=
  match skip with
  | S k =>
      match s with
      | [] => []
      | c :: s' => finditer_go r (is_nl c) k (S pos) s'
      end
  | 0 =>
      match match_at r bol s with
      | Some (n, g) =>
          (pos, pos + n, g) ::
          match s with
          | [] => []
          | c :: s' => finditer_go r (is_nl c) (n - 1) (S pos) s'
          end
      | None =>
          match s with
          | [] => []
          | c :: s' => finditer_go r (is_nl c) 0 (S pos) s'
          end
      end
  end.

Definition finditer (r : regex) (s : str) : list (nat * nat * caps) :=
  finditer_go r true 0 0 s.

(** [re.sub(pattern, repl, s, count)].  [repl] receives the matched text
    (group 0) and the groups; [lim] is the number of replacements still
    allowed, [None] when unlimited. *)
Definition spend (lim : option nat) : option nat :=
  match lim with
  | Some n => Some (n - 1)
  | None => None
  end.

Definition exhausted (lim : option nat) : bool :=
  match lim with
  | Some 0 => true
  | _ => false
  end.

Fixpoint sub_go (r : regex) (repl : str -> caps -> str) (lim : option nat)
    (bol : bool) (skip : nat) (s : str) : str :=
  match skip with
  | S k =>
      match s with
      | [] => []
      | c :: s' => sub_go r repl lim (is_nl c) k s'
      end
  | 0 =>
      match (if exhausted lim then None else match_at r bol s) with
      | Some (n, g) =>
          repl (firstn n s) g ++
          match s with
          | [] => []
          | c :: s' =>
              match n with
              | 0 => c :: sub_go r repl (spend lim) (is_nl c) 0 s'
              | S k => sub_go r repl (spend lim) (is_nl c) k s'
              end
          end
      | None =>
          match s with
          | [] => []
          | c :: s' => c :: sub_go r repl lim (is_nl c) 0 s'
          end
      end
  end.

(** [count = 0] means no limit, as in Python. *)
Definition limit (count : nat) : option nat :=
  match count with
  | 0 => None
  | S _ => Some count
  end.

Definition sub (r : regex) (repl : str -> caps -> str) (count : nat) (s : str) : str :=
  sub_go r repl (limit count) true 0 s.

(** [re.sub] with a replacement function that can raise: the first
    failing call aborts the whole substitution. *)
Fixpoint subx_go (r : regex) (repl : str -> caps -> outcome str) (lim : option nat)
    (bol : bool) (skip : nat) (s : str) : outcome str :=
  match skip with
  | S k =>
      match s with
      | [] => Done []
      | c :: s' => subx_go r repl lim (is_nl c) k s'
      end
  | 0 =>
      match (if exhausted lim then None else match_at r bol s) with
      | Some (n, g) =>
          match repl (firstn n s) g with
          | Raised e => Raised e
          | Done t =>
              match s with
              | [] => Done t
              | c :: s' =>
                  match
                    match n with
                    | 0 => subx_go r repl (spend lim) (is_nl c) 0 s'
                    | S k => subx_go r repl (spend lim) (is_nl c) k s'
                    end
                  with
                  | Raised e => Raised e
                  | Done u =>
                      match n with
                      | 0 => Done (t ++ c :: u)
                      | S _ => Done (t ++ u)
                      end
                  end
              end
          end
      | None =>
          match s with
          | [] => Done []
          | c :: s' =>
              match subx_go r repl lim (is_nl c) 0 s' with
              | Raised e => Raised e
              | Done u => Done (c :: u)
              end
          end
      end
  end.

Definition subx (r : regex) (repl : str -> caps -> outcome str) (count : nat) (s : str)
  : outcome str :=
  subx_go r repl (limit count) true 0 s.

End Re.

(* ================================================================== *)
(** * Files, console and exceptions

    A script run is a function of the world: the files, the list of
    [write] calls made so far and the lines printed so far.  A computation
    either returns a value or raises; both come with the world they leave
    behind.  Writing is taken to be atomic: a [write] that starts puts
    the whole text in place. *)

Record file : Type := mkFile {
  readable : bool;
  writable : bool;
  text : str
}.

(** What a script prints about a path. *)
Inductive line : Type :=
| Processing (p : str)
| Updated (p : str)
| NoChanges (p : str)
| AlreadyDone (p : str)
| NotFound (p : str)
| Skipping (p : str)
| Failed (p : str) (e : exn).

Record world : Type := mkWorld {
  files : str -> option file;
  reads : list str;              (* the paths opened for reading, in order *)
  writes : list (str * str);     (* the texts written, in order *)
  console : list line;
  stat_error : str -> bool       (* the missing paths on which [stat] fails otherwise *)
}.

Definition M (A : Type) : Type := world -> outcome A * world.

Definition ret (A : Type) (a : A) : M A := fun w => (Done a, w).

Definition bind (A B : Type) (c : M A) (k : A -> M B) : M B :=
  fun w =>
    match c w with
    | (Done a, w') => k a w'
    | (Raised e, w') => (Raised e, w')
    end.

Definition raise (A : Type) (e : exn) : M A := fun w => (Raised e, w).

(** [try: c except Exception as e: h e] *)
Definition try_except (A : Type) (c : M A) (h : exn -> M A) : M A :=
  fun w =>
    match c w with
    | (Done a, w') => (Done a, w')
    | (Raised e, w') => h e w'
    end.

Definition lift (A : Type) (o : outcome A) : M A := fun w => (o, w).

Notation "x <- c ;; k" := (bind c (fun x => k))
  (at level 61, c at next level, right associativity).
Notation "c ;;; k" := (bind c (fun _ => k))
  (at level 61, right associativity).

Definition print (l : line) : M unit :=
  fun w => (Done tt, mkWorld (files w) (reads w) (writes w) (console w ++ [l])
                             (stat_error w)).

(** [os.path.exists]: every error of [stat] counts as a missing path. *)
Definition path_exists (p : str) : M bool :=
  fun w => (Done (match files w p with Some _ => true | None => false end), w).

(** [pathlib.Path.exists]: an error of [stat] that means a missing path
    gives [False]; before Python 3.13 any other error of [stat]
    (permission denied on a directory of the path, a name too long) is
    raised as [OSError].  [stat_error] holds the paths where that
    happens. *)
Definition pathlib_exists (p : str) : M bool :=
  fun w =>
    match files w p with
    | Some _ => (Done true, w)
    | None => if stat_error w p then (Raised OSError, w) else (Done false, w)
    end.

Definition opened (p : str) (w : world) : world :=
  mkWorld (files w) (reads w ++ [p]) (writes w) (console w) (stat_error w).

(** [open(p, 'r').read()] *)
Definition read_file (p : str) : M str :=
  fun w =>
    match files w p with
    | Some f =>
        if readable f then (Done (text f), opened p w)
        else (Raised OSError, opened p w)
    | None => (Raised OSError, opened p w)
    end.

Definition store (fs : str -> option file) (p : str) (f : file) : str -> option file :=
  fun q => if str_eqb q p then Some f else fs q.

(** [open(p, 'w').write(c)]: opening a file that may not be written
    raises before anything is touched; a missing file is created. *)
Definition write_file (p c : str) : M unit :=
  fun w =>
    match files w p with
    | Some f =>
        if writable f
        then (Done tt, mkWorld (store (files w) p (mkFile (readable f) true c))
                               (reads w) (writes w ++ [(p, c)]) (console w)
                               (stat_error w))
        else (Raised OSError, w)
    | None =>
        (Done tt, mkWorld (store (files w) p (mkFile true true c))
                          (reads w) (writes w ++ [(p, c)]) (console w)
                          (stat_error w))
    end.

(* ================================================================== *)
(** * apply-phase1-standards.py *)

Module ApplyPhase1Standards.
Import Re.

Definition PHASE1_IMPORTS : str :=
"import { NextRequest, NextResponse } from 'next/server';
import { query } from '@/lib/db';
import {
  parseStandardPaginationParams,
  parseSortParams,
  buildStandardListResponse,
} from '@/lib/pagination';
import {
  buildWhereClause,
  buildSearchClause,
  buildQuery,
} from '@/lib/query-builder';
import {
  standardErrorResponse,
  validationErrorResponse,
  ErrorCodes,
  addStandardHeaders,
} from '@/lib/response';
import { requirePermission } from '@/middleware/permissions';
import { getRequestId, logRequest, logResponse } from '@/middleware/correlation';
import { addRateLimitHeaders, globalRateLimitTracker } from '@/middleware/rateLimit';
import { auditLog, AuditActions, AuditResources } from '@/middleware/audit';".

Record file_config : Type := mkConfig {
  path : str;
  resource : str;
  audit_resource : str;
  audit_actions : list (str * str)
}.

Definition provider_actions : list (str * str) :=
  [("create", "PROVIDER_CREATED"); ("update", "PROVIDER_UPDATED");
   ("delete", "PROVIDER_DELETED")].

Definition FILES_TO_UPDATE : list file_config :=
  [ mkConfig "src/app/api/hotels/[id]/route.ts" "hotel" "PROVIDER" provider_actions;
    mkConfig "src/app/api/guides/route.ts" "guide" "PROVIDER" provider_actions;
    mkConfig "src/app/api/guides/[id]/route.ts" "guide" "PROVIDER" provider_actions;
    mkConfig "src/app/api/vehicles/route.ts" "vehicle" "PROVIDER" provider_actions;
    mkConfig "src/app/api/vehicles/[id]/route.ts" "vehicle" "PROVIDER" provider_actions;
    mkConfig "src/app/api/restaurants/route.ts" "restaurant" "PROVIDER" provider_actions;
    mkConfig "src/app/api/transfers/route.ts" "transfer" "PROVIDER" provider_actions;
    mkConfig "src/app/api/providers/route.ts" "provider" "PROVIDER" provider_actions;
    mkConfig "src/app/api/providers/[id]/route.ts" "provider" "PROVIDER" provider_actions;
    mkConfig "src/app/api/suppliers/search/route.ts" "supplier" "PROVIDER" provider_actions ].

(** [^(import.*?)\n\n(?=export|\/\/)] with DOTALL and MULTILINE *)
Definition import_section_rx : regex :=
  cat [Bol; Grp 1 (Seq (lit "import") (lazy_star any)); lit [nl; nl];
       Ahead (Alt (lit "export") (lit "//"))].

Definition apply_phase1_imports (content : str) : str :=
  match search import_section_rx content with
  | Some (_, _, g) =>
      let old_imports := group g 1 in
      Py.replace old_imports PHASE1_IMPORTS content
  | None => content
  end.

(** [(export async function GET\([^)]+\) \{)] *)
Definition get_start_rx : regex :=
  Grp 1 (cat [lit "export async function GET("; plus (nset ")"); lit ") {"]).

Definition tracking_code : str :=
"
  const requestId = getRequestId(request);
  const startTime = Date.now();".

(** [(const \{ tenantId(?:, user)? \} = authResult;)] *)
Definition auth_rx : regex :=
  Grp 1 (cat [lit "const { tenantId"; opt (lit ", user"); lit " } = authResult;"]).

Definition rate_limit_code : str :=
"

    // Rate limiting (100 requests per hour per user)
    const rateLimit = globalRateLimitTracker.trackRequest(
      `user_${user.userId}`,
      100,
      3600
    );

    if (rateLimit.remaining === 0) {
      const minutesLeft = Math.ceil((rateLimit.reset - Math.floor(Date.now() / 1000)) / 60);
      return standardErrorResponse(
        ErrorCodes.RATE_LIMIT_EXCEEDED,
        `Rate limit exceeded. Try again in ${minutesLeft} minutes.`,
        429,
        undefined,
        requestId
      );
    }".

Definition add_request_tracking_to_get (content : str) : str :=
  let content := sub get_start_rx (fun _ g => group g 1 ++ tracking_code) 0 content in
  (* Add rate limiting after auth *)
  let content := sub auth_rx (fun _ g => group g 1 ++ rate_limit_code) 1 content in
  content.

Definition replace_pagination_calls (content : str) : str :=
  let content := Py.replace "parsePaginationParams(" "parseStandardPaginationParams(" content in
  let content := Py.replace "buildPagedResponse(" "buildStandardListResponse(" content in
  content.

(** [errorResponse\(\s*internalServerErrorProblem\([^)]+\)\s*\)] *)
Definition internal_error_rx : regex :=
  cat [lit "errorResponse("; star ws; lit "internalServerErrorProblem(";
       plus (nset ")"); lit ")"; star ws; lit ")"].

(** ['([^']+)'] *)
Definition quoted_rx : regex :=
  cat [lit "'"; Grp 1 (plus (nset "'")); lit "'"].

(** The replacement is a lambda that asks for [.group(1)] of a search
    result without testing it: [None] raises [AttributeError]. *)
Definition replace_error_responses (content : str) : outcome str :=
  subx internal_error_rx
       (fun m _ =>
          match search quoted_rx m with
          | Some (_, _, g) =>
              Done ("standardErrorResponse(ErrorCodes.INTERNAL_ERROR, " ++ group g 1 ++
                    ", 500, undefined, requestId)")
          | None => Raised AttributeError
          end)
       0 content.

(** The four transformations of [process_file], in order. *)
Definition transform (content : str) : outcome str :=
  (* 1. Update imports *)
  let content := apply_phase1_imports content in
  (* 2. Add request tracking *)
  let content := add_request_tracking_to_get content in
  (* 3. Replace pagination calls *)
  let content := replace_pagination_calls content in
  (* 4. Replace error responses *)
  replace_error_responses content.

Definition process_file (file_config : file_config) : M bool :=
  let file_path := path file_config in
  present <- path_exists file_path ;;
  if negb present then
    print (NotFound file_path) ;;; ret false
  else
    print (Processing file_path) ;;;
    content <- read_file file_path ;;
    let original_content := content in
    content <- lift (transform content) ;;
    (* Only write if changes were made *)
    if negb (str_eqb content original_content) then
      write_file file_path content ;;;
      print (Updated file_path) ;;;
      ret true
    else
      print (NoChanges file_path) ;;;
      ret false.

(** The loop of [main]; the result is [updated_count]. *)
Fixpoint main_loop (configs : list file_config) (updated_count : nat) : M nat :=
  match configs with
  | [] => ret updated_count
  | file_config :: rest =>
      updated <- process_file file_config ;;
      main_loop rest (if updated then updated_count + 1 else updated_count)
  end.

Definition main : M nat := main_loop FILES_TO_UPDATE 0.

End ApplyPhase1Standards.

(* ================================================================== *)
(** * update-phase1-endpoints.py *)

Module UpdatePhase1Endpoints.
Import Re.

(** The four entries of [REQUIRED_IMPORTS]. *)
Definition import_correlation : str :=
  "import { getRequestId, logRequest, logResponse } from '@/middleware/correlation';".
Definition import_rateLimit : str :=
  "import { addRateLimitHeaders, globalRateLimitTracker } from '@/middleware/rateLimit';".
Definition import_response : str :=
  "import { standardErrorResponse, validationErrorResponse, ErrorCodes, addStandardHeaders } from '@/lib/response';".
Definition import_pagination : str :=
  "import { parseStandardPaginationParams, buildStandardListResponse } from '@/lib/pagination';".

(** [RATE_LIMITS]: method, (limit, window). *)
Definition RATE_LIMITS : list (str * (nat * nat)) :=
  [("GET", (100, 3600)); ("POST", (50, 3600)); ("PUT", (50, 3600));
   ("PATCH", (50, 3600)); ("DELETE", (20, 3600))].

(** [d.get(key, default)] on a table. *)
Fixpoint get (V : Type) (d : list (str * V)) (key : str) (default : V) : V :=
  match d with
  | [] => default
  | (k, v) :: d' => if str_eqb k key then v else get d' key default
  end.

(** The index of the last line that starts, after stripping, with
    [import ]; 0 when there is none. *)
Fixpoint last_import (lines : list str) (i last_import_idx : nat) : nat :=
  match lines with
  | [] => last_import_idx
  | line :: rest =>
      last_import rest (S i)
        (if Py.startswith "import " (Py.strip line) then i else last_import_idx)
  end.

(** The [for ... break ... else] over the lines: the first line from
    [@/lib/response] that lacks [standardErrorResponse] is overwritten;
    [None] when the loop ends without [break]. *)
Fixpoint replace_response_line (lines : list str) : option (list str) :=
  match lines with
  | [] => None
  | line :: rest =>
      if Py.contains "@/lib/response" line && negb (Py.contains "standardErrorResponse" line)
      then Some (import_response :: rest)
      else option_map (cons line) (replace_response_line rest)
  end.

(** [for imp in reversed(imports_to_add): if imp not in content:
    lines.insert(idx, imp)] *)
Fixpoint insert_all (content : str) (idx : nat) (reversed_imports : list str)
    (lines : list str) : list str :=
  match reversed_imports with
  | [] => lines
  | imp :: rest =>
      insert_all content idx rest
        (if negb (Py.contains imp content) then Py.list_insert idx imp lines else lines)
  end.

Definition add_imports (content file_path : str) : str :=
  let lines := Py.split [nl] content in
  (* Find the last import statement *)
  let last_import_idx := last_import lines 0 0 in
  (* Check which imports are missing *)
  let imports_to_add := [] in
  let imports_to_add :=
    if negb (Py.contains "getRequestId" content) || negb (Py.contains "logResponse" content)
    then imports_to_add ++ [import_correlation] else imports_to_add in
  let imports_to_add :=
    if negb (Py.contains "globalRateLimitTracker" content)
    then imports_to_add ++ [import_rateLimit] else imports_to_add in
  let '(lines, imports_to_add) :=
    if negb (Py.contains "standardErrorResponse" content) || Py.contains "errorResponse(" content
    then
      if negb (Py.contains import_response content)
      then match replace_response_line lines with
           | Some lines' => (lines', imports_to_add)
           | None => (lines, imports_to_add ++ [import_response])
           end
      else (lines, imports_to_add)
    else (lines, imports_to_add) in
  let imports_to_add :=
    if Py.contains "route.ts" file_path && negb (Py.contains "[id]" file_path)
    then
      if negb (Py.contains "parseStandardPaginationParams" content)
      then imports_to_add ++ [import_pagination] else imports_to_add
    else imports_to_add in
  (* Insert new imports after last import *)
  let lines := insert_all content (last_import_idx + 1) (rev imports_to_add) lines in
  Py.join [nl] lines.

(** [export async function {method}\s*\([^)]+\)\s*\{] *)
Definition method_rx (method : str) : regex :=
  cat [lit "export async function "; lit method; star ws; lit "(";
       plus (nset ")"); lit ")"; star ws; lit "{"].

Definition phase1_init : str :=
"
  const requestId = getRequestId(request);
  const startTime = Date.now();
".

Definition update_method_handler (content method : str) (is_list_endpoint : bool) : str :=
  match search (method_rx method) content with
  | None => content
  | Some (_, start_pos, _) =>
      (* Check if requestId already exists *)
      if Py.contains "const requestId = getRequestId(request);"
                     (Py.slice start_pos (start_pos + 500) content)
      then content
      else firstn start_pos content ++ phase1_init ++ skipn start_pos content
  end.

(** [const \{ tenantId, user \} = authResult;] *)
Definition auth_text : str := "const { tenantId, user } = authResult;".

Definition key_suffix (method : str) : str :=
  if str_eqb method "GET" then []
  else if str_eqb method "POST" then "_create"
  else if str_eqb method "PUT" || str_eqb method "PATCH" then "_update"
  else if str_eqb method "DELETE" then "_delete"
  else [].

Definition rate_limit_code (limit window : nat) (key_suffix : str) : str :=
"

    // Rate limiting (" ++ str_of_nat limit ++ " requests per hour per user)
    const rateLimit = globalRateLimitTracker.trackRequest(
      `user_${user.userId}" ++ key_suffix ++ "`,
      " ++ str_of_nat limit ++ ",
      " ++ str_of_nat window ++ "
    );

    if (rateLimit.remaining === 0) {
      const minutesLeft = Math.ceil((rateLimit.reset - Math.floor(Date.now() / 1000)) / 60);
      return standardErrorResponse(
        ErrorCodes.RATE_LIMIT_EXCEEDED,
        `Rate limit exceeded. Try again in ${minutesLeft} minutes.`,
        429,
        undefined,
        requestId
      );
    }
".

Definition add_rate_limiting (content method : str) : str :=
  (* Find the auth result section *)
  match search (lit auth_text) content with
  | None => content
  | Some (_, insert_pos, _) =>
      (* Check if rate limiting already exists *)
      if Py.contains "globalRateLimitTracker.trackRequest" content then content
      else
        let '(limit, window) := get RATE_LIMITS method (100, 3600) in
        firstn insert_pos content
          ++ rate_limit_code limit window (key_suffix method)
          ++ skipn insert_pos content
  end.

(** [return NextResponse\.json\(([^)]+)\);] *)
Definition json_return_rx : regex :=
  cat [lit "return NextResponse.json("; Grp 1 (plus (nset ")")); lit ");"].

Definition update_response_headers (content : str) : str :=
  sub json_return_rx
      (fun _ g => "const response = NextResponse.json(" ++ group g 1 ++ ");
    addStandardHeaders(response, requestId);
    return response;")
      0 content.

Definition quotes : str := "'" ++ [dquote].

(** [errorResponse\({problem}\(['\x22]([^'\x22]+)['\x22],\s*[^\)]+\)\)],
    the double quote written [\x22] here *)
Definition problem_rx (problem : str) : regex :=
  cat [lit "errorResponse("; lit problem; lit "("; set quotes;
       Grp 1 (plus (nset quotes)); set quotes; lit ","; star ws;
       plus (nset ")"); lit "))"].

(** [errorResponse\(internalServerErrorProblem\([^\)]+\)\)] *)
Definition internal_any_rx : regex :=
  cat [lit "errorResponse(internalServerErrorProblem("; plus (nset ")"); lit "))"].

(** [return successResponse\(([^)]+)\);] *)
Definition success_rx : regex :=
  cat [lit "return successResponse("; Grp 1 (plus (nset ")")); lit ");"].

Definition standard_error (error_code status : str) (g : caps) : str :=
  "standardErrorResponse(ErrorCodes." ++ error_code ++ ", '" ++ group g 1 ++ "', "
    ++ status ++ ", undefined, requestId)".

Definition replace_old_error_functions (content : str) : str :=
  let content :=
    sub (problem_rx "notFoundProblem") (fun _ g => standard_error "NOT_FOUND" "404" g)
        0 content in
  let content :=
    sub (problem_rx "badRequestProblem") (fun _ g => standard_error "VALIDATION_ERROR" "400" g)
        0 content in
  let content :=
    sub (problem_rx "internalServerErrorProblem")
        (fun _ g => standard_error "INTERNAL_ERROR" "500" g) 0 content in
  let content :=
    sub internal_any_rx
        (fun _ _ => "standardErrorResponse(ErrorCodes.INTERNAL_ERROR, 'An unexpected error occurred', 500, undefined, requestId)")
        0 content in
  let content :=
    sub success_rx
        (fun _ g => "const response = NextResponse.json(" ++ group g 1 ++ ");
    addStandardHeaders(response, requestId);
    return response;")
        0 content in
  content.

(** The pattern of [add_logging_to_catch]: the text [} catch (error], any
    characters but an opening brace, the opening brace, and as group 1 a
    stretch without closing brace around [console.error]. *)
Definition catch_rx : regex :=
  cat [lit "} catch (error"; star (nset "{"); lit "{";
       Grp 1 (cat [star (nset "}"); lit "console.error"; star (nset "}")])].

Definition add_log (g : caps) : str :=
  let catch_body := group g 1 in
  let catch_body :=
    if negb (Py.contains "logResponse" catch_body)
    then Py.replace "console.error"
"logResponse(requestId, 500, Date.now() - startTime, {
      error: error.message,
    });

    console.error" catch_body
    else catch_body in
  "} catch (error: any) {" ++ catch_body.

Definition add_logging_to_catch (content : str) : str :=
  sub catch_rx (fun _ g => add_log g) 0 content.

Definition already_updated (content : str) : bool :=
  forallb (fun marker => Py.contains marker content)
          ["getRequestId(request)"; "standardErrorResponse"; "addStandardHeaders"]
  && negb (Py.contains "errorResponse(" content).

(** Step 3 of [update_file]: the loop over the methods. *)
Fixpoint update_methods (methods : list str) (is_list_endpoint : bool) (content : str) : str :=
  match methods with
  | [] => content
  | method :: rest =>
      let content :=
        if Py.contains ("export async function " ++ method) content
        then
          let content := update_method_handler content method is_list_endpoint in
          add_rate_limiting content method
        else content in
      update_methods rest is_list_endpoint content
  end.

(** Steps 1 to 5 of [update_file]. *)
Definition transform (content file_path : str) : str :=
  let is_list_endpoint :=
    Py.contains "route.ts" file_path && negb (Py.contains "[id]" file_path) in
  (* Step 1: Add/update imports *)
  let content := add_imports content file_path in
  (* Step 2: Replace old error functions *)
  let content := replace_old_error_functions content in
  (* Step 3: Update method handlers *)
  let content := update_methods ["GET"; "POST"; "PUT"; "PATCH"; "DELETE"] is_list_endpoint content in
  (* Step 4: Add logging to catch blocks *)
  let content := add_logging_to_catch content in
  (* Step 5: Update response headers *)
  let content := update_response_headers content in
  content.

Definition update_file (file_path : str) : M bool :=
  try_except
    (content <- read_file file_path ;;
     let original_content := content in
     (* Skip if already fully updated (has all Phase 1 markers) *)
     if already_updated content then
       print (AlreadyDone file_path) ;;; ret false
     else
       let content := transform content file_path in
       (* Only write if changed *)
       if negb (str_eqb content original_content) then
         write_file file_path content ;;;
         print (Updated file_path) ;;;
         ret true
       else
         print (NoChanges file_path) ;;;
         ret false)
    (fun e => print (Failed file_path e) ;;; ret false).

Definition endpoints : list str :=
  [ "clients/route.ts"; "clients/[id]/route.ts"; "bookings/route.ts";
    "bookings/[id]/route.ts"; "invoices/payable/route.ts";
    "invoices/receivable/route.ts"; "invoices/payable/[id]/route.ts";
    "invoices/receivable/[id]/route.ts"; "invoices/payable/[id]/payment/route.ts";
    "invoices/receivable/[id]/payment/route.ts";
    "quotations/[id]/route.ts"; "quotations/[id]/status/route.ts";
    "quotations/[id]/days/route.ts"; "quotations/[id]/expenses/route.ts";
    "quotations/[id]/generate-itinerary/route.ts";
    "hotels/route.ts"; "hotels/[id]/route.ts"; "guides/route.ts";
    "guides/[id]/route.ts"; "vehicles/route.ts"; "vehicles/[id]/route.ts";
    "restaurants/route.ts"; "restaurants/[id]/route.ts"; "transfers/route.ts";
    "transfers/[id]/route.ts"; "providers/route.ts"; "providers/[id]/route.ts";
    "suppliers/search/route.ts";
    "reports/agents/clients/route.ts"; "reports/agents/performance/route.ts";
    "reports/clients/acquisition-retention/route.ts";
    "reports/clients/demographics/route.ts"; "reports/clients/lifetime-value/route.ts";
    "reports/executive/summary/route.ts"; "reports/financial/aging/route.ts";
    "reports/financial/commissions/route.ts"; "reports/financial/dashboard/route.ts";
    "reports/financial/profit-loss/route.ts"; "reports/financial/providers/route.ts";
    "reports/operations/booking-status/route.ts"; "reports/operations/capacity/route.ts";
    "reports/operations/response-times/route.ts";
    "reports/operations/service-usage/route.ts";
    "reports/operations/upcoming-tours/route.ts"; "reports/pricing/analysis/route.ts";
    "reports/pricing/cost-structure/route.ts"; "reports/sales/destinations/route.ts";
    "reports/sales/overview/route.ts"; "reports/sales/quotes/route.ts";
    "reports/sales/trends/route.ts";
    "finance/summary/route.ts"; "finance/customers/route.ts";
    "finance/suppliers/route.ts"; "dashboard/stats/route.ts";
    "dashboard/recent-requests/route.ts"; "dashboard/upcoming-tours/route.ts";
    "users/route.ts"; "users/[id]/route.ts"; "requests/route.ts";
    "requests/[id]/route.ts"; "admin/check-schema/route.ts";
    "admin/cleanup-tours/route.ts"; "admin/migrate-providers/route.ts" ].

(** The counters of [main]. *)
Record counts : Type := mkCounts { updated : nat; skipped : nat; failed : nat }.

(** The loop of [main] over the endpoints below [base_dir]. *)
Fixpoint main_loop (base_dir : str) (endpoints : list str) (c : counts) : M counts :=
  match endpoints with
  | [] => ret c
  | endpoint :: rest =>
      let file_path := base_dir ++ "/" ++ endpoint in
      present <- pathlib_exists file_path ;;
      if present then
        changed <- update_file file_path ;;
        main_loop base_dir rest
          (if changed then mkCounts (updated c + 1) (skipped c) (failed c)
           else mkCounts (updated c) (skipped c + 1) (failed c))
      else
        print (NotFound file_path) ;;;
        main_loop base_dir rest (mkCounts (updated c) (skipped c) (failed c + 1))
  end.

Definition main (base_dir : str) : M counts :=
  main_loop base_dir endpoints (mkCounts 0 0 0).

End UpdatePhase1Endpoints.

(* ================================================================== *)
(** * migrate-endpoints.py *)

Module MigrateEndpoints.
Import Re.

Definition BASE_DIR : str := "C:\Users\fatih\Desktop\CRM\src\app\api".

Definition ENDPOINTS_TO_MIGRATE : list str :=
  [ "agents/route.ts"; "agents/[id]/route.ts";
    "hotels/route.ts"; "hotels/[id]/route.ts"; "guides/route.ts";
    "guides/[id]/route.ts"; "vehicles/route.ts"; "vehicles/[id]/route.ts";
    "daily-tours/route.ts"; "daily-tours/[id]/route.ts";
    "invoices/receivable/route.ts"; "invoices/receivable/[id]/route.ts";
    "invoices/payable/route.ts"; "invoices/payable/[id]/route.ts";
    "hotel-pricing/route.ts"; "hotel-pricing/[id]/route.ts";
    "guide-pricing/route.ts"; "guide-pricing/[id]/route.ts";
    "vehicle-pricing/route.ts"; "vehicle-pricing/[id]/route.ts";
    "tour-pricing/route.ts"; "tour-pricing/[id]/route.ts";
    "entrance-fee-pricing/route.ts"; "entrance-fee-pricing/[id]/route.ts";
    "providers/route.ts"; "providers/[id]/route.ts"; "requests/route.ts";
    "requests/[id]/route.ts"; "bookings/route.ts"; "bookings/[id]/route.ts";
    "users/route.ts"; "users/[id]/route.ts"; "transfers/route.ts";
    "transfers/[id]/route.ts"; "restaurants/route.ts"; "restaurants/[id]/route.ts";
    "entrance-fees/route.ts"; "entrance-fees/[id]/route.ts";
    "extra-expenses/route.ts"; "extra-expenses/[id]/route.ts";
    "finance/summary/route.ts"; "finance/exchange-rates/route.ts";
    "finance/exchange-rates/latest/route.ts"; "finance/customers/route.ts";
    "finance/suppliers/route.ts";
    "dashboard/stats/route.ts"; "dashboard/recent-requests/route.ts";
    "dashboard/upcoming-tours/route.ts";
    "reports/agents/clients/route.ts"; "reports/agents/performance/route.ts";
    "reports/clients/demographics/route.ts";
    "reports/clients/acquisition-retention/route.ts";
    "reports/clients/lifetime-value/route.ts"; "reports/executive/summary/route.ts";
    "reports/financial/aging/route.ts"; "reports/financial/commissions/route.ts";
    "reports/financial/dashboard/route.ts"; "reports/financial/providers/route.ts";
    "reports/financial/profit-loss/route.ts";
    "reports/operations/booking-status/route.ts";
    "reports/operations/service-usage/route.ts";
    "reports/operations/response-times/route.ts";
    "reports/operations/capacity/route.ts";
    "reports/operations/upcoming-tours/route.ts"; "reports/pricing/analysis/route.ts";
    "reports/pricing/cost-structure/route.ts"; "reports/sales/overview/route.ts";
    "reports/sales/destinations/route.ts"; "reports/sales/quotes/route.ts";
    "reports/sales/trends/route.ts" ].

Definition quotes : str := "'" ++ [dquote].

(** [x in lst] for a list of texts *)
Definition mem (x : str) (l : list str) : bool := existsb (str_eqb x) l.

(** The renaming loop of [update_pagination_imports]. *)
Fixpoint rename_imports (imports : list str) : list str :=
  match imports with
  | [] => []
  | imp :: rest =>
      if Py.contains "parsePaginationParams" imp
      then "parseStandardPaginationParams" :: rename_imports rest
      else if Py.contains "buildPagedResponse" imp
      then "buildStandardListResponse" :: rename_imports rest
      else if negb (mem (Py.strip imp)
                        ["parseStandardPaginationParams"; "buildStandardListResponse"])
      then Py.strip imp :: rename_imports rest
      else rename_imports rest
  end.

(** Remove duplicates while preserving order; [seen] is the set of the
    names already kept. *)
Fixpoint dedup (seen : list str) (new_imports : list str) : list str :=
  match new_imports with
  | [] => []
  | imp :: rest =>
      if negb (mem imp seen) then imp :: dedup (imp :: seen) rest
      else dedup seen rest
  end.

Definition update_pagination_imports (imports_str : str) : str :=
  let imports := map Py.strip (Py.split "," imports_str) in
  let new_imports := rename_imports imports in
  let result := dedup [] new_imports in
  Py.join ", " result.

(** [from ['\x22]{module}['\x22] import \{([^}]+)\}], the double quote
    written [\x22] here *)
Definition from_import_rx (module : str) : regex :=
  cat [lit "from "; set quotes; lit module; set quotes; lit " import {";
       Grp 1 (plus (nset "}")); lit "}"].

(** [.] without DOTALL *)
Definition dot : regex := Cls (fun c => negb (is_nl c)).

(** [import .+ from ['\x22][^'\x22]+ ['\x22];?\n] *)
Definition import_line_rx : regex :=
  cat [lit "import "; plus dot; lit " from "; set quotes; plus (nset quotes);
       lit " "; set quotes; opt (lit ";"); lit [nl]].

(** [import \{ NextRequest \} from ['\x22]next/server['\x22]] *)
Definition next_request_rx : regex :=
  cat [lit "import { NextRequest } from "; set quotes; lit "next/server"; set quotes].

(** [re.findall] of a pattern without groups: the matched texts. *)
Definition findall (r : regex) (s : str) : list str :=
  map (fun m => match m with (a, b, _) => Py.slice a b s end) (finditer r s).

Definition update_imports (content : str) : str :=
  (* Update pagination imports *)
  let content :=
    sub (from_import_rx "@/lib/pagination")
        (fun _ g => "from '@/lib/pagination' import { "
                      ++ update_pagination_imports (group g 1) ++ " }")
        0 content in
  (* Update response imports *)
  let content :=
    sub (from_import_rx "@/lib/response")
        (fun _ _ => "from '@/lib/response' import { standardErrorResponse, notFoundErrorResponse, validationErrorResponse, ErrorCodes }")
        0 content in
  (* Add correlation import if not present *)
  let content :=
    if negb (Py.contains "from '@/middleware/correlation'" content) then
      let import_lines := findall import_line_rx content in
      match rev import_lines with
      | last_import :: _ =>
          Py.replace last_import
            (last_import ++ "import { getRequestId, logResponse } from '@/middleware/correlation';"
                         ++ [nl])
            content
      | [] => content
      end
    else content in
  (* Ensure NextResponse is imported *)
  let content :=
    if negb (Py.contains "NextResponse" content) && Py.contains "from 'next/server'" content
    then sub next_request_rx
             (fun _ _ => "import { NextRequest, NextResponse } from 'next/server'")
             0 content
    else content in
  content.

(** [export async function {handler_name}\([^)]+\)\s*\{] *)
Definition handler_rx (handler_name : str) : regex :=
  cat [lit "export async function "; lit handler_name; lit "(";
       plus (nset ")"); lit ")"; star ws; lit "{"].

Definition add_request_correlation_to_handler (content handler_name : str) : str :=
  (* Check if already migrated *)
  if Py.contains "const requestId = getRequestId(request)" content then content
  else
    sub (handler_rx handler_name)
        (fun m _ => m ++ "
  const requestId = getRequestId(request);
  const startTime = Date.now();")
        0 content.

(** [internalServerErrorProblem\(['\x22]([^'\x22]+)['\x22]] *)
Definition message_rx : regex :=
  cat [lit "internalServerErrorProblem("; set quotes; Grp 1 (plus (nset quotes));
       set quotes].

Definition extract_error_message (error_call : str) : str :=
  match search message_rx error_call with
  | Some (_, _, g) => "'" ++ group g 1 ++ "'"
  | None => "'An error occurred'"
  end.

Definition update_success_response (response_data : str) : str :=
  "NextResponse.json(" ++ response_data ++ ");
    response.headers.set('X-Request-Id', requestId);
    return response".

(** [return errorResponse\(tenantResult\.error\)] *)
Definition tenant_error_rx : regex := lit "return errorResponse(tenantResult.error)".

(** [return errorResponse\(notFoundProblem\(['\x22]([^'\x22]+ not found)['\x22](?:, [^)]+)?\)\)] *)
Definition not_found_rx : regex :=
  cat [lit "return errorResponse(notFoundProblem("; set quotes;
       Grp 1 (Seq (plus (nset quotes)) (lit " not found")); set quotes;
       opt (Seq (lit ", ") (plus (nset ")"))); lit "))"].

(** [return errorResponse\(\s*internalServerErrorProblem\([^)]+\)\s*\)] *)
Definition internal_error_rx : regex :=
  cat [lit "return errorResponse("; star ws; lit "internalServerErrorProblem(";
       plus (nset ")"); lit ")"; star ws; lit ")"].

(** [return successResponse\(([^,)]+)\)] *)
Definition success_rx : regex :=
  cat [lit "return successResponse("; Grp 1 (plus (nset ",)")); lit ")"].

Definition update_error_responses (content : str) : str :=
  (* Update errorResponse calls *)
  let content :=
    sub tenant_error_rx
        (fun _ _ => "return standardErrorResponse(
        ErrorCodes.AUTHENTICATION_REQUIRED,
        tenantResult.error.detail || 'Authentication required',
        tenantResult.error.status,
        undefined,
        requestId
      )")
        0 content in
  (* Update notFoundProblem *)
  let content :=
    sub not_found_rx
        (fun _ g => "return notFoundErrorResponse('" ++ group g 1 ++ "', requestId)")
        0 content in
  (* Update internalServerErrorProblem *)
  let content :=
    sub internal_error_rx
        (fun m _ => "return standardErrorResponse(
      ErrorCodes.INTERNAL_ERROR,
      " ++ extract_error_message m ++ ",
      500,
      undefined,
      requestId
    )")
        0 content in
  (* Update successResponse to NextResponse.json *)
  let content :=
    sub success_rx (fun _ g => update_success_response (group g 1)) 0 content in
  content.

(** [buildPagedResponse\(([^,]+),\s*([^,]+),\s*([^,]+),\s*([^)]+)\)] *)
Definition paged_rx : regex :=
  cat [lit "buildPagedResponse("; Grp 1 (plus (nset ",")); lit ","; star ws;
       Grp 2 (plus (nset ",")); lit ","; star ws;
       Grp 3 (plus (nset ",")); lit ","; star ws;
       Grp 4 (plus (nset ")")); lit ")"].

(** The replacement lambda of the second substitution. *)
Definition paged_replacement (g : caps) : str :=
  "buildStandardListResponse(" ++ group g 1 ++ ", " ++ group g 2 ++ ", "
    ++ group g 3 ++ ", " ++ group g 4 ++ ", baseUrl, appliedFilters)".

Definition update_pagination_calls (content : str) : str :=
  (* Update parsePaginationParams *)
  let content :=
    sub (lit "parsePaginationParams(") (fun _ _ => "parseStandardPaginationParams(")
        0 content in
  (* Update buildPagedResponse *)
  let content := sub paged_rx (fun _ g => paged_replacement g) 0 content in
  content.

Definition add_logging (content handler_name : str) : str := content.

(** The loop of [migrate_endpoint] over the handlers. *)
Fixpoint correlate_handlers (handlers : list str) (content : str) : str :=
  match handlers with
  | [] => content
  | handler :: rest =>
      correlate_handlers rest
        (if Py.contains ("export async function " ++ handler) content
         then add_request_correlation_to_handler content handler
         else content)
  end.

(** The transformations of [migrate_endpoint], in order. *)
Definition transform (content : str) : str :=
  let content := update_imports content in
  (* Add request correlation to all handlers *)
  let content := correlate_handlers ["GET"; "POST"; "PUT"; "PATCH"; "DELETE"] content in
  let content := update_pagination_calls content in
  let content := update_error_responses content in
  content.

Definition already_migrated (content : str) : bool :=
  Py.contains "parseStandardPaginationParams" content || Py.contains "getRequestId" content.

Definition migrate_endpoint (file_path : str) : M bool :=
  print (Processing file_path) ;;;
  present <- path_exists file_path ;;
  if negb present then
    print (NotFound file_path) ;;; ret false
  else
    try_except
      (content <- read_file file_path ;;
       (* Skip if already migrated *)
       if already_migrated content then
         print (AlreadyDone file_path) ;;; ret true
       else
         let original_content := content in
         let content := transform content in
         (* Only write if content changed *)
         if negb (str_eqb content original_content) then
           write_file file_path content ;;;
           print (Updated file_path) ;;;
           ret true
         else
           print (NoChanges file_path) ;;;
           ret true)
      (fun e => print (Failed file_path e) ;;; ret false).

Record counts : Type := mkCounts { migrated : nat; failed : nat; skipped : nat }.

Fixpoint main_loop (endpoints : list str) (c : counts) : M counts :=
  match endpoints with
  | [] => ret c
  | endpoint :: rest =>
      let file_path := BASE_DIR ++ "/" ++ endpoint in
      ok <- migrate_endpoint file_path ;;
      if ok then main_loop rest (mkCounts (migrated c + 1) (failed c) (skipped c))
      else
        present <- path_exists file_path ;;
        if present then main_loop rest (mkCounts (migrated c) (failed c + 1) (skipped c))
        else main_loop rest (mkCounts (migrated c) (failed c) (skipped c + 1))
  end.

Definition main : M counts := main_loop ENDPOINTS_TO_MIGRATE (mkCounts 0 0 0).

End MigrateEndpoints.

(* ================================================================== *)
(** * apply-rbac.py *)

Module ApplyRbac.
Import Re.

(** Mapping of API paths to resources. *)
Definition RESOURCE_MAP : list (str * str) :=
  [ ("/api/quotations", "quotations"); ("/api/clients", "clients");
    ("/api/bookings", "bookings"); ("/api/invoices", "invoices");
    ("/api/reports", "reports"); ("/api/users", "users");
    ("/api/agents", "agents"); ("/api/providers", "providers");
    ("/api/hotels", "providers"); ("/api/guides", "providers");
    ("/api/vehicles", "providers"); ("/api/restaurants", "providers");
    ("/api/transfers", "providers"); ("/api/suppliers", "providers");
    ("/api/requests", "requests"); ("/api/finance", "finance");
    ("/api/admin", "admin"); ("/api/dashboard", "dashboard");
    ("/api/hotel-pricing", "pricing"); ("/api/guide-pricing", "pricing");
    ("/api/vehicle-pricing", "pricing"); ("/api/tour-pricing", "pricing");
    ("/api/entrance-fee-pricing", "pricing"); ("/api/entrance-fees", "providers");
    ("/api/daily-tours", "providers"); ("/api/extra-expenses", "providers") ].

(** HTTP method to action mapping, in the order the dict iterates. *)
Definition METHOD_TO_ACTION : list (str * str) :=
  [ ("GET", "read"); ("POST", "create"); ("PUT", "update");
    ("PATCH", "update"); ("DELETE", "delete") ].

(** Skip these paths. *)
Definition SKIP_PATHS : list str :=
  [ "/api/auth"; "/api/health"; "/api/roles"; "/api/audit-logs" ].

(** [d.get(key)] *)
Fixpoint dict_get (d : list (str * str)) (key : str) : option str :=
  match d with
  | [] => None
  | (k, v) :: d' => if str_eqb k key then Some v else dict_get d' key
  end.

(** [path_str.split('/api/')[1].split('/')[0]], taken when ['/api/'] is
    in the path, so that index 1 exists. *)
Definition api_segment (path_str : str) : str :=
  hd [] (Py.split "/" (nth 1 (Py.split "/api/" path_str) [])).

Definition get_resource_from_path (file_path : str) : option str :=
  let path_str := file_path in
  (* Get the API path segment *)
  if Py.contains "/api/" path_str then
    let api_path := "/api/" ++ api_segment path_str in
    (* Check if we should skip *)
    if existsb (fun skip => Py.contains skip api_path) SKIP_PATHS then None
    else (* Get resource from map *) dict_get RESOURCE_MAP api_path
  else None.

Definition should_add_import (content : str) : bool :=
  negb (Py.contains "requirePermission" content).

Definition should_replace_tenant (content : str) : bool :=
  Py.contains "requireTenant" content.

Definition quotes : str := "'" ++ [dquote].

(** [import\s+{\s*requireTenant\s*}\s+from\s+['\x22]@/middleware/tenancy['\x22];?],
    the double quote written [\x22] here *)
Definition tenant_import_rx : regex :=
  cat [lit "import"; plus ws; lit "{"; star ws; lit "requireTenant"; star ws; lit "}";
       plus ws; lit "from"; plus ws; set quotes; lit "@/middleware/tenancy"; set quotes;
       opt (lit ";")].

Definition replace_import (content : str) : str :=
  sub tenant_import_rx
      (fun _ _ => "import { requirePermission } from '@/middleware/permissions';")
      0 content.

(** [(import\s+{[^}]+}\s+from\s+['\x22]@/[^'\x22]+['\x22];?\s*\n)] *)
Definition import_pattern : regex :=
  Grp 1 (cat [lit "import"; plus ws; lit "{"; plus (nset "}"); lit "}"; plus ws;
              lit "from"; plus ws; set quotes; lit "@/"; plus (nset quotes); set quotes;
              opt (lit ";"); star ws; lit [nl]]).

Definition new_import : str :=
  "import { requirePermission } from '@/middleware/permissions';" ++ [nl].

Definition add_import (content : str) : str :=
  if should_add_import content then
    (* Find a good place to add the import (after other imports from @/) *)
    let matches := finditer import_pattern content in
    match rev matches with
    | (_, insert_pos, _) :: _ =>
        (* Add after the last @ import *)
        firstn insert_pos content ++ new_import ++ skipn insert_pos content
    | [] => content
    end
  else content.

(** The method pattern: [export], [async], [function] and the method name
    separated by white space, a parenthesised parameter list without
    closing parenthesis inside, the opening brace, and then every
    character up to the next opening brace. *)
Definition method_pattern (method_name : str) : regex :=
  cat [lit "export"; plus ws; lit "async"; plus ws; lit "function"; plus ws;
       lit method_name; star ws; lit "("; star (nset ")"); lit ")"; star ws; lit "{";
       star (nset "{")].

(** The authentication block: the [requireTenant] call bound to a
    [...Result] variable, the [if ('error' in ...Result) { ... }] test, and
    the destructuring [const { vars } = ...Result], whose variables are
    group 1. *)
Definition auth_pattern : regex :=
  cat [lit "const"; plus ws; plus wd; lit "Result"; star ws; lit "="; star ws;
       lit "await"; plus ws; lit "requireTenant(request)"; opt (lit ";"); star ws;
       lit "if"; star ws; lit "("; star (nset ")"); set quotes; lit "error"; set quotes;
       plus ws; lit "in"; plus ws; plus wd; lit "Result"; star (nset ")"); lit ")";
       star ws; lit "{"; plus (nset "}"); lit "}"; star (nset "}");
       lit "const"; star ws; lit "{"; star ws; Grp 1 (plus (nset "}")); star ws; lit "}";
       star ws; lit "="; star ws; plus wd; lit "Result"; opt (lit ";")].

Definition replacement (resource_name action vars_match : str) : str :=
  "const authResult = await requirePermission(request, '" ++ resource_name ++ "', '"
    ++ action ++ "');
    if ('error' in authResult) {
      return authResult.error;
    }
    const { " ++ vars_match ++ " } = authResult;".

Definition replace_auth_in_method (content method_name resource_name action : str) : str :=
  (* Find the method *)
  match search (method_pattern method_name) content with
  | None => content
  | Some (_, method_start, _) =>
      (* Search for auth pattern after method start *)
      let remaining_content := skipn method_start content in
      match search auth_pattern remaining_content with
      | Some (auth_start_in_remaining, auth_end_in_remaining, g) =>
          (* Calculate actual position in full content *)
          let auth_start := method_start + auth_start_in_remaining in
          let auth_end := method_start + auth_end_in_remaining in
          (* Extract variable names from destructuring *)
          let vars_match := group g 1 in
          firstn auth_start content
            ++ replacement resource_name action vars_match
            ++ skipn auth_end content
      | None => content
      end
  end.

(** Step 2 of [process_file]: the loop over [METHOD_TO_ACTION.items()]. *)
Fixpoint replace_methods (table : list (str * str)) (resource_name content : str) : str :=
  match table with
  | [] => content
  | (method, action) :: rest =>
      replace_methods rest resource_name
        (if Py.contains ("export async function " ++ method ++ "(") content
         then replace_auth_in_method content method resource_name action
         else content)
  end.

(** Steps 1 and 2 of [process_file]. *)
Definition transform (content resource_name : str) : str :=
  (* Step 1: Replace or add import *)
  let content :=
    if should_replace_tenant content then replace_import content
    else add_import content in
  (* Step 2: Find all HTTP methods in the file and replace their auth *)
  replace_methods METHOD_TO_ACTION resource_name content.

Definition process_file (file_path resource_name : str) : M bool :=
  print (Processing file_path) ;;;
  try_except
    (content <- read_file file_path ;;
     let original_content := content in
     let content := transform content resource_name in
     (* Only write if content changed *)
     if negb (str_eqb content original_content) then
       write_file file_path content ;;;
       print (Updated file_path) ;;;
       ret true
     else
       print (NoChanges file_path) ;;;
       ret false)
    (fun e => print (Failed file_path e) ;;; ret false).

Record counts : Type := mkCounts { processed : nat; updated : nat; skipped : nat }.

(** The loop of [main] over the route files the directory scan found. *)
Fixpoint main_loop (route_files : list str) (c : counts) : M counts :=
  match route_files with
  | [] => ret c
  | route_file :: rest =>
      (* Determine resource *)
      match get_resource_from_path route_file with
      | None =>
          print (Skipping route_file) ;;;
          main_loop rest (mkCounts (processed c) (updated c) (skipped c + 1))
      | Some resource =>
          (* Process the file *)
          changed <- process_file route_file resource ;;
          main_loop rest
            (mkCounts (processed c + 1)
                      (if changed then updated c + 1 else updated c)
                      (skipped c))
      end
  end.

Definition main (route_files : list str) : M counts :=
  main_loop route_files (mkCounts 0 0 0).

End ApplyRbac.

(* ================================================================== *)
(** * fix-all-methods.py *)

Module FixAllMethods.
Import Re.

(** Files and their resources; the route files found below the reports
    directory are appended to this list when the script starts. *)
Definition FILES_AND_RESOURCES : list (str * str) :=
  [ ("src/app/api/users/route.ts", "users");
    ("src/app/api/users/[id]/route.ts", "users");
    ("src/app/api/invoices/payable/route.ts", "invoices");
    ("src/app/api/invoices/receivable/route.ts", "invoices");
    ("src/app/api/invoices/payable/[id]/route.ts", "invoices");
    ("src/app/api/invoices/receivable/[id]/route.ts", "invoices");
    ("src/app/api/invoices/payable/[id]/payment/route.ts", "invoices");
    ("src/app/api/invoices/receivable/[id]/payment/route.ts", "invoices");
    ("src/app/api/providers/route.ts", "providers");
    ("src/app/api/providers/[id]/route.ts", "providers");
    ("src/app/api/hotels/route.ts", "providers");
    ("src/app/api/hotels/[id]/route.ts", "providers");
    ("src/app/api/guides/route.ts", "providers");
    ("src/app/api/guides/[id]/route.ts", "providers");
    ("src/app/api/vehicles/route.ts", "providers");
    ("src/app/api/vehicles/[id]/route.ts", "providers");
    ("src/app/api/restaurants/route.ts", "providers");
    ("src/app/api/transfers/route.ts", "providers");
    ("src/app/api/entrance-fees/route.ts", "providers");
    ("src/app/api/suppliers/search/route.ts", "providers");
    ("src/app/api/requests/route.ts", "requests");
    ("src/app/api/requests/[id]/route.ts", "requests");
    ("src/app/api/finance/summary/route.ts", "finance");
    ("src/app/api/finance/customers/route.ts", "finance");
    ("src/app/api/finance/suppliers/route.ts", "finance");
    ("src/app/api/dashboard/stats/route.ts", "dashboard");
    ("src/app/api/dashboard/recent-requests/route.ts", "dashboard");
    ("src/app/api/dashboard/upcoming-tours/route.ts", "dashboard");
    ("src/app/api/admin/cleanup-tours/route.ts", "admin");
    ("src/app/api/admin/migrate-providers/route.ts", "admin");
    ("src/app/api/admin/check-schema/route.ts", "admin") ].

(** Method to action mapping, in the order the dict iterates. *)
Definition METHOD_ACTIONS : list (str * str) :=
  [ ("GET", "read"); ("POST", "create"); ("PUT", "update");
    ("PATCH", "update"); ("DELETE", "delete") ].

Definition quotes : str := "'" ++ [dquote].

(** The pattern of [fix_method_in_content]: as group 1 the declaration of
    the method, as few characters as possible (any character, new lines
    too) and [requirePermission(request,] with the opening quote; the
    resource; as group 2 the quote, the comma and the next quote; as
    group 3 the action, a word; as group 4 the closing quote. *)
Definition method_pattern (method resource : str) : regex :=
  cat [Grp 1 (cat [lit "export"; plus ws; lit "async"; plus ws; lit "function"; plus ws;
                   lit method; star ws; lit "("; star (nset ")"); lit ")"; star ws;
                   lit "{"; lazy_star any; lit "requirePermission(request,"; star ws;
                   set quotes]);
       lit resource;
       Grp 2 (cat [set quotes; lit ","; star ws; set quotes]);
       Grp 3 (plus wd);
       Grp 4 (set quotes)].

Definition replacer (correct_action resource m : str) (g : caps) : str :=
  let current_action := group g 3 in
  if negb (str_eqb current_action correct_action)
  then group g 1 ++ resource ++ group g 2 ++ correct_action ++ group g 4
  else m.

Definition fix_method_in_content (content method correct_action resource : str) : str :=
  sub (method_pattern method resource) (replacer correct_action resource) 1 content.

(** The loop of [process_file] over [METHOD_ACTIONS.items()]: the content
    and [changes_made]. *)
Fixpoint fix_methods (table : list (str * str)) (resource content : str)
    (changes_made : bool) : str * bool :=
  match table with
  | [] => (content, changes_made)
  | (method, action) :: rest =>
      if Py.contains ("export async function " ++ method ++ "(") content then
        let new_content := fix_method_in_content content method action resource in
        if negb (str_eqb new_content content)
        then fix_methods rest resource new_content true
        else fix_methods rest resource content changes_made
      else fix_methods rest resource content changes_made
  end.

Definition process_file (file_path resource : str) : M bool :=
  present <- pathlib_exists file_path ;;
  if negb present then
    print (NotFound file_path) ;;; ret false
  else
    try_except
      (content <- read_file file_path ;;
       (* Skip if no requirePermission *)
       if negb (Py.contains "requirePermission" content) then ret false
       else
         let '(content, changes_made) := fix_methods METHOD_ACTIONS resource content false in
         (* Write back if changed *)
         if changes_made then
           write_file file_path content ;;;
           print (Updated file_path) ;;;
           ret true
         else
           print (NoChanges file_path) ;;;
           ret false)
      (fun e => print (Failed file_path e) ;;; ret false).

(** The loop of [main]; the result is [fixed]. *)
Fixpoint main_loop (files_and_resources : list (str * str)) (fixed : nat) : M nat :=
  match files_and_resources with
  | [] => ret fixed
  | (file_path, resource) :: rest =>
      changed <- process_file file_path resource ;;
      main_loop rest (if changed then fixed + 1 else fixed)
  end.

(** [report_files] stands for the route files found below the reports
    directory. *)
Definition main (report_files : list str) : M nat :=
  main_loop (FILES_AND_RESOURCES ++ map (fun f => (f, "reports")) report_files) 0.

End FixAllMethods.

(* ================================================================== *)
(** * Effects of a file task, sample worlds and sample texts *)

(** A task left the files and the record of writes as they were. *)
Definition untouched (w w' : world) : Prop :=
  files w' = files w /\ writes w' = writes w.

(** A task made exactly one write: [out], whole, on [p]. *)
Definition replaced (p out : str) (w w' : world) : Prop :=
  exists f, files w p = Some f /\
            files w' = store (files w) p (mkFile (readable f) true out) /\
            writes w' = writes w ++ [(p, out)].

Definition guides_route : str := "src/app/api/guides/route.ts".

Definition guides_config : ApplyPhase1Standards.file_config :=
  ApplyPhase1Standards.mkConfig guides_route "guide" "PROVIDER"
    ApplyPhase1Standards.provider_actions.

(** A world with a single file. *)
Definition one_file (p : str) (f : file) : world :=
  mkWorld (fun q => if str_eqb q p then Some f else None) [] [] [] (fun _ => false).

Definition legacy_page : file :=
  mkFile true true "const page = parsePaginationParams(searchParams);".

Definition half_migrated : str :=
"import { getRequestId } from '@/middleware/correlation';
export async function GET(request: NextRequest) {
  return buildPagedResponse(rows, total, page, pageSize);
}
".


(** The path a printed line is about. *)
Definition line_path (l : line) : str :=
  match l with
  | Processing p | Updated p | NoChanges p | AlreadyDone p
  | NotFound p | Skipping p | Failed p _ => p
  end.

(** What a run from [w] to [w'] added to the console, to the record of
    writes and to the record of reads. *)
Definition run_added (w w' : world) (lines : list line) (ws : list (str * str))
    (rs : list str) : Prop :=
  console w' = console w ++ lines /\
  writes w' = writes w ++ ws /\
  reads w' = reads w ++ rs.

Definition hotel_route : str := "src/app/api/hotels/[id]/route.ts".

(** A handler that passes an expression, not a quoted text, to the legacy
    error constructor. *)
Definition unquoted_error : file :=
  mkFile true true
"export async function GET(request: NextRequest) {
  try {
    return NextResponse.json(await load());
  } catch (error: any) {
    return errorResponse(internalServerErrorProblem(error.message));
  }
}
".

(** The first two files of [FILES_TO_UPDATE], nothing else. *)
Definition two_files : world :=
  mkWorld (fun q => if str_eqb q hotel_route then Some unquoted_error
                    else if str_eqb q guides_route then Some legacy_page
                    else None)
          [] [] [] (fun _ => false).

(** A handler that has not been touched yet. *)
Definition plain_get : str :=
"export async function GET(request: NextRequest) {
  const { tenantId, user } = authResult;
  return NextResponse.json(rows);
}
".

(** A public [GET] followed by a [POST] that authenticates the tenant. *)
Definition public_get_then_post : str :=
"import { requireTenant } from '@/middleware/tenancy';

export async function GET(request: NextRequest) {
  return NextResponse.json({ ok: true });
}

export async function POST(request: NextRequest) {
  const tenantResult = await requireTenant(request);
  if ('error' in tenantResult) {
    return errorResponse(tenantResult.error);
  }
  const { tenantId, user } = tenantResult;
  return NextResponse.json({ ok: true });
}
".

(** A file that already imports one of the correlation helpers. *)
Definition partial_imports : str :=
"import { NextRequest, NextResponse } from 'next/server';
import { getRequestId } from '@/middleware/correlation';
import { globalRateLimitTracker } from '@/middleware/rateLimit';
import { standardErrorResponse } from '@/lib/response';

export async function GET(request: NextRequest) {
  return NextResponse.json({ ok: true });
}
".

(** A handler that already checks the rate. *)
Definition rate_checked : str :=
"export async function GET(request: NextRequest) {
  const { tenantId, user } = authResult;
  const rateLimit = globalRateLimitTracker.trackRequest(`user_${user.userId}`, 100, 3600);
  return NextResponse.json(rows);
}
".

(* ================================================================== *)
(** * Notions used to state facts about matching *)

(** Whether a line starts after the text [a], given whether one started
    before it. *)
Fixpoint eol (bol : bool) (a : str) : bool :=
  match a with
  | [] => bol
  | c :: a' => eol (is_nl c) a'
  end.

(** The text [s] is empty or starts with a character outside the class. *)
Definition stops (p : ascii -> bool) (s : str) : bool :=
  match s with
  | [] => true
  | c :: _ => negb (p c)
  end.

(** What a greedy repetition of a class does on a stretch [a] of the
    class followed by [s]: it takes all of [a], and gives characters back
    one at a time while the continuation fails. *)
Fixpoint greedy_back (R : Type) (k : bool -> str -> Re.caps -> option R)
    (g : Re.caps) (a : str) (bol : bool) (s : str) : option R :=
  match a with
  | [] => k bol s g
  | c :: a' =>
      match greedy_back k g a' (is_nl c) s with
      | Some v => Some v
      | None => k bol (a ++ s) g
      end
  end.

(** No proper, non-empty suffix of [l] starts [x]. *)
Definition no_border (l x : str) : bool :=
  forallb (fun j => negb (Py.startswith (skipn j l) x)) (seq 1 (length l - 1)).

(** [l] could start at the head of [t ++ y] for some [y]. *)
Definition may_start (l t : str) : bool :=
  if length l <=? length t then Py.startswith l t else Py.startswith t l.

(** [l] cannot start at any position inside [mid], whatever follows. *)
Definition no_start (l mid : str) : bool :=
  forallb (fun j => negb (may_start l (skipn j mid))) (seq 0 (length mid)).

(** The pattern [r] matches only where the text starts with [l]. *)
Definition heads (l : str) (r : Re.regex) : Prop :=
  forall b s, Py.startswith l s = false -> Re.match_at r b s = None.













(** The longest stretch of a class at the head of a text, and what
    follows it. *)
Fixpoint take_while (p : ascii -> bool) (t : str) : str :=
  match t with
  | [] => []
  | c :: t' => if p c then c :: take_while p t' else []
  end.

Fixpoint drop_while (p : ascii -> bool) (t : str) : str :=
  match t with
  | [] => []
  | c :: t' => if p c then drop_while p t' else t
  end.

Definition not_closing (c : ascii) : bool := negb (one_of ")" c).

(** A scanner for the opening of a handler, [export async function M (
    parameters ) {]: what is left of [t] after the opening, if [t] starts
    with one.  The pattern of [update_method_handler] is shown below to
    match exactly when the scanner succeeds. *)
Definition after_opening (m t : str) : option str :=
  let name := "export async function " ++ m in
  if Py.startswith name t then
    match drop_while is_space (skipn (length name) t) with
    | c1 :: t2 =>
        if Ascii.eqb c1 "(" then
          match t2 with
          | c :: t3 =>
              if not_closing c then
                match drop_while not_closing t3 with
                | _ :: t5 =>
                    match drop_while is_space t5 with
                    | c6 :: t7 => if Ascii.eqb c6 "{" then Some t7 else None
                    | [] => None
                    end
                | [] => None
                end
              else None
          | [] => None
          end
        else None
    | [] => None
    end
  else None.

(** [f] does not look beyond [w]: on [w ++ z] it fails for every [z], or
    it leaves a text that ends with [z] for every [z]. *)
Definition uniform (f : str -> option str) (w : str) : Prop :=
  (forall z, f (w ++ z) = None) \/ (exists d, forall z, f (w ++ z) = Some (d ++ z)).

(** No proper, non-empty suffix of [x] could start a text that starts
    with [new]. *)
Definition no_tail_start (x new : str) : bool :=
  forallb (fun k => negb (may_start (skipn k x) new)) (seq 1 (length x - 1)).

(** The legacy internal-error call, with any argument. *)
Definition legacy_internal_error (arg : str) : str :=
  "errorResponse(internalServerErrorProblem(" ++ arg ++ "))".

(** A character that neither closes the argument list nor opens a quoted
    text. *)
Definition plain_char (c : ascii) : bool := negb (one_of ")'" c).

(** [os.path.exists] as a function of the world, and the number of paths
    of a list that name no file. *)
Definition present (w : world) (p : str) : bool :=
  match files w p with
  | Some _ => true
  | None => false
  end.

Definition missing (w : world) (paths : list str) : nat :=
  length (filter (fun p => negb (present w p)) paths).

(** The text before the first occurrence of [sep], the whole text when
    there is none. *)
Fixpoint before (sep s : str) : str :=
  match s with
  | [] => []
  | c :: s' => if Py.startswith sep s then [] else c :: before sep s'
  end.

Definition not_slash (c : ascii) : bool := negb (Ascii.eqb "/" c).

(** The pattern [r] matches only in a text that holds [x]. *)
Definition needs (x : str) (r : Re.regex) : Prop :=
  forall (R : Type) bol s g (k : bool -> str -> Re.caps -> option R) v,
    Re.rx r bol s g k = Some v -> Py.contains x s = true.

(** The first way [r] has to match at the head of [a ++ s] takes [a]: when
    the continuation accepts what is left, with the line state [bol'] and
    the groups [g'], that is the result. *)
Definition takes (r : Re.regex) (bol : bool) (a s : str) (g : Re.caps)
    (bol' : bool) (g' : Re.caps) : Prop :=
  forall (R : Type) (k : bool -> str -> Re.caps -> option R) (v : R),
    k bol' s g' = Some v -> Re.rx r bol (a ++ s) g k = Some v.

(** The opening of a handler, and the handler up to the action it asks
    [requirePermission] for. *)
Definition handler_opening (method params : str) : str :=
  "export async function " ++ method ++ "(" ++ params ++ ") {".

Definition guard_call (resource action : str) : str :=
  "requirePermission(request, '" ++ resource ++ "', '" ++ action ++ "'".

Definition guarded_handler (method params body resource action : str) : str :=
  handler_opening method params ++ body ++ guard_call resource action.

(** The destructuring of the authentication result, with [user] or
    without. *)
Definition auth_line (with_user : bool) : str :=
  "const { tenantId" ++ (if with_user then ", user" else []) ++ " } = authResult;".

(** An argument without parentheses. *)
Definition no_paren (c : ascii) : bool := negb (one_of "()" c).

(** A single argument: an expression that does not start with a quote, or
    one message between two quotes. *)
Definition single_argument (quotes arg : str) : Prop :=
  stops (one_of quotes) arg = true \/
  exists q1 q2 msg,
    arg = q1 :: msg ++ [q2] /\ one_of quotes q1 = true /\ one_of quotes q2 = true /\
    msg <> [] /\ forallb (fun c => negb (one_of quotes c)) msg = true.

(** What update-phase1-endpoints puts in the place of a legacy internal
    error with a single argument. *)
Definition generic_internal_error : str :=
  "standardErrorResponse(ErrorCodes.INTERNAL_ERROR, 'An unexpected error occurred', 500, undefined, requestId)".

(** What migrate-endpoints puts in the place of a returned legacy
    internal error, for a message. *)
Definition migrated_internal_error (message : str) : str :=
  "return standardErrorResponse(
      ErrorCodes.INTERNAL_ERROR,
      " ++ message ++ ",
      500,
      undefined,
      requestId
    )".

(** The characters [[^{]] and [[^}]] of the pattern of
    [add_logging_to_catch]. *)
Definition no_open_brace (c : ascii) : bool := negb (one_of "{" c).
Definition no_close_brace (c : ascii) : bool := negb (one_of "}" c).

(** [Path.exists] raises on none of the paths. *)
Definition stat_clear (w : world) (paths : list str) : bool :=
  forallb (fun p => present w p || negb (stat_error w p)) paths.





(* ================================================================== *)
(** * Facts about text *)

Unset Implicit Arguments.

Ltac splits := repeat match goal with |- _ /\ _ => split end.

Lemma str_eqb_eq (a b : str) : str_eqb a b = true <-> a = b.
Proof.
  unfold str_eqb. destruct (list_eq_dec ascii_dec a b); split; congruence.
Qed.

Lemma str_eqb_refl (a : str) : str_eqb a a = true.
Proof. now apply str_eqb_eq. Qed.

Lemma str_eqb_neq (a b : str) : str_eqb a b = false <-> a <> b.
Proof.
  unfold str_eqb. destruct (list_eq_dec ascii_dec a b); split; congruence.
Qed.

Lemma startswith_app (p s : str) : Py.startswith p (p ++ s) = true.
Proof.
  induction p as [|a p IH]; simpl; [reflexivity|].
  now rewrite Ascii.eqb_refl, IH.
Qed.

Lemma startswith_inv (p s : str) :
  Py.startswith p s = true -> exists t, s = p ++ t.
Proof.
  revert s. induction p as [|a p IH]; intros s H.
  - now exists s.
  - destruct s as [|b s]; simpl in H; [discriminate|].
    apply andb_true_iff in H. destruct H as [E H].
    apply Ascii.eqb_eq in E. subst b.
    destruct (IH s H) as [t ->]. now exists t.
Qed.

Lemma startswith_contains (x s : str) :
  Py.startswith x s = true -> Py.contains x s = true.
Proof.
  intros H. destruct s; simpl in *; rewrite H; reflexivity.
Qed.

Lemma startswith_trans (l0 l s : str) :
  Py.startswith l0 l = true -> Py.startswith l s = true -> Py.startswith l0 s = true.
Proof.
  intros H0 H. destruct (startswith_inv _ _ H0) as [t ->].
  destruct (startswith_inv _ _ H) as [u ->].
  rewrite <- app_assoc. apply startswith_app.
Qed.

Lemma startswith_nil_r (l : str) : Py.startswith l [] = true -> l = [].
Proof. destruct l; simpl; congruence. Qed.

Lemma startswith_app_long (l u v : str) :
  length l <= length u -> Py.startswith l (u ++ v) = Py.startswith l u.
Proof.
  revert u. induction l as [|a l IH]; intros u H; [reflexivity|].
  destruct u as [|b u]; simpl in *; [lia|].
  rewrite IH by lia. reflexivity.
Qed.

Lemma startswith_app_short (l u v : str) :
  length u <= length l ->
  Py.startswith l (u ++ v) = Py.startswith u l && Py.startswith (skipn (length u) l) v.
Proof.
  revert l. induction u as [|b u IH]; intros l H; [reflexivity|].
  destruct l as [|a l]; simpl in *; [lia|].
  rewrite IH by lia. rewrite (Ascii.eqb_sym a b). now rewrite andb_assoc.
Qed.

Lemma startswith_app_l (a b t : str) :
  Py.startswith (a ++ b) t = Py.startswith a t && Py.startswith b (skipn (length a) t).
Proof.
  revert t. induction a as [|x a IH]; intros t; [reflexivity|].
  destruct t as [|c t]; [reflexivity|]. cbn [app Py.startswith length skipn].
  now rewrite IH, andb_assoc.
Qed.

Lemma contains_cons (x : str) (c : ascii) (s : str) :
  Py.contains x s = true -> Py.contains x (c :: s) = true.
Proof.
  intros H. simpl. rewrite H. apply orb_true_r.
Qed.

Lemma contains_app_l (x u s : str) :
  Py.contains x s = true -> Py.contains x (u ++ s) = true.
Proof.
  intros H. induction u as [|c u IH]; [exact H|].
  now apply contains_cons.
Qed.

Lemma contains_app_r (x a y : str) :
  Py.contains x a = true -> Py.contains x (a ++ y) = true.
Proof.
  induction a as [|c a IH]; intros H.
  - destruct x; [destruct y; reflexivity|discriminate].
  - cbn [Py.contains] in H. apply orb_true_iff in H. destruct H as [H|H].
    + apply startswith_contains.
      destruct (startswith_inv _ _ H) as [t ->].
      rewrite <- app_assoc. apply startswith_app.
    + cbn [app]. apply contains_cons. now apply IH.
Qed.

Lemma contains_false_head (l s : str) :
  Py.contains l s = false -> Py.startswith l s = false.
Proof.
  destruct s; simpl; intros H; apply orb_false_iff in H; tauto.
Qed.

Lemma contains_false_skipn (l s : str) (i : nat) :
  Py.contains l s = false -> Py.contains l (skipn i s) = false.
Proof.
  revert s. induction i as [|i IH]; intros s H; [exact H|].
  destruct s as [|c s]; [exact H|].
  simpl. apply IH. simpl in H. apply orb_false_iff in H. tauto.
Qed.

Lemma contains_false_at (l s : str) (i : nat) :
  Py.contains l s = false -> Py.startswith l (skipn i s) = false.
Proof.
  intros H. apply contains_false_head. now apply contains_false_skipn.
Qed.

Lemma find_Some_startswith (l s : str) (n : nat) :
  Py.find l s = Some n -> Py.startswith l (skipn n s) = true.
Proof.
  revert n. induction s as [|c s IH]; intros n H; simpl in H.
  - destruct (Py.startswith l []) eqn:E; [|discriminate].
    injection H as <-. exact E.
  - destruct (Py.startswith l (c :: s)) eqn:E.
    + injection H as <-. exact E.
    + destruct (Py.find l s) as [m|] eqn:F; [|discriminate].
      injection H as <-. simpl. now apply IH.
Qed.

Lemma skipn_app_lt (A : Type) (i : nat) (u v : list A) :
  i <= length u -> skipn i (u ++ v) = skipn i u ++ v.
Proof.
  intros H. rewrite skipn_app. replace (i - length u) with 0 by lia. reflexivity.
Qed.

Lemma firstn_two (u a p : str) :
  firstn (length u + length a) (u ++ a ++ p) = u ++ a.
Proof.
  rewrite <- length_app, app_assoc, firstn_app, Nat.sub_diag, firstn_all.
  cbn [firstn]. apply app_nil_r.
Qed.

Lemma skipn_two (u a p : str) :
  skipn (length u + length a) (u ++ a ++ p) = p.
Proof.
  rewrite <- length_app, app_assoc, skipn_app, Nat.sub_diag, skipn_all.
  reflexivity.
Qed.

Lemma In_skipn (A : Type) (x : A) (i : nat) (t : list A) : In x (skipn i t) -> In x t.
Proof.
  revert t. induction i as [|i IH]; intros t H; [exact H|].
  destruct t; [exact H|]. right. now apply IH.
Qed.

Lemma forallb_seq (f : nat -> bool) (a n j : nat) :
  forallb f (seq a n) = true -> a <= j < a + n -> f j = true.
Proof.
  intros H Hj. rewrite forallb_forall in H. apply H. apply in_seq. lia.
Qed.

Lemma eol_app (bol : bool) (a b : str) : eol bol (a ++ b) = eol (eol bol a) b.
Proof. revert bol. induction a; intros; simpl; auto. Qed.

Lemma take_drop (p : ascii -> bool) (t : str) : take_while p t ++ drop_while p t = t.
Proof. induction t as [|c t IH]; simpl; [reflexivity|]. destruct (p c); simpl; congruence. Qed.

Lemma take_while_all (p : ascii -> bool) (t : str) : forallb p (take_while p t) = true.
Proof. induction t as [|c t IH]; simpl; [reflexivity|]. destruct (p c) eqn:E; simpl; [now rewrite E|reflexivity]. Qed.

Lemma drop_while_stops (p : ascii -> bool) (t : str) : stops p (drop_while p t) = true.
Proof. induction t as [|c t IH]; simpl; [reflexivity|]. destruct (p c) eqn:E; simpl; [exact IH|now rewrite E]. Qed.

Lemma drop_while_app_stop (p : ascii -> bool) (a : str) (x : ascii) (b : str) :
  p x = false -> drop_while p (a ++ x :: b) = drop_while p a ++ x :: b.
Proof.
  intros Hx. induction a as [|c a IH]; cbn [app drop_while].
  - now rewrite Hx.
  - destruct (p c); [exact IH|reflexivity].
Qed.

Lemma drop_while_all (p : ascii -> bool) (a : str) :
  forallb p a = true -> drop_while p a = [].
Proof.
  induction a as [|c a IH]; [reflexivity|]. cbn [forallb drop_while].
  intros H. apply andb_true_iff in H. destruct H as [-> H]. auto.
Qed.

Lemma space_not (c x : ascii) : is_space c = true -> is_space x = false -> Ascii.eqb x c = false.
Proof.
  intros Hc Hx. destruct (Ascii.eqb x c) eqn:E; [|reflexivity].
  apply Ascii.eqb_eq in E. subst. congruence.
Qed.

Lemma free_of (chars : str) (x : ascii) (t : str) :
  forallb (fun c => negb (one_of chars c)) t = true ->
  one_of chars x = true -> ~ In x t.
Proof.
  intros H Hx Hin. rewrite forallb_forall in H. specialize (H x Hin).
  now rewrite Hx in H.
Qed.

(* ================================================================== *)
(** * Facts about occurrences *)

(** A literal that does not occur in [u], and none of whose proper
    suffixes starts [x], does not start anywhere in [u] when [x]
    follows. *)
Lemma clear_before (l u x y : str) :
  Py.contains l u = false ->
  no_border l x = true ->
  length l <= S (length x) ->
  forall i, i < length u -> Py.startswith l (skipn i u ++ x ++ y) = false.
Proof.
  intros Hc Hb Hlen i Hi.
  destruct (le_lt_dec (length l) (length (skipn i u))) as [Hl|Hl].
  - rewrite startswith_app_long by exact Hl. now apply contains_false_at.
  - rewrite startswith_app_short by lia.
    apply andb_false_iff. right.
    assert (Hn : 0 < length (skipn i u)) by (rewrite length_skipn; lia).
    rewrite startswith_app_long by (rewrite length_skipn; lia).
    unfold no_border in Hb.
    apply (forallb_seq _ 1 (length l - 1) (length (skipn i u))) in Hb; [|lia].
    now apply negb_true_iff in Hb.
Qed.

(** A literal that cannot start inside [mid] does not start at any of its
    positions, whatever follows. *)
Lemma clear_inside (l mid y : str) :
  no_start l mid = true ->
  forall j, j < length mid -> Py.startswith l (skipn j mid ++ y) = false.
Proof.
  intros Hs j Hj. unfold no_start in Hs.
  apply (forallb_seq _ 0 (length mid) j) in Hs; [|lia].
  apply negb_true_iff in Hs. unfold may_start in Hs.
  destruct (length l <=? length (skipn j mid)) eqn:E.
  - apply Nat.leb_le in E. now rewrite startswith_app_long.
  - apply Nat.leb_gt in E. rewrite startswith_app_short by lia.
    now rewrite Hs.
Qed.

(** A literal that holds the character [o] cannot start in a text without
    [o] that is followed by a character the literal does not hold. *)
Lemma startswith_free (l t y : str) (o c : ascii) :
  In o l -> ~ In o t -> ~ In c l -> Py.startswith l (t ++ c :: y) = false.
Proof.
  revert t. induction l as [|a l IH]; intros t Ho Ht Hc; [contradiction|].
  destruct t as [|b t]; cbn [app Py.startswith].
  - destruct (Ascii.eqb a c) eqn:E; [|reflexivity].
    apply Ascii.eqb_eq in E. subst. elim Hc. now left.
  - destruct (Ascii.eqb a b) eqn:E; [|reflexivity].
    apply Ascii.eqb_eq in E. subst b. cbn [andb]. apply IH.
    + destruct Ho as [->|Ho]; [|exact Ho]. elim Ht. now left.
    + intros H. apply Ht. now right.
    + intros H. apply Hc. now right.
Qed.

(** A name without closing parenthesis starts a text that has one only
    if it lies before the parenthesis. *)
Lemma startswith_before (name a b : str) :
  forallb not_closing name = true ->
  Py.startswith name (a ++ ")"%char :: b)
  = (length name <=? length a) && Py.startswith name a.
Proof.
  intros Hn. destruct (length name <=? length a) eqn:E.
  - apply Nat.leb_le in E. now rewrite startswith_app_long.
  - apply Nat.leb_gt in E. cbn [andb].
    rewrite startswith_app_short by lia.
    apply andb_false_iff. right.
    assert (Hin : forall c, In c (skipn (length a) name) -> not_closing c = true).
    { intros c Hc. rewrite forallb_forall in Hn. apply Hn. eapply In_skipn, Hc. }
    destruct (skipn (length a) name) as [|c rest] eqn:Es.
    + apply (f_equal (@length ascii)) in Es. rewrite length_skipn in Es. simpl in Es. lia.
    + cbn [Py.startswith]. specialize (Hin c (or_introl eq_refl)).
      unfold not_closing in Hin. cbn [one_of] in Hin. rewrite orb_false_r in Hin.
      apply negb_true_iff in Hin. now rewrite Hin.
Qed.

(* ================================================================== *)
(** * Facts about [str.replace] *)

Lemma replace_go_skip (old new m rest : str) :
  Py.replace_go old new (length m) (m ++ rest) = Py.replace_go old new 0 rest.
Proof.
  induction m as [|c m IH]; [reflexivity|]. simpl. exact IH.
Qed.

Lemma replace_go_hit (old new t : str) :
  old <> [] ->
  Py.replace_go old new 0 (old ++ t) = new ++ Py.replace_go old new 0 t.
Proof.
  intros Hne. destruct old as [|o old]; [congruence|].
  cbn [app Py.replace_go].
  change (o :: old ++ t) with ((o :: old) ++ t). rewrite startswith_app.
  replace (length (o :: old) - 1) with (length old) by (simpl; lia).
  now rewrite replace_go_skip.
Qed.

Lemma replace_go_miss (old new : str) (c : ascii) (s : str) :
  Py.startswith old (c :: s) = false ->
  Py.replace_go old new 0 (c :: s) = c :: Py.replace_go old new 0 s.
Proof. intros H. cbn [Py.replace_go]. now rewrite H. Qed.


Lemma replace_absent (old new s : str) :
  old <> [] -> Py.contains old s = false -> Py.replace old new s = s.
Proof.
  intros Hne Hc.
  assert (E : Py.replace old new s = Py.replace_go old new 0 s)
    by (destruct old; [congruence|reflexivity]).
  rewrite E. clear E.
  induction s as [|c s IH]; [reflexivity|].
  rewrite replace_go_miss by (now apply contains_false_head).
  f_equal. apply IH. simpl in Hc. apply orb_false_iff in Hc. tauto.
Qed.


(* ================================================================== *)
(** * Facts about the matcher *)

Section Matcher.
Import Re.
Variable R : Type.
Implicit Types (k : bool -> str -> caps -> option R) (g : caps) (s : str).

(** A literal matches exactly where the text starts with it. *)
Lemma rx_lit (l : str) bol s g k :
  rx (lit l) bol s g k =
  if Py.startswith l s then k (eol bol l) (skipn (length l) s) g else None.
Proof.
  revert bol s. induction l as [|a l IH]; intros bol s; [reflexivity|].
  destruct s as [|c s]; [reflexivity|].
  cbn [lit rx Py.startswith eol length skipn].
  rewrite (Ascii.eqb_sym a c).
  destruct (Ascii.eqb c a) eqn:E; [|reflexivity].
  apply Ascii.eqb_eq in E. subst c. cbn [andb]. apply IH.
Qed.

Lemma rx_lit_app (l : str) bol s g k :
  rx (lit l) bol (l ++ s) g k = k (eol bol l) s g.
Proof.
  rewrite rx_lit, startswith_app, skipn_app, skipn_all, Nat.sub_diag. reflexivity.
Qed.

Lemma rx_seq_lit_fail (l : str) (r : regex) bol s g k :
  Py.startswith l s = false -> rx (Seq (lit l) r) bol s g k = None.
Proof.
  intros H. cbn [rx]. now rewrite rx_lit, H.
Qed.

(** A greedy repetition of a class on a stretch of the class. *)
Lemma rep_cls_back (p : ascii -> bool) k g (a : str) :
  forall n bol s,
    forallb p a = true -> stops p s = true -> length (a ++ s) <= n ->
    rep_loop (fun bol' s' g' k' => rx (Cls p) bol' s' g' k') true k n bol (a ++ s) g
    = greedy_back k g a bol s.
Proof.
  induction a as [|c a IH]; intros n bol s Ha Hs Hn.
  - cbn [app greedy_back]. destruct n as [|n]; [reflexivity|].
    cbn [rep_loop rx]. destruct s as [|c s]; [reflexivity|].
    simpl in Hs. apply negb_true_iff in Hs. now rewrite Hs.
  - simpl in Ha. apply andb_true_iff in Ha. destruct Ha as [Hc Ha].
    destruct n as [|n]; [simpl in Hn; lia|].
    cbn [rep_loop rx app greedy_back]. rewrite Hc.
    replace (length (a ++ s) <? length (c :: a ++ s)) with true
      by (symmetry; apply Nat.ltb_lt; simpl; lia).
    rewrite IH; auto; [|simpl in Hn; lia].
    destruct (greedy_back k g a (is_nl c) s); reflexivity.
Qed.

Lemma greedy_back_all (k : bool -> str -> caps -> option R) g (a : str) (v : R) :
  forall bol s, k (eol bol a) s g = Some v -> greedy_back k g a bol s = Some v.
Proof.
  induction a as [|c a IH]; intros bol s H; [exact H|].
  cbn [greedy_back]. now rewrite (IH (is_nl c) s H).
Qed.

Lemma rx_star_cls (p : ascii -> bool) (a : str) bol s g k :
  forallb p a = true -> stops p s = true ->
  rx (star (Cls p)) bol (a ++ s) g k = greedy_back k g a bol s.
Proof.
  intros Ha Hs. unfold star. cbn [rx]. now apply rep_cls_back.
Qed.

Lemma rx_plus_cls (p : ascii -> bool) (c : ascii) (a : str) bol s g k :
  forallb p (c :: a) = true -> stops p s = true ->
  rx (plus (Cls p)) bol ((c :: a) ++ s) g k = greedy_back k g a (is_nl c) s.
Proof.
  intros Ha Hs. simpl in Ha. apply andb_true_iff in Ha. destruct Ha as [Hc Ha].
  unfold plus. cbn [rx app]. rewrite Hc. now apply rep_cls_back.
Qed.

(** The successful case: the continuation accepts what is left after the
    whole stretch. *)
Lemma rx_star_cls_all (p : ascii -> bool) (a : str) bol s g k (v : R) :
  forallb p a = true -> stops p s = true ->
  k (eol bol a) s g = Some v ->
  rx (star (Cls p)) bol (a ++ s) g k = Some v.
Proof.
  intros Ha Hs Hk. rewrite rx_star_cls by assumption. now apply greedy_back_all.
Qed.

Lemma rx_plus_cls_all (p : ascii -> bool) (a : str) bol s g k (v : R) :
  a <> [] -> forallb p a = true -> stops p s = true ->
  k (eol bol a) s g = Some v ->
  rx (plus (Cls p)) bol (a ++ s) g k = Some v.
Proof.
  intros Hne Ha Hs Hk. destruct a as [|c a]; [congruence|].
  rewrite rx_plus_cls by assumption. now apply greedy_back_all.
Qed.

Lemma rx_cat_cons (r : regex) (rs : list regex) bol s g k :
  rx (cat (r :: rs)) bol s g k
  = rx r bol s g (fun bol' s' g' => rx (cat rs) bol' s' g' k).
Proof. reflexivity. Qed.

Lemma rx_cat_nil bol s g k : rx (cat []) bol s g k = k bol s g.
Proof. reflexivity. Qed.

Lemma rx_cls_app (p : ascii -> bool) (c : ascii) bol s g k :
  p c = true -> rx (Cls p) bol ([c] ++ s) g k = k (is_nl c) s g.
Proof. intros H. cbn [rx app]. now rewrite H. Qed.

Lemma rx_opt_take (r : regex) bol s g k (v : R) :
  rx r bol s g k = Some v -> rx (opt r) bol s g k = Some v.
Proof. intros H. unfold opt. cbn [rx]. now rewrite H. Qed.

Lemma cat_head (l : str) (rs : list regex) : cat (lit l :: rs) = Seq (lit l) (cat rs).
Proof. reflexivity. Qed.

Lemma firstn_app_exact (a s : str) :
  firstn (length (a ++ s) - length s) (a ++ s) = a.
Proof.
  rewrite length_app, Nat.add_sub, firstn_app, Nat.sub_diag, firstn_all.
  simpl. apply app_nil_r.
Qed.

Lemma rx_grp_plus_cls_all (i : nat) (p : ascii -> bool) (a : str) bol s g k (v : R) :
  a <> [] -> forallb p a = true -> stops p s = true ->
  k (eol bol a) s ((i, a) :: g) = Some v ->
  rx (Grp i (plus (Cls p))) bol (a ++ s) g k = Some v.
Proof.
  intros Hne Ha Hs Hk. cbn [rx].
  apply rx_plus_cls_all; auto. now rewrite firstn_app_exact.
Qed.

End Matcher.

Lemma stops_app (p : ascii -> bool) (b s : str) :
  b <> [] -> stops p b = true -> stops p (b ++ s) = true.
Proof. destruct b; [congruence|auto]. Qed.

Section Det.
Import Re.
Variable R : Type.
Variables (p : ascii -> bool) (k : bool -> str -> caps -> option R) (g : caps).
Hypothesis Hk : forall b c t, p c = true -> k b (c :: t) g = None.

Lemma greedy_back_det (a : str) :
  forall bol s, forallb p a = true -> greedy_back k g a bol s = k (eol bol a) s g.
Proof.
  induction a as [|c a IH]; intros bol s Ha; [reflexivity|].
  simpl in Ha. apply andb_true_iff in Ha. destruct Ha as [Hc Ha].
  cbn [greedy_back eol]. rewrite IH by exact Ha.
  destruct (k (eol (is_nl c) a) s g) eqn:E; [reflexivity|].
  cbn [app]. now rewrite Hk.
Qed.

Lemma rx_star_cls_det bol (t : str) :
  rx (star (Cls p)) bol t g k = k (eol bol (take_while p t)) (drop_while p t) g.
Proof.
  rewrite <- (take_drop p t) at 1.
  rewrite rx_star_cls by (apply take_while_all || apply drop_while_stops).
  apply greedy_back_det. apply take_while_all.
Qed.

Lemma rx_plus_cls_det bol (t : str) :
  rx (plus (Cls p)) bol t g k
  = match t with
    | c :: t' => if p c then k (eol (is_nl c) (take_while p t')) (drop_while p t') g else None
    | [] => None
    end.
Proof.
  destruct t as [|c t]; [reflexivity|].
  unfold plus. cbn [rx]. destruct (p c) eqn:E; [|reflexivity].
  apply rx_star_cls_det.
Qed.
End Det.


(* ================================================================== *)
(** * Facts about [re.sub] and [re.search] *)

Section Sub.
Import Re.
Variables (r : regex) (repl : str -> caps -> str).

(** Passing over the rest of a match. *)
Lemma sub_go_skip (lim : option nat) (m rest : str) :
  forall bol, sub_go r repl lim bol (length m) (m ++ rest)
              = sub_go r repl lim (eol bol m) 0 rest.
Proof.
  induction m as [|c m IH]; intros bol; [reflexivity|].
  cbn [length app sub_go eol]. apply IH.
Qed.

(** A match at the head: the replacement, then the scan goes on after
    the match. *)
Lemma sub_go_match (lim : option nat) (bol : bool) (m rest : str) (g : caps) :
  m <> [] -> exhausted lim = false ->
  match_at r bol (m ++ rest) = Some (length m, g) ->
  sub_go r repl lim bol 0 (m ++ rest)
  = repl m g ++ sub_go r repl (spend lim) (eol bol m) 0 rest.
Proof.
  intros Hne Hlim Hm. destruct m as [|c m]; [congruence|].
  assert (Hf : firstn (length (c :: m)) ((c :: m) ++ rest) = c :: m)
    by (rewrite firstn_app, Nat.sub_diag, firstn_all; simpl; now rewrite app_nil_r).
  cbn [app] in *. cbn [sub_go]. rewrite Hlim, Hm, Hf.
  cbn [length eol]. f_equal. apply sub_go_skip.
Qed.

(** No match at the head: the character is copied. *)
Lemma sub_go_copy (lim : option nat) (bol : bool) (c : ascii) (s : str) :
  match_at r bol (c :: s) = None ->
  sub_go r repl lim bol 0 (c :: s) = c :: sub_go r repl lim (is_nl c) 0 s.
Proof.
  intros Hm. cbn [sub_go]. rewrite Hm. now destruct (exhausted lim).
Qed.

(** No match at any position of [u]: [u] is copied. *)
Lemma sub_go_clear (lim : option nat) (u v : str) :
  (forall i b, i < length u -> match_at r b (skipn i u ++ v) = None) ->
  forall bol, sub_go r repl lim bol 0 (u ++ v) = u ++ sub_go r repl lim (eol bol u) 0 v.
Proof.
  induction u as [|c u IH]; intros H bol; [reflexivity|].
  cbn [app]. rewrite sub_go_copy.
  - cbn [eol]. f_equal. apply IH. intros i b Hi. apply (H (S i) b). simpl. lia.
  - apply (H 0 bol). simpl. lia.
Qed.

Lemma sub_go_nil (lim : option nat) (bol : bool) :
  match_at r bol [] = None -> sub_go r repl lim bol 0 [] = [].
Proof.
  intros H. cbn [sub_go]. rewrite H. now destruct (exhausted lim).
Qed.

End Sub.

Lemma heads_seq_lit (l : str) (r : Re.regex) : heads l (Re.Seq (Re.lit l) r).
Proof. intros b s H. unfold Re.match_at. now apply rx_seq_lit_fail. Qed.

Lemma heads_lit (l : str) : heads l (Re.lit l).
Proof. intros b s H. unfold Re.match_at. now rewrite rx_lit, H. Qed.

Lemma heads_cat (l : str) (rs : list Re.regex) : heads l (Re.cat (Re.lit l :: rs)).
Proof. apply heads_seq_lit. Qed.

Lemma heads_shorter (l0 l : str) (r : Re.regex) :
  Py.startswith l0 l = true -> heads l r -> heads l0 r.
Proof.
  intros H0 H b s Hs. apply H.
  destruct (Py.startswith l s) eqn:E; [|reflexivity].
  now rewrite (startswith_trans _ _ _ H0 E) in Hs.
Qed.

Section HeadLiteral.
Import Re.
Variables (l : str) (r : regex) (repl : str -> caps -> str).
Hypothesis Hr : heads l r.

(** A pattern that begins with a literal leaves alone a stretch where the
    literal does not start. *)
Lemma sub_go_head_clear (lim : option nat) (u v : str) :
  (forall i, i < length u -> Py.startswith l (skipn i u ++ v) = false) ->
  forall bol, sub_go r repl lim bol 0 (u ++ v)
              = u ++ sub_go r repl lim (eol bol u) 0 v.
Proof.
  intros H bol. apply sub_go_clear. intros i b Hi. apply Hr. now apply H.
Qed.

(** ... and a text in which the literal does not occur. *)
Lemma sub_go_head_absent (lim : option nat) (s : str) :
  l <> [] -> Py.contains l s = false ->
  forall bol, sub_go r repl lim bol 0 s = s.
Proof.
  intros Hne Hc bol.
  rewrite <- (app_nil_r s) at 1. rewrite sub_go_head_clear.
  - rewrite sub_go_nil; [now rewrite app_nil_r|].
    apply Hr. destruct l; [congruence|reflexivity].
  - intros i Hi. rewrite app_nil_r. now apply contains_false_at.
Qed.


End HeadLiteral.


(** [re.search] of a literal is [str.find]. *)
Lemma search_from_lit (l s : str) :
  forall bol,
    Re.search_from (Re.lit l) bol s
    = match Py.find l s with
      | Some n => Some (n, n + length l, [])
      | None => None
      end.
Proof.
  induction s as [|c s IH]; intros bol.
  - cbn [Re.search_from Py.find]. unfold Re.match_at. rewrite rx_lit.
    destruct (Py.startswith l []) eqn:E; [|reflexivity].
    apply startswith_nil_r in E. subst l. reflexivity.
  - cbn [Re.search_from Py.find]. unfold Re.match_at. rewrite rx_lit.
    destruct (Py.startswith l (c :: s)) eqn:E.
    + destruct (startswith_inv _ _ E) as [t Ht]. rewrite Ht.
      rewrite skipn_app, skipn_all, Nat.sub_diag. cbn [skipn app].
      now rewrite length_app, Nat.add_sub.
    + rewrite IH. destruct (Py.find l s); reflexivity.
Qed.

(** [re.search], read backwards and forwards. *)
Lemma search_from_inv (r : Re.regex) (t : str) :
  forall bol a e g,
    Re.search_from r bol t = Some (a, e, g) ->
    a <= length t /\ a <= e /\
    (exists b, Re.match_at r b (skipn a t) = Some (e - a, g)) /\
    (forall i, i < a -> exists b, Re.match_at r b (skipn i t) = None).
Proof.
  induction t as [|c t IH]; intros bol a e g H; cbn [Re.search_from] in H.
  - destruct (Re.match_at r bol []) as [[n g']|] eqn:E; [|discriminate].
    injection H as <- <- <-. splits; [simpl; lia|lia| |intros i Hi; lia].
    exists bol. now rewrite Nat.sub_0_r.
  - destruct (Re.match_at r bol (c :: t)) as [[n g']|] eqn:E.
    + injection H as <- <- <-. splits; [simpl; lia|lia| |intros i Hi; lia].
      exists bol. now rewrite Nat.sub_0_r.
    + destruct (Re.search_from r (is_nl c) t) as [[[a' e'] g']|] eqn:F; [|discriminate].
      injection H as <- <- <-.
      destruct (IH _ _ _ _ F) as (H1 & H2 & H3 & H4).
      splits; [simpl; lia|lia|exact H3|].
      intros [|i] Hi; [exists bol; exact E|]. apply H4. lia.
Qed.

Lemma search_from_intro (r : Re.regex) (t : str) :
  forall bol a n g,
    a <= length t ->
    (forall i b, i < a -> Re.match_at r b (skipn i t) = None) ->
    (forall b, Re.match_at r b (skipn a t) = Some (n, g)) ->
    Re.search_from r bol t = Some (a, a + n, g).
Proof.
  induction t as [|c t IH]; intros bol a n g Ha Hno Hyes.
  - assert (a = 0) by (simpl in Ha; lia). subst a.
    pose proof (Hyes bol) as Hy. cbn [skipn] in Hy.
    cbn [Re.search_from]. now rewrite Hy.
  - destruct a as [|a].
    + pose proof (Hyes bol) as Hy. cbn [skipn] in Hy.
      cbn [Re.search_from]. now rewrite Hy.
    + pose proof (Hno 0 bol (Nat.lt_0_succ a)) as Hn. cbn [skipn] in Hn.
      cbn [Re.search_from]. rewrite Hn.
      rewrite (IH (is_nl c) a n g); [reflexivity|simpl in Ha; lia| |exact Hyes].
      intros i b Hi. apply (Hno (S i) b). lia.
Qed.

(* ================================================================== *)
(** * A second run (C1) *)

Lemma method_match_eq (m t : str) (b : bool) :
  Re.match_at (UpdatePhase1Endpoints.method_rx m) b t
  = match after_opening m t with
    | Some r => Some (length t - length r, [])
    | None => None
    end.
Proof.
  unfold Re.match_at, UpdatePhase1Endpoints.method_rx, after_opening.
  rewrite rx_cat_cons, rx_lit, rx_cat_cons.
  rewrite startswith_app_l.
  destruct (Py.startswith "export async function " t) eqn:E1; [|reflexivity].
  rewrite rx_lit. cbn [andb].
  destruct (Py.startswith m _) eqn:E2; [|reflexivity].
  rewrite skipn_skipn, (Nat.add_comm (length m)), <- length_app.
  generalize (skipn (length ("export async function " ++ m)) t) as t1.
  generalize (eol (eol b "export async function ") m) as b1.
  intros b1 t1.
  rewrite rx_cat_cons.
  unfold Re.ws at 1. rewrite rx_star_cls_det.
  2: { intros b0 c t0 Hc. rewrite rx_cat_cons, rx_lit. cbn [Py.startswith].
       now rewrite (space_not c "("%char Hc eq_refl). }
  generalize (eol b1 (take_while is_space t1)) as b2.
  destruct (drop_while is_space t1) as [|c1 t2]; intros b2; [reflexivity|].
  rewrite rx_cat_cons, rx_lit. cbn [Py.startswith andb length skipn].
  rewrite (Ascii.eqb_sym "(" c1).
  destruct (Ascii.eqb c1 "(") eqn:E3; [|reflexivity].
  cbn [andb]. rewrite rx_cat_cons.
  change (Re.nset ")") with (Re.Cls not_closing).
  rewrite rx_plus_cls_det.
  2: { intros b0 c t0 Hc. rewrite rx_cat_cons, rx_lit. cbn [Py.startswith].
       unfold not_closing in Hc. cbn [one_of] in Hc. rewrite orb_false_r in Hc.
       apply negb_true_iff in Hc. now rewrite (Ascii.eqb_sym ")" c), Hc. }
  destruct t2 as [|c t3]; [reflexivity|].
  destruct (not_closing c) eqn:E4; [|reflexivity].
  generalize (eol (is_nl c) (take_while not_closing t3)) as b3.
  pose proof (drop_while_stops not_closing t3) as Hstop.
  destruct (drop_while not_closing t3) as [|c4 t5]; intros b3; [reflexivity|].
  rewrite rx_cat_cons, rx_lit. cbn [Py.startswith andb length skipn].
  assert (E5 : Ascii.eqb ")" c4 = true).
  { cbn [stops] in Hstop. unfold not_closing in Hstop. cbn [one_of] in Hstop.
    rewrite orb_false_r, negb_involutive in Hstop. now rewrite Ascii.eqb_sym. }
  rewrite E5. cbn [andb].
  rewrite rx_cat_cons. unfold Re.ws at 1. rewrite rx_star_cls_det.
  2: { intros b0 c0 t0 Hc. rewrite rx_cat_cons, rx_lit. cbn [Py.startswith].
       now rewrite (space_not c0 "{"%char Hc eq_refl). }
  generalize (eol (eol b3 ")") (take_while is_space t5)) as b4.
  destruct (drop_while is_space t5) as [|c6 t7]; intros b4; [reflexivity|].
  rewrite rx_cat_cons, rx_lit. cbn [Py.startswith andb length skipn].
  rewrite (Ascii.eqb_sym "{" c6).
  destruct (Ascii.eqb c6 "{"); reflexivity.
Qed.

(** The scanner does not look beyond a closing parenthesis that is
    followed by white space and an opening brace. *)
Lemma after_opening_uniform (m a w2 : str) :
  forallb not_closing m = true -> forallb is_space w2 = true ->
  uniform (after_opening m) (a ++ ")"%char :: w2 ++ "{").
Proof.
  intros Hm Hw.
  assert (Hname : forallb not_closing ("export async function " ++ m) = true)
    by (rewrite forallb_app, Hm; reflexivity).
  assert (Hsplit : forall z, (a ++ ")"%char :: w2 ++ "{") ++ z
                             = a ++ ")"%char :: w2 ++ "{"%char :: z).
  { intros z. rewrite <- app_assoc. cbn [app]. now rewrite <- app_assoc. }
  unfold uniform, after_opening.
  destruct ((length ("export async function " ++ m) <=? length a)
            && Py.startswith ("export async function " ++ m) a) eqn:E1.
  2: { left. intros z. now rewrite Hsplit, startswith_before, E1. }
  apply andb_true_iff in E1. destruct E1 as [E1 E1']. apply Nat.leb_le in E1.
  assert (Hskip : forall z,
            skipn (length ("export async function " ++ m)) (a ++ ")"%char :: w2 ++ "{"%char :: z)
            = skipn (length ("export async function " ++ m)) a ++ ")"%char :: w2 ++ "{"%char :: z)
    by (intros z; now apply skipn_app_lt).
  assert (Hst : forall z,
            Py.startswith ("export async function " ++ m) (a ++ ")"%char :: w2 ++ "{"%char :: z)
            = true).
  { intros z. rewrite startswith_before by exact Hname. rewrite E1'.
    apply Nat.leb_le in E1. now rewrite E1. }
  generalize dependent (skipn (length ("export async function " ++ m)) a).
  intros a1 Hskip.
  destruct (drop_while is_space a1) as [|c1 a3] eqn:E2.
  { left. intros z.
    now rewrite Hsplit, Hst, Hskip, drop_while_app_stop, E2 by reflexivity. }
  destruct (Ascii.eqb c1 "(") eqn:E3.
  2: { left. intros z.
       rewrite Hsplit, Hst, Hskip, drop_while_app_stop, E2 by reflexivity.
       cbn [app]. now rewrite E3. }
  destruct a3 as [|c a4].
  { left. intros z.
    rewrite Hsplit, Hst, Hskip, drop_while_app_stop, E2 by reflexivity.
    cbn [app]. now rewrite E3. }
  destruct (not_closing c) eqn:E4.
  2: { left. intros z.
       rewrite Hsplit, Hst, Hskip, drop_while_app_stop, E2 by reflexivity.
       cbn [app]. now rewrite E3, E4. }
  destruct (drop_while not_closing a4) as [|c4 a6] eqn:E5.
  { right. exists []. intros z.
    rewrite Hsplit, Hst, Hskip, drop_while_app_stop, E2 by reflexivity.
    cbn [app]. rewrite E3, E4.
    rewrite drop_while_app_stop, E5 by reflexivity. cbn [app].
    rewrite drop_while_app_stop, (drop_while_all _ _ Hw) by reflexivity.
    reflexivity. }
  destruct (drop_while is_space a6) as [|c6 a8] eqn:E6.
  { left. intros z.
    rewrite Hsplit, Hst, Hskip, drop_while_app_stop, E2 by reflexivity.
    cbn [app]. rewrite E3, E4.
    rewrite drop_while_app_stop, E5 by reflexivity. cbn [app].
    now rewrite drop_while_app_stop, E6 by reflexivity. }
  destruct (Ascii.eqb c6 "{") eqn:E7.
  - right. exists (a8 ++ ")"%char :: w2 ++ "{"). intros z.
    rewrite Hsplit, Hst, Hskip, drop_while_app_stop, E2 by reflexivity.
    cbn [app]. rewrite E3, E4.
    rewrite drop_while_app_stop, E5 by reflexivity. cbn [app].
    rewrite drop_while_app_stop, E6 by reflexivity. cbn [app].
    rewrite E7. f_equal. rewrite <- app_assoc. cbn [app]. now rewrite <- app_assoc.
  - left. intros z.
    rewrite Hsplit, Hst, Hskip, drop_while_app_stop, E2 by reflexivity.
    cbn [app]. rewrite E3, E4.
    rewrite drop_while_app_stop, E5 by reflexivity. cbn [app].
    rewrite drop_while_app_stop, E6 by reflexivity. cbn [app].
    now rewrite E7.
Qed.

(** A text on which the scanner succeeds ends its opening with a closing
    parenthesis, white space and an opening brace. *)
Lemma after_opening_inv (m t r : str) :
  after_opening m t = Some r ->
  exists a w2, t = a ++ ")"%char :: w2 ++ "{"%char :: r /\ forallb is_space w2 = true.
Proof.
  unfold after_opening. intros H.
  destruct (Py.startswith _ t); [|discriminate].
  pose proof (firstn_skipn (length ("export async function " ++ m)) t) as H0.
  revert H H0.
  generalize (firstn (length ("export async function " ++ m)) t) as a0.
  generalize (skipn (length ("export async function " ++ m)) t) as t1.
  intros t1 a0 H H0.
  pose proof (take_drop is_space t1) as H1.
  destruct (drop_while is_space t1) as [|c1 t2]; [discriminate|].
  destruct (Ascii.eqb c1 "("); [|discriminate].
  destruct t2 as [|c t3]; [discriminate|].
  destruct (not_closing c); [|discriminate].
  pose proof (take_drop not_closing t3) as H3.
  pose proof (drop_while_stops not_closing t3) as Hstop.
  destruct (drop_while not_closing t3) as [|c4 t5]; [discriminate|].
  assert (E : c4 = ")"%char).
  { cbn [stops] in Hstop. unfold not_closing in Hstop. cbn [one_of] in Hstop.
    rewrite orb_false_r, negb_involutive in Hstop. now apply Ascii.eqb_eq. }
  subst c4.
  pose proof (take_drop is_space t5) as H5.
  destruct (drop_while is_space t5) as [|c6 t7]; [discriminate|].
  destruct (Ascii.eqb c6 "{") eqn:E6; [|discriminate].
  apply Ascii.eqb_eq in E6. subst c6.
  injection H as <-.
  exists (a0 ++ take_while is_space t1 ++ c1 :: c :: take_while not_closing t3),
         (take_while is_space t5).
  split; [|apply take_while_all].
  rewrite <- H0, <- H1, <- H3, <- H5 at 1.
  rewrite <- ?app_assoc. cbn [app]. rewrite <- ?app_assoc. reflexivity.
Qed.

(** The opening that [re.search] finds for a method is found again, at
    the same place, after any text is put right after it. *)
Lemma method_search_after_insert (m content ins : str) (s e : nat) (g : Re.caps) :
  forallb not_closing m = true ->
  Re.search (UpdatePhase1Endpoints.method_rx m) content = Some (s, e, g) ->
  e <= length content /\
  Re.search (UpdatePhase1Endpoints.method_rx m)
            (firstn e content ++ ins ++ skipn e content) = Some (s, e, g).
Proof.
  intros Hm H. unfold Re.search in *.
  destruct (search_from_inv _ _ _ _ _ _ H) as (Hs & Hse & [b Hat] & Hno).
  rewrite method_match_eq in Hat.
  destruct (after_opening m (skipn s content)) as [r|] eqn:Eo; [|discriminate].
  injection Hat as Hlen <-.
  destruct (after_opening_inv _ _ _ Eo) as (a & w2 & Ht & Hw).
  set (w := a ++ ")"%char :: w2 ++ "{").
  assert (Htw : skipn s content = w ++ r).
  { rewrite Ht. unfold w. rewrite <- app_assoc. cbn [app]. now rewrite <- app_assoc. }
  assert (Hc : content = firstn s content ++ w ++ r).
  { rewrite <- Htw. symmetry. apply firstn_skipn. }
  assert (Hp : length (firstn s content) = s) by (now apply firstn_length_le).
  assert (He : e = s + length w).
  { rewrite Htw, length_app in Hlen. lia. }
  revert Hp Hc. generalize (firstn s content) as p. intros p Hp Hc.
  assert (Hfe : firstn e content = p ++ w).
  { rewrite Hc, He, <- Hp. apply firstn_two. }
  assert (Hke : skipn e content = r).
  { rewrite Hc, He, <- Hp. apply skipn_two. }
  split.
  { rewrite Hc, !length_app. lia. }
  rewrite Hfe, Hke, He.
  apply search_from_intro.
  - rewrite !length_app. lia.
  - intros i b0 Hi. rewrite method_match_eq.
    destruct (Hno i Hi) as [b1 Hnone]. rewrite method_match_eq in Hnone.
    assert (Hi' : i <= length p) by lia.
    rewrite <- app_assoc, skipn_app_lt by exact Hi'.
    rewrite Hc, skipn_app_lt in Hnone by exact Hi'.
    replace (skipn i p ++ w ++ ins ++ r)
      with (((skipn i p ++ a) ++ ")"%char :: w2 ++ "{") ++ (ins ++ r))
      by (unfold w; now rewrite <- !app_assoc).
    replace (skipn i p ++ w ++ r)
      with (((skipn i p ++ a) ++ ")"%char :: w2 ++ "{") ++ r) in Hnone
      by (unfold w; now rewrite <- !app_assoc).
    destruct (after_opening_uniform m (skipn i p ++ a) w2 Hm Hw) as [Hu|[d Hu]].
    + now rewrite Hu.
    + rewrite Hu in Hnone. discriminate.
  - intros b0. rewrite method_match_eq.
    rewrite <- app_assoc, <- Hp, skipn_app, skipn_all, Nat.sub_diag. cbn [skipn app].
    destruct (after_opening_uniform m a w2 Hm Hw) as [Hu|[d Hu]]; fold w in Hu.
    + specialize (Hu r). rewrite <- Htw, Eo in Hu. discriminate.
    + pose proof (Hu r) as Hr. rewrite <- Htw, Eo in Hr.
      injection Hr as Hr.
      assert (d = []).
      { apply (f_equal (@length ascii)) in Hr. rewrite length_app in Hr.
        destruct d; [reflexivity|simpl in Hr; lia]. }
      subst d. rewrite (Hu (ins ++ r)). cbn [app].
      rewrite !length_app. do 2 f_equal. lia.
Qed.

(** [update_method_handler] recognises its own output: a second call
    changes nothing, whatever the content, for any method name without
    closing parenthesis (the five names of [update_file] are such). *)
Lemma update_method_handler_idempotent (content method : str) (is_list_endpoint : bool) :
  forallb not_closing method = true ->
  UpdatePhase1Endpoints.update_method_handler
    (UpdatePhase1Endpoints.update_method_handler content method is_list_endpoint)
    method is_list_endpoint
  = UpdatePhase1Endpoints.update_method_handler content method is_list_endpoint.
Proof.
  intros Hm. unfold UpdatePhase1Endpoints.update_method_handler at 2 3.
  destruct (Re.search _ content) as [[[s e] g]|] eqn:Es.
  2: { unfold UpdatePhase1Endpoints.update_method_handler. now rewrite Es. }
  destruct (Py.contains _ (Py.slice e (e + 500) content)) eqn:Ec.
  { unfold UpdatePhase1Endpoints.update_method_handler. now rewrite Es, Ec. }
  destruct (method_search_after_insert method content UpdatePhase1Endpoints.phase1_init
              s e g Hm Es) as [He Hs].
  unfold UpdatePhase1Endpoints.update_method_handler. rewrite Hs.
  replace (Py.contains _ (Py.slice e (e + 500) _)) with true; [reflexivity|].
  symmetry. unfold Py.slice.
  rewrite Nat.add_comm, Nat.add_sub.
  rewrite skipn_app, skipn_all2 by (rewrite firstn_length_le; lia).
  rewrite firstn_length_le, Nat.sub_diag by exact He. cbn [skipn app].
  rewrite firstn_app, firstn_all2 by (vm_compute; lia).
  apply contains_app_r. vm_compute. reflexivity.
Qed.

Lemma method_names_plain :
  forallb (forallb not_closing) ["GET"; "POST"; "PUT"; "PATCH"; "DELETE"] = true.
Proof. vm_compute. reflexivity. Qed.

(** C1.  [add_request_tracking_to_get] has no test for its own output: run
    on the text it produced, it inserts the correlation binding and the
    rate check once more, and so does the whole sequence of
    transformations of apply-phase1-standards.  [update_method_handler] of
    update-phase1-endpoints, which tests for the binding, leaves its own
    output as it is on the same text, as it does on every text
    ([update_method_handler_idempotent]). *)
Theorem second_run_inserts_again :
  let once := ApplyPhase1Standards.add_request_tracking_to_get plain_get in
  let twice := ApplyPhase1Standards.add_request_tracking_to_get once in
  Py.count "const requestId = getRequestId(request);" once = 1 /\
  Py.count "const requestId = getRequestId(request);" twice = 2 /\
  Py.count "globalRateLimitTracker.trackRequest(" once = 1 /\
  Py.count "globalRateLimitTracker.trackRequest(" twice = 2 /\
  twice <> once /\
  ApplyPhase1Standards.transform plain_get = Done once /\
  ApplyPhase1Standards.transform once = Done twice /\
  UpdatePhase1Endpoints.update_method_handler
    (UpdatePhase1Endpoints.update_method_handler plain_get "GET" true) "GET" true
  = UpdatePhase1Endpoints.update_method_handler plain_get "GET" true.
Proof.
  cbv zeta. splits; try (vm_compute; reflexivity).
  vm_compute. discriminate.
Qed.

(* ================================================================== *)
(** * The action given to a handler by apply-rbac (C2) *)

(** Whatever the content, the pass for a method either leaves it as it is
    or puts one call in place of a stretch of it: the call with the
    resource and the action it was given and the variables of the block it
    replaces. *)
Lemma replace_auth_shape (content method_name resource_name action : str) :
  ApplyRbac.replace_auth_in_method content method_name resource_name action = content \/
  exists i j vars,
    ApplyRbac.replace_auth_in_method content method_name resource_name action
    = firstn i content ++ ApplyRbac.replacement resource_name action vars
        ++ skipn j content.
Proof.
  unfold ApplyRbac.replace_auth_in_method.
  destruct (Re.search _ content) as [[[a b] g]|]; [|now left].
  destruct (Re.search _ (skipn b content)) as [[[a' b'] g']|]; [|now left].
  right. eauto.
Qed.

(** C2.  The call built in the pass for a method carries the action the
    table gives for that method ([replace_auth_shape]), but the pass does
    not stay inside the handler of the method.  On a file whose [GET]
    handler has no authentication block and whose [POST] handler has one,
    the pass for [GET] finds the block of [POST], the first one after the
    start of [GET], and rewrites it with the action of [GET]; the pass for
    [POST] then finds nothing left.  The [POST] handler ends up guarded by
    [read]; fix-all-methods, run on the result, puts [create] there. *)
Theorem post_guarded_by_read :
  ApplyRbac.transform public_get_then_post "clients" =
"import { requirePermission } from '@/middleware/permissions';

export async function GET(request: NextRequest) {
  return NextResponse.json({ ok: true });
}

export async function POST(request: NextRequest) {
  const authResult = await requirePermission(request, 'clients', 'read');
    if ('error' in authResult) {
      return authResult.error;
    }
    const { tenantId, user  } = authResult;
  return NextResponse.json({ ok: true });
}
" /\
  Py.contains "'create'" (ApplyRbac.transform public_get_then_post "clients") = false /\
  Py.contains "requirePermission(request, 'clients', 'create')"
    (fst (FixAllMethods.fix_methods FixAllMethods.METHOD_ACTIONS "clients"
            (ApplyRbac.transform public_get_then_post "clients") false)) = true.
Proof.
  splits; vm_compute; reflexivity.
Qed.

(* ================================================================== *)
(** * Imports added or renamed (C4) *)

Lemma mem_In (x : str) (l : list str) : MigrateEndpoints.mem x l = true <-> In x l.
Proof.
  unfold MigrateEndpoints.mem. rewrite existsb_exists. split.
  - intros (y & Hy & E). apply str_eqb_eq in E. now subst.
  - intros H. exists x. split; [exact H|apply str_eqb_refl].
Qed.

(** The loop that removes duplicates keeps no name twice, and none that
    was seen before. *)
Lemma dedup_spec (l : list str) :
  forall seen,
    NoDup (MigrateEndpoints.dedup seen l) /\
    (forall x, In x (MigrateEndpoints.dedup seen l) -> ~ In x seen).
Proof.
  induction l as [|imp l IH]; intros seen; cbn [MigrateEndpoints.dedup].
  - split; [constructor|intros x []].
  - destruct (MigrateEndpoints.mem imp seen) eqn:E; cbn [negb].
    + apply IH.
    + destruct (IH (imp :: seen)) as [Hn Hs]. split.
      * constructor; [|exact Hn]. intros H. apply (Hs imp H). now left.
      * intros x [<-|H].
        -- intros Hin. apply mem_In in Hin. congruence.
        -- intros Hin. apply (Hs x H). now right.
Qed.

(** The names that [update_pagination_imports] joins are pairwise
    different. *)
Lemma pagination_imports_nodup (imports_str : str) :
  NoDup (MigrateEndpoints.dedup []
           (MigrateEndpoints.rename_imports (map Py.strip (Py.split "," imports_str)))).
Proof. apply dedup_spec. Qed.

(** C4.  [add_imports] adds the whole correlation import line as soon as
    one of [getRequestId] and [logResponse] is missing from the text.  On
    a file that imports [getRequestId] alone the line is added next to the
    existing import, and [getRequestId] is imported twice; a second call
    changes nothing, so the two imports stay.  [update_pagination_imports]
    of migrate-endpoints keeps every name at most once
    ([pagination_imports_nodup]), but it drops a canonical name that is
    already there instead of keeping it once. *)
Theorem correlation_import_duplicated :
  UpdatePhase1Endpoints.add_imports partial_imports "src/app/api/clients/[id]/route.ts" =
"import { NextRequest, NextResponse } from 'next/server';
import { getRequestId } from '@/middleware/correlation';
import { globalRateLimitTracker } from '@/middleware/rateLimit';
import { standardErrorResponse } from '@/lib/response';
import { getRequestId, logRequest, logResponse } from '@/middleware/correlation';

export async function GET(request: NextRequest) {
  return NextResponse.json({ ok: true });
}
" /\
  Py.count "getRequestId" partial_imports = 1 /\
  Py.count "getRequestId"
    (UpdatePhase1Endpoints.add_imports partial_imports "src/app/api/clients/[id]/route.ts") = 2 /\
  UpdatePhase1Endpoints.add_imports
    (UpdatePhase1Endpoints.add_imports partial_imports "src/app/api/clients/[id]/route.ts")
    "src/app/api/clients/[id]/route.ts"
  = UpdatePhase1Endpoints.add_imports partial_imports "src/app/api/clients/[id]/route.ts" /\
  MigrateEndpoints.update_pagination_imports " buildStandardListResponse, parseSortParams "
  = "parseSortParams".
Proof.
  splits; vm_compute; reflexivity.
Qed.

(* ================================================================== *)
(** * The rate check (C6) *)

(** What [add_rate_limiting] does, case by case: nothing when the text
    has a rate check or lacks the destructuring; otherwise the block for
    the method goes right after the first destructuring, with the limit
    and the window of [RATE_LIMITS] and the suffix of the method. *)
Lemma add_rate_limiting_contract (content method : str) :
  (Py.contains "globalRateLimitTracker.trackRequest" content = true ->
   UpdatePhase1Endpoints.add_rate_limiting content method = content) /\
  (Py.find UpdatePhase1Endpoints.auth_text content = None ->
   UpdatePhase1Endpoints.add_rate_limiting content method = content) /\
  (forall n,
     Py.contains "globalRateLimitTracker.trackRequest" content = false ->
     Py.find UpdatePhase1Endpoints.auth_text content = Some n ->
     exists pre post,
       content = pre ++ UpdatePhase1Endpoints.auth_text ++ post /\
       length pre = n /\
       UpdatePhase1Endpoints.add_rate_limiting content method
       = pre ++ UpdatePhase1Endpoints.auth_text
           ++ UpdatePhase1Endpoints.rate_limit_code
                (fst (UpdatePhase1Endpoints.get UpdatePhase1Endpoints.RATE_LIMITS method (100, 3600)))
                (snd (UpdatePhase1Endpoints.get UpdatePhase1Endpoints.RATE_LIMITS method (100, 3600)))
                (UpdatePhase1Endpoints.key_suffix method)
           ++ post).
Proof.
  unfold UpdatePhase1Endpoints.add_rate_limiting, Re.search.
  rewrite search_from_lit.
  splits.
  - intros H. destruct (Py.find _ content); [now rewrite H|reflexivity].
  - intros H. now rewrite H.
  - intros n Hc Hf. rewrite Hf, Hc.
    pose proof (find_Some_startswith _ _ _ Hf) as Hs.
    destruct (startswith_inv _ _ Hs) as [post Hpost].
    assert (Hn : n <= length content).
    { destruct (le_lt_dec n (length content)) as [H|H]; [exact H|].
      rewrite skipn_all2 in Hs by lia. discriminate. }
    assert (Hlen : length (firstn n content) = n) by (now apply firstn_length_le).
    assert (Hsplit : content = firstn n content ++ UpdatePhase1Endpoints.auth_text ++ post).
    { rewrite <- Hpost. symmetry. apply firstn_skipn. }
    revert Hlen Hsplit. generalize (firstn n content) as pre. intros pre Hlen Hsplit.
    exists pre, post. splits; [exact Hsplit | exact Hlen |].
    destruct (UpdatePhase1Endpoints.get _ method _) as [limit window]. cbn [fst snd].
    rewrite Hsplit, <- Hlen.
    now rewrite firstn_two, skipn_two, <- !app_assoc.
Qed.

(** The table and the suffixes, method by method. *)
Lemma rate_limits_table :
  map (fun m => (UpdatePhase1Endpoints.get UpdatePhase1Endpoints.RATE_LIMITS m (100, 3600),
                 UpdatePhase1Endpoints.key_suffix m))
      ["GET"; "POST"; "PUT"; "PATCH"; "DELETE"]
  = [((100, 3600), []); ((50, 3600), "_create"); ((50, 3600), "_update");
     ((50, 3600), "_update"); ((20, 3600), "_delete")].
Proof. vm_compute. reflexivity. Qed.

(** C6.  The rate-limit step of [add_request_tracking_to_get] does not
    look for an existing rate check: on a text that already calls
    [globalRateLimitTracker.trackRequest] it inserts its block after the
    destructuring all the same.  [add_rate_limiting] of
    update-phase1-endpoints leaves the same text unchanged, and keeps the
    contract on every text ([add_rate_limiting_contract],
    [rate_limits_table]). *)
Theorem rate_check_inserted_twice :
  Py.contains "globalRateLimitTracker.trackRequest" rate_checked = true /\
  ApplyPhase1Standards.add_request_tracking_to_get rate_checked <> rate_checked /\
  Py.count "globalRateLimitTracker.trackRequest("
    (ApplyPhase1Standards.add_request_tracking_to_get rate_checked) = 2 /\
  UpdatePhase1Endpoints.add_rate_limiting rate_checked "GET" = rate_checked.
Proof.
  splits; try (vm_compute; reflexivity).
  vm_compute. discriminate.
Qed.

(* ================================================================== *)
(** * Renaming of the pagination calls (C7) *)



(* ================================================================== *)
(** * The not-found construction of the scenario (C8) *)










(* ================================================================== *)
(** * The effect of one file task on the world *)

(** The transformations stay folded while the effects are traced. *)
Opaque ApplyPhase1Standards.transform UpdatePhase1Endpoints.transform
  UpdatePhase1Endpoints.already_updated MigrateEndpoints.transform
  ApplyRbac.transform str_eqb.

Ltac run :=
  repeat (unfold bind, ret, raise, lift, try_except, print, path_exists,
          read_file, write_file in *; simpl in * ).

Lemma untouched_refl (w : world) : untouched w w.
Proof. split; reflexivity. Qed.

#[local] Hint Resolve untouched_refl : core.

(** [process_file] of apply-phase1-standards, case by case. *)
Lemma phase1_process_file_cases (cfg : ApplyPhase1Standards.file_config) (w : world) :
  let p := ApplyPhase1Standards.path cfg in
  let w' := snd (ApplyPhase1Standards.process_file cfg w) in
  untouched w w' \/
  exists f out, files w p = Some f /\ readable f = true /\ writable f = true /\
                ApplyPhase1Standards.transform (text f) = Done out /\
                out <> text f /\ replaced p out w w'.
Proof.
  unfold ApplyPhase1Standards.process_file. run.
  destruct (files w (ApplyPhase1Standards.path cfg)) as [f|] eqn:Ef; simpl.
  2: { left. split; reflexivity. }
  rewrite Ef. simpl.
  destruct (readable f) eqn:Er; simpl.
  2: { left. split; reflexivity. }
  destruct (ApplyPhase1Standards.transform (text f)) as [out|e] eqn:Et; simpl.
  2: { left. split; reflexivity. }
  destruct (str_eqb out (text f)) eqn:Eq; simpl.
  { left. split; reflexivity. }
  rewrite Ef. simpl.
  destruct (writable f) eqn:Ew; simpl.
  2: { left. split; reflexivity. }
  right. exists f, out. repeat split; auto.
  - now apply str_eqb_neq.
  - exists f. repeat split; auto.
Qed.

(** [update_file] of update-phase1-endpoints, case by case. *)
Lemma update_file_cases (p : str) (w : world) :
  let w' := snd (UpdatePhase1Endpoints.update_file p w) in
  untouched w w' \/
  exists f, files w p = Some f /\ readable f = true /\ writable f = true /\
            UpdatePhase1Endpoints.already_updated (text f) = false /\
            UpdatePhase1Endpoints.transform (text f) p <> text f /\
            replaced p (UpdatePhase1Endpoints.transform (text f) p) w w'.
Proof.
  unfold UpdatePhase1Endpoints.update_file. run.
  destruct (files w p) as [f|] eqn:Ef; simpl.
  2: { left. split; reflexivity. }
  destruct (readable f) eqn:Er; simpl.
  2: { left. split; reflexivity. }
  destruct (UpdatePhase1Endpoints.already_updated (text f)) eqn:Ea; simpl.
  { left. split; reflexivity. }
  destruct (str_eqb (UpdatePhase1Endpoints.transform (text f) p) (text f)) eqn:Eq; simpl.
  { left. split; reflexivity. }
  rewrite Ef. simpl.
  destruct (writable f) eqn:Ew; simpl.
  2: { left. split; reflexivity. }
  right. exists f. repeat split; auto.
  - now apply str_eqb_neq.
  - exists f. repeat split; auto.
Qed.

Lemma run_added_refl (w : world) : run_added w w [] [] [].
Proof. unfold run_added. now rewrite !app_nil_r. Qed.

Lemma run_added_trans (w1 w2 w3 : world) l1 l2 ws1 ws2 rs1 rs2 :
  run_added w1 w2 l1 ws1 rs1 -> run_added w2 w3 l2 ws2 rs2 ->
  run_added w1 w3 (l1 ++ l2) (ws1 ++ ws2) (rs1 ++ rs2).
Proof.
  intros (A & B & C) (D & E & F). unfold run_added.
  rewrite D, E, F, A, B, C, !app_assoc. auto.
Qed.

(** One call of [process_file] of apply-rbac: it returns, and all it
    prints, reads and writes is about its own path. *)
Lemma rbac_process_file_run (p r : str) (w : world) :
  exists b w' lines ws rs,
    ApplyRbac.process_file p r w = (Done b, w') /\
    run_added w w' lines ws rs /\
    (forall l, In l lines -> line_path l = p /\ l <> Skipping p) /\
    (forall q c, In (q, c) ws -> q = p) /\
    (forall q, In q rs -> q = p) /\
    (forall q, q <> p -> files w' q = files w q).
Proof.
  assert (Hl1 : forall l a b, In l [a; b] -> line_path a = p -> a <> Skipping p ->
                  line_path b = p -> b <> Skipping p ->
                  line_path l = p /\ l <> Skipping p).
  { intros l a b [<-|[<-|[]]]; auto. }
  assert (Hst : forall f q, q <> p -> store (files w) p f q = files w q).
  { intros f q Hq. unfold store. apply str_eqb_neq in Hq. now rewrite Hq. }
  assert (Hrs : forall q, In q [p] -> q = p) by (now intros q [<-|[]]).
  assert (Hnil : forall (A : Type) (P : A -> Prop) x, In x (@nil A) -> P x)
    by (intros; contradiction).
  unfold ApplyRbac.process_file. run.
  destruct (files w p) as [f|] eqn:Ef; simpl.
  2: { eexists _, _, [Processing p; Failed p OSError], [], [p]. split; [reflexivity|].
       unfold run_added. simpl. rewrite <- !app_assoc, !app_nil_r.
       splits; auto; try (intros l Hl; eapply Hl1; eauto; discriminate).
       all: try (intros; contradiction). }
  destruct (readable f) eqn:Er; simpl.
  2: { eexists _, _, [Processing p; Failed p OSError], [], [p]. split; [reflexivity|].
       unfold run_added. simpl. rewrite <- !app_assoc, !app_nil_r.
       splits; auto; try (intros l Hl; eapply Hl1; eauto; discriminate).
       all: try (intros; contradiction). }
  destruct (str_eqb (ApplyRbac.transform (text f) r) (text f)) eqn:Eq; simpl.
  { eexists _, _, [Processing p; NoChanges p], [], [p]. split; [reflexivity|].
    unfold run_added. simpl. rewrite <- !app_assoc, !app_nil_r.
    splits; auto; try (intros l Hl; eapply Hl1; eauto; discriminate).
    all: try (intros; contradiction). }
  rewrite Ef. simpl.
  destruct (writable f) eqn:Ew; simpl.
  - eexists _, _, [Processing p; Updated p], [(p, ApplyRbac.transform (text f) r)], [p].
    split; [reflexivity|].
    unfold run_added. simpl. rewrite <- !app_assoc.
    splits; auto; try (intros l Hl; eapply Hl1; eauto; discriminate).
    all: try (intros q c [E|[]]; now injection E as <- _).
  - eexists _, _, [Processing p; Failed p OSError], [], [p]. split; [reflexivity|].
    unfold run_added. simpl. rewrite <- !app_assoc, !app_nil_r.
    splits; auto; try (intros l Hl; eapply Hl1; eauto; discriminate).
    all: try (intros; contradiction).
Qed.

(** The loop of [main]: it ends, a path without resource gets its
    [Skipping] line and nothing else, and is neither read nor written. *)
Lemma rbac_main_loop_run (route_files : list str) :
  forall (c : ApplyRbac.counts) (w : world),
  exists c' w' lines ws rs,
    ApplyRbac.main_loop route_files c w = (Done c', w') /\
    run_added w w' lines ws rs /\
    (forall l, In l lines -> ApplyRbac.get_resource_from_path (line_path l) = None ->
               l = Skipping (line_path l)) /\
    (forall q x, In (q, x) ws -> ApplyRbac.get_resource_from_path q <> None) /\
    (forall q, In q rs -> ApplyRbac.get_resource_from_path q <> None) /\
    (forall q, ApplyRbac.get_resource_from_path q = None -> files w' q = files w q) /\
    (forall q, In q route_files -> ApplyRbac.get_resource_from_path q = None ->
               In (Skipping q) lines).
Proof.
  induction route_files as [|p rest IH]; intros c w.
  - exists c, w, [], [], []. split; [reflexivity|].
    split; [apply run_added_refl|]. splits; intros; try contradiction; auto.
  - simpl. destruct (ApplyRbac.get_resource_from_path p) as [r|] eqn:Eg.
    + destruct (rbac_process_file_run p r w)
        as (b & w1 & l1 & ws1 & rs1 & Hrun & Hadd & Hl & Hw & Hr & Hf).
      unfold bind at 1. rewrite Hrun.
      match goal with |- context [ApplyRbac.main_loop rest ?c1 w1] =>
        destruct (IH c1 w1) as (c' & w' & l2 & ws2 & rs2 & Hrun2 & Hadd2 & Hl2 & Hw2 & Hr2 & Hf2 & Hs2)
      end.
      exists c', w', (l1 ++ l2), (ws1 ++ ws2), (rs1 ++ rs2).
      split; [exact Hrun2|]. split; [eapply run_added_trans; eauto|].
      splits.
      * intros l Hin Hn. apply in_app_or in Hin. destruct Hin as [Hin|Hin]; [|auto].
        destruct (Hl l Hin) as [Hp _]. rewrite Hp in Hn. congruence.
      * intros q x Hin. apply in_app_or in Hin. destruct Hin as [Hin|Hin]; [|eauto].
        rewrite (Hw q x Hin). congruence.
      * intros q Hin. apply in_app_or in Hin. destruct Hin as [Hin|Hin]; [|eauto].
        rewrite (Hr q Hin). congruence.
      * intros q Hn. rewrite (Hf2 q Hn). apply Hf. congruence.
      * intros q [<-|Hin] Hn; [congruence|]. apply in_or_app. right. auto.
    + unfold bind at 1. unfold print at 1.
      match goal with |- context [ApplyRbac.main_loop rest ?c1 ?w1] =>
        destruct (IH c1 w1) as (c' & w' & l2 & ws2 & rs2 & Hrun2 & Hadd2 & Hl2 & Hw2 & Hr2 & Hf2 & Hs2)
      end.
      exists c', w', (Skipping p :: l2), ws2, rs2.
      split; [exact Hrun2|].
      destruct Hadd2 as (A & B & C). simpl in A, B, C.
      split; [unfold run_added; rewrite A, B, C, <- app_assoc; auto|].
      splits; auto.
      * intros l [<-|Hin] Hn; auto.
      * intros q [<-|Hin] Hn; [now left|right; auto].
Qed.

(* ================================================================== *)
(** * Failures of one file and the rest of the batch (C3) *)

(** The three file tasks written with [try ... except Exception] return
    on every world: nothing they meet gets out. *)
Lemma update_file_returns (p : str) (w : world) :
  exists b w', UpdatePhase1Endpoints.update_file p w = (Done b, w').
Proof.
  unfold UpdatePhase1Endpoints.update_file. run.
  destruct (files w p) as [f|] eqn:Ef; simpl; [|eauto].
  destruct (readable f); simpl; [|eauto].
  destruct (UpdatePhase1Endpoints.already_updated (text f)); simpl; [eauto|].
  destruct (str_eqb _ _); simpl; [eauto|].
  rewrite Ef. simpl. destruct (writable f); simpl; eauto.
Qed.

Lemma migrate_endpoint_returns (p : str) (w : world) :
  exists b w', MigrateEndpoints.migrate_endpoint p w = (Done b, w').
Proof.
  unfold MigrateEndpoints.migrate_endpoint. run.
  destruct (files w p) as [f|] eqn:Ef; simpl; [|eauto].
  rewrite Ef. simpl.
  destruct (readable f); simpl; [|eauto].
  destruct (MigrateEndpoints.already_migrated (text f)); simpl; [eauto|].
  destruct (str_eqb _ _); simpl; [eauto|].
  rewrite Ef. simpl. destruct (writable f); simpl; eauto.
Qed.

Lemma rbac_process_file_returns (p r : str) (w : world) :
  exists b w', ApplyRbac.process_file p r w = (Done b, w').
Proof.
  destruct (rbac_process_file_run p r w) as (b & w' & _ & _ & _ & H & _). eauto.
Qed.

(** One call of [update_file] returns; no file appears or disappears, and
    the paths on which [stat] fails stay the same. *)
Lemma update_file_steady (p : str) (w : world) :
  exists b w', UpdatePhase1Endpoints.update_file p w = (Done b, w') /\
    stat_error w' = stat_error w /\
    (forall q, present w' q = present w q).
Proof.
  assert (Hq : forall (b : bool) r c,
             exists b' w', (Done b, mkWorld (files w) r (writes w) c (stat_error w))
                           = (Done b', w') /\
               stat_error w' = stat_error w /\
               (forall q, present w' q = present w q)).
  { intros b r c. eexists _, _. split; [reflexivity|]. split; [reflexivity|]. reflexivity. }
  unfold UpdatePhase1Endpoints.update_file. run.
  destruct (files w p) as [f|] eqn:Ef; simpl; [|apply Hq].
  destruct (readable f); simpl; [|apply Hq].
  destruct (UpdatePhase1Endpoints.already_updated (text f)); simpl; [apply Hq|].
  destruct (str_eqb _ _); simpl; [apply Hq|].
  rewrite Ef. simpl. destruct (writable f); simpl; [|apply Hq].
  eexists _, _. split; [reflexivity|]. split; [reflexivity|].
  intros q. unfold present, store. simpl.
  destruct (str_eqb q p) eqn:E; [|reflexivity].
  apply str_eqb_eq in E. subst q. now rewrite Ef.
Qed.

Lemma stat_clear_steady (w w' : world) (paths : list str) :
  stat_error w' = stat_error w -> (forall q, present w' q = present w q) ->
  stat_clear w' paths = stat_clear w paths.
Proof.
  intros Hs Hp. unfold stat_clear.
  induction paths as [|q paths IH]; [reflexivity|].
  cbn [forallb]. now rewrite IH, Hs, Hp.
Qed.

(** Their batches run to the end, whatever the files hold.  The batch of
    update-phase1-endpoints tests its paths with [Path.exists] outside
    every [try], so it runs to the end when that raises on none of
    them. *)
Lemma update_main_returns (base_dir : str) (endpoints : list str) :
  forall c w,
    stat_clear w (map (fun e => base_dir ++ "/" ++ e) endpoints) = true ->
    exists c' w',
      UpdatePhase1Endpoints.main_loop base_dir endpoints c w = (Done c', w').
Proof.
  induction endpoints as [|e rest IH]; intros c w Hs;
    cbn [UpdatePhase1Endpoints.main_loop]; [unfold ret; eauto|].
  unfold stat_clear in Hs. cbn [map forallb] in Hs.
  apply andb_true_iff in Hs. destruct Hs as [He Hs].
  unfold bind at 1. unfold pathlib_exists at 1. unfold present in He.
  destruct (files w (base_dir ++ "/" ++ e)); cbv beta iota.
  - unfold bind at 1.
    destruct (update_file_steady (base_dir ++ "/" ++ e) w) as (b & w1 & -> & H1 & H2).
    apply IH. rewrite (stat_clear_steady w w1) by assumption. exact Hs.
  - cbn [orb] in He. apply negb_true_iff in He. rewrite He.
    unfold bind at 1. unfold print at 1. cbv beta iota. apply IH. exact Hs.
Qed.

Lemma migrate_main_returns (endpoints : list str) :
  forall c w, exists c' w', MigrateEndpoints.main_loop endpoints c w = (Done c', w').
Proof.
  induction endpoints as [|e rest IH]; intros c w;
    cbn [MigrateEndpoints.main_loop]; [unfold ret; eauto|].
  unfold bind at 1.
  destruct (migrate_endpoint_returns (MigrateEndpoints.BASE_DIR ++ "/" ++ e) w)
    as (b & w1 & ->).
  destruct b; [apply IH|].
  unfold bind at 1. unfold path_exists at 1.
  destruct (files w1 _); cbv beta iota; apply IH.
Qed.

(** C3.  [process_file] of apply-phase1-standards has no [try]: on a file
    whose legacy error call holds no quoted text, the replacement lambda
    of [replace_error_responses] raises, the exception leaves
    [process_file] and ends [main] at the first file.  The second file,
    which [process_file] alone would update, is never opened. *)
Theorem phase1_batch_aborts :
  fst (ApplyPhase1Standards.process_file
         (ApplyPhase1Standards.mkConfig hotel_route "hotel" "PROVIDER"
            ApplyPhase1Standards.provider_actions) two_files)
    = Raised AttributeError /\
  fst (ApplyPhase1Standards.main two_files) = Raised AttributeError /\
  console (snd (ApplyPhase1Standards.main two_files)) = [Processing hotel_route] /\
  reads (snd (ApplyPhase1Standards.main two_files)) = [hotel_route] /\
  writes (snd (ApplyPhase1Standards.main two_files)) = [] /\
  fst (ApplyPhase1Standards.process_file guides_config two_files) = Done true.
Proof.
  splits; vm_compute; reflexivity.
Qed.

(* ================================================================== *)
(** * Writing only on change (C5) *)

(** C5.  Both [process_file] of apply-phase1-standards and [update_file]
    of update-phase1-endpoints compare the output of the transformations
    with the text read and write only when they differ.  Whatever the
    world and the task, the run either leaves the files and the record of
    writes untouched, or makes exactly one write to the task's own path,
    of the complete output, which differs from the text read; when the
    output equals the input nothing is written; and when it differs (and
    the file can be read and written) the output is written. *)
Theorem write_only_on_change :
  (forall (cfg : ApplyPhase1Standards.file_config) (w : world),
     let p := ApplyPhase1Standards.path cfg in
     let w' := snd (ApplyPhase1Standards.process_file cfg w) in
     (untouched w w' \/
      exists f out, files w p = Some f /\
                    ApplyPhase1Standards.transform (text f) = Done out /\
                    out <> text f /\ replaced p out w w') /\
     (forall f, files w p = Some f ->
                ApplyPhase1Standards.transform (text f) = Done (text f) ->
                untouched w w') /\
     (forall f out, files w p = Some f -> readable f = true -> writable f = true ->
                    ApplyPhase1Standards.transform (text f) = Done out ->
                    out <> text f -> replaced p out w w')) /\
  (forall (p : str) (w : world),
     let w' := snd (UpdatePhase1Endpoints.update_file p w) in
     (untouched w w' \/
      exists f, files w p = Some f /\
                UpdatePhase1Endpoints.transform (text f) p <> text f /\
                replaced p (UpdatePhase1Endpoints.transform (text f) p) w w') /\
     (forall f, files w p = Some f ->
                UpdatePhase1Endpoints.transform (text f) p = text f ->
                untouched w w') /\
     (forall f, files w p = Some f -> readable f = true -> writable f = true ->
                UpdatePhase1Endpoints.already_updated (text f) = false ->
                UpdatePhase1Endpoints.transform (text f) p <> text f ->
                replaced p (UpdatePhase1Endpoints.transform (text f) p) w w')).
Proof.
  split.
  - intros cfg w p w'. split; [|split].
    + destruct (phase1_process_file_cases cfg w) as [U | (f & out & Hf & _ & _ & Ht & Hn & Hr)].
      * now left.
      * right. now exists f, out.
    + intros f Hf Ht.
      destruct (phase1_process_file_cases cfg w) as [U | (f' & out & Hf' & _ & _ & Ht' & Hn & _)].
      * exact U.
      * fold p in Hf'. rewrite Hf in Hf'. injection Hf' as <-.
        rewrite Ht in Ht'. injection Ht' as <-. now elim Hn.
    + intros f out Hf Hr Hw Ht Hn.
      subst w'. unfold ApplyPhase1Standards.process_file. fold p. run.
      rewrite Hf. simpl. rewrite Hf. simpl. rewrite Hr. simpl. rewrite Ht. simpl.
      apply str_eqb_neq in Hn. rewrite Hn. simpl. rewrite Hf. simpl. rewrite Hw. simpl.
      exists f. repeat split; auto.
  - intros p w w'. split; [|split].
    + destruct (update_file_cases p w) as [U | (f & Hf & _ & _ & _ & Hn & Hr)].
      * now left.
      * right. now exists f.
    + intros f Hf Ht.
      destruct (update_file_cases p w) as [U | (f' & Hf' & _ & _ & _ & Hn & _)].
      * exact U.
      * rewrite Hf in Hf'. injection Hf' as <-. now elim Hn.
    + intros f Hf Hr Hw Ha Hn.
      subst w'. unfold UpdatePhase1Endpoints.update_file. run.
      rewrite Hf. simpl. rewrite Hr. simpl. rewrite Ha. simpl.
      apply str_eqb_neq in Hn. rewrite Hn. simpl. rewrite Hf. simpl. rewrite Hw. simpl.
      exists f. repeat split; auto.
Qed.

Lemma write_only_on_change_witness :
  replaced guides_route "const page = parseStandardPaginationParams(searchParams);"
    (one_file guides_route legacy_page)
    (snd (ApplyPhase1Standards.process_file guides_config
            (one_file guides_route legacy_page))).
Proof.
  apply (proj2 (proj2 (proj1 write_only_on_change guides_config
                         (one_file guides_route legacy_page))) legacy_page).
  - reflexivity.
  - reflexivity.
  - reflexivity.
  - vm_compute. reflexivity.
  - vm_compute. discriminate.
Defined.

(* ================================================================== *)
(** * The skip list of apply-rbac (C9) *)

(** C9.  A path whose API segment starts with an entry of [SKIP_PATHS]
    has no resource: [get_resource_from_path] returns [None].  In a run of
    [main] over any list of route files, on any world, such a path is
    never opened for reading and never written, its file is left as it
    was, no [Updated] or [Failed] (or any other) line is printed about it
    except [Skipping], and that line is printed whenever the path is in
    the list. *)
Theorem skip_list_exclusion (route_files : list str) (w : world) (p skip : str) :
  In skip ApplyRbac.SKIP_PATHS ->
  Py.contains "/api/" p = true ->
  Py.startswith skip ("/api/" ++ ApplyRbac.api_segment p) = true ->
  ApplyRbac.get_resource_from_path p = None /\
  exists c' w' lines ws rs,
    ApplyRbac.main route_files w = (Done c', w') /\
    run_added w w' lines ws rs /\
    (In p route_files -> In (Skipping p) lines) /\
    (forall l, In l lines -> line_path l = p -> l = Skipping p) /\
    (forall x, ~ In (p, x) ws) /\
    ~ In p rs /\
    files w' p = files w p.
Proof.
  intros Hskip Hapi Hpre.
  assert (Hnone : ApplyRbac.get_resource_from_path p = None).
  { unfold ApplyRbac.get_resource_from_path. rewrite Hapi.
    replace (existsb _ ApplyRbac.SKIP_PATHS) with true; [reflexivity|].
    symmetry. apply existsb_exists. exists skip. split; [exact Hskip|].
    now apply startswith_contains. }
  split; [exact Hnone|].
  destruct (rbac_main_loop_run route_files (ApplyRbac.mkCounts 0 0 0) w)
    as (c' & w' & lines & ws & rs & Hrun & Hadd & Hl & Hw & Hr & Hf & Hs).
  exists c', w', lines, ws, rs. split; [exact Hrun|]. split; [exact Hadd|].
  splits.
  - intros Hin. auto.
  - intros l Hin Hp. rewrite <- Hp. apply Hl; [exact Hin|]. now rewrite Hp.
  - intros x Hin. now apply (Hw p x Hin).
  - intros Hin. now apply (Hr p Hin).
  - auto.
Qed.

Lemma skip_list_exclusion_witness :
  ApplyRbac.get_resource_from_path "src/app/api/auth/login/route.ts" = None.
Proof.
  apply (skip_list_exclusion ["src/app/api/auth/login/route.ts"]
           (one_file "src/app/api/auth/login/route.ts" legacy_page)
           "src/app/api/auth/login/route.ts" "/api/auth").
  - simpl. auto.
  - reflexivity.
  - reflexivity.
Defined.

(* ================================================================== *)
(** * The early exit of migrate-endpoints (C10) *)

(** C10.  When the text of a readable file contains
    [parseStandardPaginationParams] or [getRequestId] anywhere,
    [migrate_endpoint] returns [True] and leaves the files and the record
    of writes as they were: it prints the two lines and does nothing else.
    This holds also for a text that the transformations would still
    change, such as [half_migrated]. *)
Theorem migrate_early_exit :
  (forall (p : str) (w : world) (f : file),
     files w p = Some f -> readable f = true ->
     Py.contains "parseStandardPaginationParams" (text f) = true \/
     Py.contains "getRequestId" (text f) = true ->
     MigrateEndpoints.migrate_endpoint p w =
       (Done true,
        mkWorld (files w) (reads w ++ [p]) (writes w)
                (console w ++ [Processing p; AlreadyDone p]) (stat_error w))) /\
  (Py.contains "getRequestId" half_migrated = true /\
   MigrateEndpoints.transform half_migrated <> half_migrated).
Proof.
  split.
  - intros p w f Hf Hr Hc.
    assert (Ha : MigrateEndpoints.already_migrated (text f) = true).
    { unfold MigrateEndpoints.already_migrated. apply orb_true_iff. exact Hc. }
    unfold MigrateEndpoints.migrate_endpoint. run.
    rewrite Hf. simpl. rewrite Hf. simpl. rewrite Hr. simpl. rewrite Ha. simpl.
    rewrite <- app_assoc. reflexivity.
  - split; [vm_compute; reflexivity | vm_compute; discriminate].
Qed.

Lemma migrate_early_exit_witness :
  MigrateEndpoints.migrate_endpoint "a/route.ts"
    (one_file "a/route.ts" (mkFile true true half_migrated)) =
  (Done true,
   mkWorld (files (one_file "a/route.ts" (mkFile true true half_migrated)))
           ["a/route.ts"] []
           [Processing "a/route.ts"; AlreadyDone "a/route.ts"] (fun _ => false)).
Proof.
  apply (proj1 migrate_early_exit "a/route.ts"
           (one_file "a/route.ts" (mkFile true true half_migrated))
           (mkFile true true half_migrated)).
  - reflexivity.
  - reflexivity.
  - right. vm_compute. reflexivity.
Defined.

Transparent ApplyPhase1Standards.transform UpdatePhase1Endpoints.transform
  UpdatePhase1Endpoints.already_updated MigrateEndpoints.transform
  ApplyRbac.transform str_eqb.

(* ================================================================== *)
(** * Names without pattern syntax

    The scripts put a method name, a handler name or a resource into the
    text of a pattern as it is.  The facts below are about names made of
    word characters, for which the pattern reads the name literally. *)

Lemma word_not_space (c : ascii) : is_word c = true -> is_space c = false.
Proof. destruct c as [[] [] [] [] [] [] [] []]; vm_compute; congruence. Qed.

Lemma word_not_closing (c : ascii) : is_word c = true -> not_closing c = true.
Proof. destruct c as [[] [] [] [] [] [] [] []]; vm_compute; congruence. Qed.

Lemma name_not_closing (name : str) :
  forallb is_word name = true -> forallb not_closing name = true.
Proof.
  rewrite !forallb_forall. intros H c Hc. apply word_not_closing. now apply H.
Qed.

Lemma name_stops (name : str) :
  forallb is_word name = true -> stops is_space name = true.
Proof.
  destruct name as [|c name]; [reflexivity|]. cbn [forallb stops]. intros H.
  apply andb_true_iff in H. destruct H as [H _]. now rewrite word_not_space.
Qed.

(* ================================================================== *)
(** * Rules that recognise their own output *)

(** When every replacement holds the text [x], [re.sub] either changes
    nothing or leaves a text that holds [x]. *)
Lemma sub_go_marks (r : Re.regex) (repl : str -> Re.caps -> str) (x : str) :
  (forall m g, Py.contains x (repl m g) = true) ->
  forall s lim bol skip,
    Re.sub_go r repl lim bol skip s = skipn skip s \/
    Py.contains x (Re.sub_go r repl lim bol skip s) = true.
Proof.
  intros Hx. induction s as [|c s IH]; intros lim bol skip.
  - destruct skip as [|k]; [|now left].
    cbn [Re.sub_go].
    destruct (if Re.exhausted lim then None else Re.match_at r bol [])
      as [[n g]|]; [|now left].
    right. apply contains_app_r, Hx.
  - destruct skip as [|k].
    + cbn [Re.sub_go].
      destruct (if Re.exhausted lim then None else Re.match_at r bol (c :: s))
        as [[n g]|].
      * right. apply contains_app_r, Hx.
      * destruct (IH lim (is_nl c) 0) as [E|E].
        -- left. cbn [skipn] in *. now rewrite E.
        -- right. now apply contains_cons.
    + cbn [Re.sub_go skipn]. apply IH.
Qed.

(** [add_rate_limiting] either leaves the content as it is or leaves a
    content that holds the call of the tracker. *)
Lemma add_rate_limiting_marks (content method : str) :
  UpdatePhase1Endpoints.add_rate_limiting content method = content \/
  Py.contains "globalRateLimitTracker.trackRequest"
    (UpdatePhase1Endpoints.add_rate_limiting content method) = true.
Proof.
  unfold UpdatePhase1Endpoints.add_rate_limiting.
  destruct (Re.search _ content) as [[[a e] g]|]; [|now left].
  destruct (Py.contains _ content); [now left|].
  destruct (UpdatePhase1Endpoints.get _ method _) as [limit window].
  right. apply contains_app_l, contains_app_r.
  unfold UpdatePhase1Endpoints.rate_limit_code.
  apply contains_app_l, contains_app_l, contains_app_r.
  vm_compute. reflexivity.
Qed.

Lemma add_rate_limiting_marked (content method : str) :
  Py.contains "globalRateLimitTracker.trackRequest" content = true ->
  UpdatePhase1Endpoints.add_rate_limiting content method = content.
Proof.
  intros Hc. unfold UpdatePhase1Endpoints.add_rate_limiting.
  destruct (Re.search _ content) as [[[a e] g]|]; [now rewrite Hc | reflexivity].
Qed.

(** X1.  [update_method_handler] of update-phase1-endpoints recognises its
    own output.  For a method name of word characters and every content,
    a second call on the result of a first one changes nothing;
    and the first call either changes nothing or inserts the
    initialisation of [requestId] and [startTime] right after the opening
    [export async function M (...) {] of a handler of the method, the
    text before and after it kept as it is. *)
Theorem method_handler_settles (content method : str) (is_list_endpoint : bool) :
  forallb is_word method = true ->
  let once := UpdatePhase1Endpoints.update_method_handler content method is_list_endpoint in
  UpdatePhase1Endpoints.update_method_handler once method is_list_endpoint = once /\
  (once = content \/
   exists pre params blank rest,
     content = pre ++ params ++ ")" ++ blank ++ "{" ++ rest /\
     once = pre ++ params ++ ")" ++ blank ++ "{" ++ UpdatePhase1Endpoints.phase1_init ++ rest /\
     Py.startswith ("export async function " ++ method) params = true /\
     forallb is_space blank = true).
Proof.
  intros Hw. pose proof (name_not_closing _ Hw) as Hm. cbv zeta. split.
  - now apply update_method_handler_idempotent.
  - unfold UpdatePhase1Endpoints.update_method_handler.
    destruct (Re.search _ content) as [[[s e] g]|] eqn:Es; [|now left].
    destruct (Py.contains _ (Py.slice _ _ _)); [now left|]. right.
    destruct (search_from_inv _ _ _ _ _ _ Es) as (Hs & Hse & [b Hmatch] & _).
    rewrite method_match_eq in Hmatch.
    destruct (after_opening method (skipn s content)) as [r|] eqn:Ea; [|discriminate].
    injection Hmatch as Hlen.
    destruct (after_opening_inv _ _ _ Ea) as (a & w2 & Ht & Hw2).
    assert (Hhead : Py.startswith ("export async function " ++ method) (skipn s content) = true).
    { unfold after_opening in Ea.
      destruct (Py.startswith _ (skipn s content)); [reflexivity|discriminate]. }
    assert (Hc : content = firstn s content ++ a ++ ")" ++ w2 ++ "{" ++ r).
    { rewrite <- (firstn_skipn s content) at 1. now rewrite Ht. }
    assert (He : e = length (firstn s content ++ a ++ ")" ++ w2 ++ "{")).
    { rewrite Ht in Hlen. rewrite length_app, firstn_length_le by exact Hs.
      cbn [app] in *. rewrite !length_app in *. cbn [length] in *.
      rewrite !length_app in *. cbn [length] in *. lia. }
    exists (firstn s content), a, w2, r. splits.
    + exact Hc.
    + set (P := firstn s content) in *. clearbody P. subst e.
      rewrite Hc at 1 2.
      replace (P ++ a ++ ")" ++ w2 ++ "{" ++ r) with ((P ++ a ++ ")" ++ w2 ++ "{") ++ r).
      2: { rewrite <- !app_assoc. reflexivity. }
      rewrite firstn_app, firstn_all, Nat.sub_diag, skipn_app, skipn_all, Nat.sub_diag.
      cbn [firstn skipn]. rewrite app_nil_r, <- !app_assoc. reflexivity.
    + rewrite Ht in Hhead.
      rewrite startswith_before in Hhead.
      * apply andb_true_iff in Hhead. apply Hhead.
      * rewrite forallb_app, Hm. reflexivity.
    + exact Hw2.
Qed.

Lemma method_handler_settles_witness :
  UpdatePhase1Endpoints.update_method_handler
    (UpdatePhase1Endpoints.update_method_handler plain_get "GET" true) "GET" true
  = UpdatePhase1Endpoints.update_method_handler plain_get "GET" true.
Proof.
  apply (method_handler_settles plain_get "GET" true). reflexivity.
Defined.

(** X2.  [add_rate_limiting] of update-phase1-endpoints recognises its own
    output: on every content and for every method a second call changes
    nothing, and a content that already calls the tracker is never
    changed. *)
Theorem rate_limiting_settles (content method : str) :
  UpdatePhase1Endpoints.add_rate_limiting
    (UpdatePhase1Endpoints.add_rate_limiting content method) method
  = UpdatePhase1Endpoints.add_rate_limiting content method /\
  (Py.contains "globalRateLimitTracker.trackRequest" content = true ->
   UpdatePhase1Endpoints.add_rate_limiting content method = content).
Proof.
  split; [|apply add_rate_limiting_marked].
  destruct (add_rate_limiting_marks content method) as [E|E].
  - now rewrite !E.
  - now apply add_rate_limiting_marked.
Qed.

Lemma rate_limiting_settles_witness :
  UpdatePhase1Endpoints.add_rate_limiting rate_checked "DELETE" = rate_checked.
Proof.
  apply (proj2 (rate_limiting_settles rate_checked "DELETE")). vm_compute. reflexivity.
Defined.

Lemma add_correlation_marks (content handler_name : str) :
  MigrateEndpoints.add_request_correlation_to_handler content handler_name = content \/
  Py.contains "const requestId = getRequestId(request)"
    (MigrateEndpoints.add_request_correlation_to_handler content handler_name) = true.
Proof.
  unfold MigrateEndpoints.add_request_correlation_to_handler.
  destruct (Py.contains "const requestId = getRequestId(request)" content) eqn:Ec;
    [now left|].
  unfold Re.sub.
  match goal with |- context [Re.sub_go ?r ?f ?lim ?bol 0 content] =>
    assert (Hx : forall m g,
               Py.contains "const requestId = getRequestId(request)" (f m g) = true)
      by (intros m g; cbv beta; apply contains_app_l; vm_compute; reflexivity);
    destruct (sub_go_marks r f _ Hx content lim bol 0) as [E|E]
  end.
  - left. exact E.
  - right. exact E.
Qed.

(** X3.  [add_request_correlation_to_handler] of migrate-endpoints
    recognises its own output: on every content and for every handler
    name of word characters a second call changes nothing. *)
Theorem request_correlation_settles (content handler_name : str) :
  forallb is_word handler_name = true ->
  MigrateEndpoints.add_request_correlation_to_handler
    (MigrateEndpoints.add_request_correlation_to_handler content handler_name) handler_name
  = MigrateEndpoints.add_request_correlation_to_handler content handler_name.
Proof.
  intros _.
  destruct (add_correlation_marks content handler_name) as [E|E]; [now rewrite !E|].
  unfold MigrateEndpoints.add_request_correlation_to_handler at 1. now rewrite E.
Qed.

Lemma request_correlation_settles_witness :
  MigrateEndpoints.add_request_correlation_to_handler
    (MigrateEndpoints.add_request_correlation_to_handler plain_get "GET") "GET"
  = MigrateEndpoints.add_request_correlation_to_handler plain_get "GET".
Proof.
  apply (request_correlation_settles plain_get "GET"). reflexivity.
Defined.

(** [add_import] changes the content by one insertion at most. *)
Lemma add_import_shape (content : str) :
  ApplyRbac.add_import content = content \/
  exists pos, ApplyRbac.add_import content
              = firstn pos content ++ ApplyRbac.new_import ++ skipn pos content.
Proof.
  unfold ApplyRbac.add_import.
  destruct (ApplyRbac.should_add_import content); [|now left].
  destruct (rev (Re.finditer ApplyRbac.import_pattern content)) as [|[[a pos] g] l];
    [now left|right; now exists pos].
Qed.

(** X4.  [add_import] of apply-rbac recognises its own output: on every
    content a second call changes nothing, and the content is changed
    only by putting the import of [requirePermission], as a line of its
    own, at one place. *)
Theorem add_import_settles (content : str) :
  ApplyRbac.add_import (ApplyRbac.add_import content) = ApplyRbac.add_import content /\
  (ApplyRbac.add_import content = content \/
   exists pos, ApplyRbac.add_import content
               = firstn pos content ++ ApplyRbac.new_import ++ skipn pos content).
Proof.
  split; [|apply add_import_shape].
  destruct (add_import_shape content) as [E|[pos E]]; [now rewrite !E|].
  rewrite E. unfold ApplyRbac.add_import, ApplyRbac.should_add_import.
  replace (Py.contains "requirePermission"
             (firstn pos content ++ ApplyRbac.new_import ++ skipn pos content))
    with true; [reflexivity|].
  symmetry. apply contains_app_l, contains_app_r. vm_compute. reflexivity.
Qed.

(* ================================================================== *)
(** * What [str.replace] leaves behind *)

Lemma may_start_false (l t y : str) :
  may_start l t = false -> Py.startswith l (t ++ y) = false.
Proof.
  unfold may_start. destruct (length l <=? length t) eqn:E; intros H.
  - apply Nat.leb_le in E. now rewrite startswith_app_long.
  - apply Nat.leb_gt in E. rewrite startswith_app_short by lia. now rewrite H.
Qed.

Lemma contains_false_app (x a b : str) :
  (forall i, i < length a -> Py.startswith x (skipn i a ++ b) = false) ->
  Py.contains x b = false -> Py.contains x (a ++ b) = false.
Proof.
  induction a as [|c a IH]; intros H Hb; [exact Hb|].
  pose proof (H 0 ltac:(cbn [length]; lia)) as H0. cbn [skipn app] in H0.
  cbn [app Py.contains]. rewrite H0. cbn [orb].
  apply IH; [|exact Hb].
  intros i Hi. apply (H (S i)). cbn [length]. lia.
Qed.

Lemma replace_nonempty (old new s : str) :
  old <> [] -> Py.replace old new s = Py.replace_go old new 0 s.
Proof. destruct old; [congruence|reflexivity]. Qed.

(** A text [x] that occurs in [s] only where [old] does, and that cannot
    start inside [new] or end at the head of [new], does not occur in the
    result of the replacement. *)
Lemma replace_go_clean (x old new : str) :
  x <> [] -> old <> [] -> no_start x new = true -> no_tail_start x new = true ->
  forall n s u,
    length s <= n ->
    (forall j, Py.startswith x (skipn j s) = true -> Py.startswith old (skipn j s) = true) ->
    (forall i, i < length u -> Py.startswith x (skipn i u ++ s) = false) ->
    Py.contains x (u ++ Py.replace_go old new 0 s) = false.
Proof.
  intros Hx Hold Hin Htail.
  induction n as [|n IH]; intros s u Hn Hocc Hu.
  - destruct s; [|cbn [length] in Hn; lia].
    apply contains_false_app; [exact Hu|]. destruct x; [congruence|reflexivity].
  - destruct s as [|c s].
    { apply contains_false_app; [exact Hu|]. destruct x; [congruence|reflexivity]. }
    destruct (Py.startswith old (c :: s)) eqn:E.
    + destruct (startswith_inv _ _ E) as [t Ht]. rewrite Ht in *.
      rewrite replace_go_hit by exact Hold.
      assert (Hlt : length t <= n).
      { rewrite length_app in Hn. destruct old; [congruence|]. cbn [length] in Hn. lia. }
      apply contains_false_app.
      * intros i Hi. specialize (Hu i Hi).
        destruct (le_lt_dec (length x) (length (skipn i u))) as [Hl|Hl].
        -- rewrite startswith_app_long in * by exact Hl. exact Hu.
        -- rewrite startswith_app_short by lia.
           apply andb_false_iff. right.
           apply may_start_false.
           unfold no_tail_start in Htail.
           apply (forallb_seq _ 1 (length x - 1) (length (skipn i u))) in Htail.
           ++ now apply negb_true_iff in Htail.
           ++ rewrite length_skipn in *. lia.
      * apply contains_false_app; [intros j Hj; now apply clear_inside|].
        apply (IH t []); [exact Hlt| |intros i Hi; cbn [length] in Hi; lia].
        intros j Hj. specialize (Hocc (length old + j)).
        rewrite skipn_app, skipn_all2 in Hocc by lia.
        replace (length old + j - length old) with j in Hocc by lia.
        now apply Hocc.
    + rewrite replace_go_miss by exact E.
      replace (u ++ c :: Py.replace_go old new 0 s)
        with ((u ++ [c]) ++ Py.replace_go old new 0 s) by now rewrite <- app_assoc.
      apply IH.
      * cbn [length] in Hn. lia.
      * intros j Hj. now apply (Hocc (S j)).
      * intros i Hi. rewrite length_app in Hi. cbn [length] in Hi.
        destruct (Nat.eq_dec i (length u)) as [->|Hne].
        -- rewrite skipn_app, skipn_all, Nat.sub_diag. cbn [skipn app].
           destruct (Py.startswith x (c :: s)) eqn:Ex; [|reflexivity].
           specialize (Hocc 0 Ex). cbn [skipn] in Hocc. congruence.
        -- rewrite skipn_app_lt by lia. rewrite <- app_assoc. apply Hu. lia.
Qed.

Lemma replace_clean (x old new s : str) :
  x <> [] -> old <> [] -> no_start x new = true -> no_tail_start x new = true ->
  (forall j, Py.startswith x (skipn j s) = true -> Py.startswith old (skipn j s) = true) ->
  Py.contains x (Py.replace old new s) = false.
Proof.
  intros Hx Hold Hin Htail Hocc. rewrite replace_nonempty by exact Hold.
  apply (replace_go_clean x old new Hx Hold Hin Htail (length s) s []);
    [lia|exact Hocc|].
  intros i Hi. cbn [length] in Hi. lia.
Qed.

(** X5.  After [replace_pagination_calls] of apply-phase1-standards no
    call of either legacy pagination function is left, whatever the
    content: neither [parsePaginationParams(] nor [buildPagedResponse(]
    occurs in the result. *)
Theorem no_legacy_pagination_call (content : str) :
  Py.contains "parsePaginationParams("
    (ApplyPhase1Standards.replace_pagination_calls content) = false /\
  Py.contains "buildPagedResponse("
    (ApplyPhase1Standards.replace_pagination_calls content) = false.
Proof.
  unfold ApplyPhase1Standards.replace_pagination_calls.
  assert (H1 : Py.contains "parsePaginationParams("
                 (Py.replace "parsePaginationParams(" "parseStandardPaginationParams(" content)
               = false).
  { apply replace_clean; try discriminate; try (vm_compute; reflexivity). auto. }
  split.
  - apply replace_clean; try discriminate; try (vm_compute; reflexivity).
    intros j Hj. rewrite contains_false_at in Hj by exact H1. discriminate.
  - apply replace_clean; try discriminate; try (vm_compute; reflexivity). auto.
Qed.

(* ================================================================== *)
(** * The error rule of apply-phase1-standards *)

Section Subx.
Import Re.
Variables (l : str) (r : regex) (repl : str -> caps -> outcome str).
Hypothesis Hh : heads l r.

Lemma subx_go_skip (lim : option nat) (m rest : str) :
  forall bol, subx_go r repl lim bol (length m) (m ++ rest)
              = subx_go r repl lim (eol bol m) 0 rest.
Proof.
  induction m as [|c m IH]; intros bol; [reflexivity|].
  cbn [length app subx_go eol]. apply IH.
Qed.

Lemma subx_go_head_clear (lim : option nat) (u v : str) :
  (forall i, i < length u -> Py.startswith l (skipn i u ++ v) = false) ->
  forall bol, subx_go r repl lim bol 0 (u ++ v)
              = match subx_go r repl lim (eol bol u) 0 v with
                | Done t => Done (u ++ t)
                | Raised e => Raised e
                end.
Proof.
  induction u as [|c u IH]; intros H bol.
  - cbn [app eol]. now destruct (subx_go r repl lim bol 0 v).
  - pose proof (H 0 ltac:(cbn [length]; lia)) as H0. cbn [skipn app] in H0.
    cbn [app eol subx_go].
    replace (if exhausted lim then None else match_at r bol (c :: u ++ v))
      with (@None (nat * caps))
      by (destruct (exhausted lim); [reflexivity|symmetry; now apply Hh]).
    rewrite IH.
    + now destruct (subx_go r repl lim (eol (is_nl c) u) 0 v).
    + intros i Hi. apply (H (S i)). cbn [length]. lia.
Qed.

Lemma subx_go_head_absent (lim : option nat) (s : str) :
  l <> [] -> Py.contains l s = false ->
  forall bol, subx_go r repl lim bol 0 s = Done s.
Proof.
  intros Hl Hc bol.
  rewrite <- (app_nil_r s) at 1. rewrite subx_go_head_clear.
  - cbn [subx_go].
    replace (if exhausted lim then None else match_at r (eol bol s) [])
      with (@None (nat * caps)).
    + now rewrite app_nil_r.
    + destruct (exhausted lim); [reflexivity|]. symmetry. apply Hh.
      destruct l; [congruence|reflexivity].
  - intros i Hi. rewrite app_nil_r. now apply contains_false_at.
Qed.

Lemma subx_go_match (lim : option nat) (bol : bool) (m rest : str) (g : caps) :
  m <> [] -> exhausted lim = false ->
  match_at r bol (m ++ rest) = Some (length m, g) ->
  subx_go r repl lim bol 0 (m ++ rest)
  = match repl m g with
    | Raised e => Raised e
    | Done t =>
        match subx_go r repl (spend lim) (eol bol m) 0 rest with
        | Raised e => Raised e
        | Done u => Done (t ++ u)
        end
    end.
Proof.
  intros Hm Hex Hmatch. destruct m as [|c m]; [congruence|].
  cbn [app] in *. cbn [subx_go]. rewrite Hex, Hmatch.
  change (c :: m ++ rest) with ((c :: m) ++ rest).
  rewrite firstn_app, firstn_all, Nat.sub_diag. cbn [firstn]. rewrite app_nil_r.
  cbn [length eol]. now rewrite subx_go_skip.
Qed.
End Subx.

Lemma search_head_absent (l : str) (r : Re.regex) :
  heads l r -> l <> [] ->
  forall s bol, Py.contains l s = false -> Re.search_from r bol s = None.
Proof.
  intros Hh Hl. induction s as [|c s IH]; intros bol Hc.
  - cbn [Re.search_from]. rewrite Hh; [reflexivity|]. destruct l; [congruence|reflexivity].
  - cbn [Re.search_from]. rewrite Hh by now apply contains_false_head.
    cbn [Py.contains] in Hc. apply orb_false_iff in Hc. destruct Hc as [_ Hc].
    now rewrite IH.
Qed.

Lemma contains_char (c : ascii) (s : str) :
  Py.contains [c] s = existsb (Ascii.eqb c) s.
Proof.
  induction s as [|b s IH]; [reflexivity|].
  cbn [Py.contains Py.startswith existsb]. now rewrite IH, andb_true_r.
Qed.

Lemma plain_arg (arg : str) :
  forallb plain_char arg = true ->
  forallb not_closing arg = true /\
  forallb (fun c => negb (one_of "'" c)) arg = true /\
  Py.contains "'" arg = false.
Proof.
  rewrite contains_char.
  induction arg as [|c arg IH]; intros H; [now splits|].
  cbn [forallb existsb] in *. apply andb_true_iff in H. destruct H as [Hc H].
  destruct (IH H) as (H1 & H2 & H3). rewrite H1, H2, H3.
  unfold plain_char, not_closing in *. cbn [one_of] in *.
  rewrite (Ascii.eqb_sym "'" c).
  destruct (Ascii.eqb c ")"), (Ascii.eqb c "'"); try discriminate. now splits.
Qed.

(** A repetition of a class takes nothing where the text does not start
    with a character of the class. *)
Lemma rx_star_cls_stop (R : Type) (p : ascii -> bool) bol (s : str) g
    (k : bool -> str -> Re.caps -> option R) :
  stops p s = true -> Re.rx (Re.star (Re.Cls p)) bol s g k = k bol s g.
Proof. intros Hs. now apply (rx_star_cls R p [] bol s g k). Qed.

(** The pattern of the error rule matches the legacy call whole. *)
Lemma internal_error_match (arg post : str) (bol : bool) :
  arg <> [] -> forallb not_closing arg = true ->
  Re.match_at ApplyPhase1Standards.internal_error_rx bol (legacy_internal_error arg ++ post)
  = Some (length (legacy_internal_error arg), []).
Proof.
  intros Ha Hf.
  unfold Re.match_at, ApplyPhase1Standards.internal_error_rx, legacy_internal_error.
  rewrite <- !app_assoc.
  change ("errorResponse(internalServerErrorProblem(" ++ arg ++ "))" ++ post)
    with ("errorResponse(" ++ "internalServerErrorProblem(" ++ arg ++ ")" ++ ")" ++ post).
  rewrite rx_cat_cons, rx_lit_app.
  unfold Re.ws.
  rewrite rx_cat_cons, rx_star_cls_stop by reflexivity.
  rewrite rx_cat_cons, rx_lit_app.
  rewrite rx_cat_cons. apply rx_plus_cls_all; [exact Ha|exact Hf|reflexivity|].
  rewrite rx_cat_cons, rx_lit_app.
  rewrite rx_cat_cons, rx_star_cls_stop by reflexivity.
  rewrite rx_cat_cons, rx_lit_app, rx_cat_nil.
  f_equal. f_equal. rewrite !length_app. cbn [length]. lia.
Qed.

Lemma heads_internal_error :
  heads "errorResponse(" ApplyPhase1Standards.internal_error_rx.
Proof. apply heads_cat. Qed.

Lemma legacy_internal_error_clear (pre arg post : str) :
  Py.contains "errorResponse(" pre = false ->
  forall i, i < length pre ->
    Py.startswith "errorResponse(" (skipn i pre ++ legacy_internal_error arg ++ post) = false.
Proof.
  intros Hpre i Hi. unfold legacy_internal_error. rewrite <- !app_assoc.
  apply clear_before; auto; try (vm_compute; reflexivity); vm_compute; lia.
Qed.



(** The search of the replacement finds the first quoted text of the
    call. *)
Lemma quoted_search (msg : str) :
  msg <> [] -> forallb (fun c => negb (one_of "'" c)) msg = true ->
  exists a e,
    Re.search ApplyPhase1Standards.quoted_rx (legacy_internal_error ("'" ++ msg ++ "'"))
    = Some (a, e, [(1, msg)]).
Proof.
  intros Hm Hf. unfold Re.search, legacy_internal_error.
  set (head := "errorResponse(internalServerErrorProblem(").
  exists (length head). eexists.
  apply search_from_intro.
  - rewrite length_app. lia.
  - intros i b Hi. apply (heads_cat "'").
    rewrite skipn_app_lt by lia. apply clear_inside; [reflexivity|exact Hi].
  - intros b. rewrite skipn_app, skipn_all, Nat.sub_diag. cbn [skipn].
    rewrite app_nil_l, <- !app_assoc.
    unfold Re.match_at, ApplyPhase1Standards.quoted_rx.
    rewrite rx_cat_cons, rx_lit_app.
    rewrite rx_cat_cons. apply rx_grp_plus_cls_all; [exact Hm|exact Hf|reflexivity|].
    rewrite rx_cat_cons, rx_lit_app, rx_cat_nil. reflexivity.
Qed.

(** X7.  On a content whose only legacy error call has a single-quoted
    message as argument, [replace_error_responses] of
    apply-phase1-standards returns, and puts the standard call with the
    code [INTERNAL_ERROR], the status 500 and [requestId] in the place of
    the legacy one; the message is put there as the text between the
    quotes, without the quotes. *)
Theorem quoted_error_replaced (pre msg post : str) :
  Py.contains "errorResponse(" pre = false ->
  Py.contains "errorResponse(" post = false ->
  msg <> [] -> forallb plain_char msg = true ->
  ApplyPhase1Standards.replace_error_responses
    (pre ++ legacy_internal_error ("'" ++ msg ++ "'") ++ post)
  = Done (pre ++ "standardErrorResponse(ErrorCodes.INTERNAL_ERROR, " ++ msg
              ++ ", 500, undefined, requestId)" ++ post).
Proof.
  intros Hpre Hpost Hm Hf. destruct (plain_arg _ Hf) as (Hclose & Hquote & _).
  unfold ApplyPhase1Standards.replace_error_responses, Re.subx. cbn [Re.limit].
  rewrite (subx_go_head_clear _ _ _ heads_internal_error)
    by now apply legacy_internal_error_clear.
  rewrite (subx_go_match ApplyPhase1Standards.internal_error_rx _ None _
             (legacy_internal_error ("'" ++ msg ++ "'")) post []);
    [| unfold legacy_internal_error; discriminate | reflexivity |].
  2: { apply internal_error_match; [discriminate|].
       rewrite !forallb_app, Hclose. reflexivity. }
  destruct (quoted_search msg Hm Hquote) as (a & e & ->).
  rewrite (subx_go_head_absent _ _ _ heads_internal_error) by (discriminate || exact Hpost).
  cbn [Re.group Nat.eqb]. now rewrite <- !app_assoc.
Qed.

Lemma quoted_error_replaced_witness :
  ApplyPhase1Standards.replace_error_responses
    ("    return " ++ legacy_internal_error "'Failed to fetch guides'" ++ ";")
  = Done "    return standardErrorResponse(ErrorCodes.INTERNAL_ERROR, Failed to fetch guides, 500, undefined, requestId);".
Proof.
  apply (quoted_error_replaced "    return " "Failed to fetch guides" ";").
  - vm_compute. reflexivity.
  - vm_compute. reflexivity.
  - discriminate.
  - vm_compute. reflexivity.
Defined.

(* ================================================================== *)
(** * The resource of a route file *)

Lemma split_go_skip (sep m rest : str) :
  Py.split_go sep (length m) (m ++ rest) = Py.split_go sep 0 rest.
Proof.
  induction m as [|c m IH]; [reflexivity|]. simpl. exact IH.
Qed.

Lemma split_go_hit (sep t : str) :
  sep <> [] ->
  Py.split_go sep 0 (sep ++ t) = ([], Py.split sep t).
Proof.
  intros Hne. destruct sep as [|o sep]; [congruence|].
  cbn [app Py.split_go].
  change (o :: sep ++ t) with ((o :: sep) ++ t). rewrite startswith_app.
  replace (length (o :: sep) - 1) with (length sep) by (simpl; lia).
  now rewrite split_go_skip.
Qed.

(** The first piece of [split] is the text before the first separator. *)
Lemma split_hd (sep s : str) : hd [] (Py.split sep s) = before sep s.
Proof.
  unfold Py.split. induction s as [|c s IH]; [reflexivity|].
  cbn [Py.split_go before].
  destruct (Py.startswith sep (c :: s)); [reflexivity|].
  destruct (Py.split_go sep 0 s) as [p ps]. cbn [hd] in *. now rewrite IH.
Qed.

(** [split] at the first occurrence of the separator. *)
Lemma split_find (sep : str) :
  sep <> [] ->
  forall s n, Py.find sep s = Some n ->
    Py.split sep s = firstn n s :: Py.split sep (skipn (n + length sep) s).
Proof.
  intros Hne. induction s as [|c s IH]; intros n Hf; cbn [Py.find] in Hf.
  - destruct sep; [congruence|discriminate].
  - destruct (Py.startswith sep (c :: s)) eqn:E.
    + injection Hf as <-. destruct (startswith_inv _ _ E) as [t Ht]. rewrite Ht.
      unfold Py.split at 1. rewrite split_go_hit by exact Hne.
      cbn [firstn Nat.add]. now rewrite skipn_app, skipn_all, Nat.sub_diag.
    + destruct (Py.find sep s) as [m|] eqn:F; [|discriminate].
      injection Hf as <-. specialize (IH m eq_refl).
      unfold Py.split in *. cbn [Py.split_go]. rewrite E.
      destruct (Py.split_go sep 0 s) as [p ps].
      injection IH as -> ->. reflexivity.
Qed.

Lemma find_intro (x s : str) :
  forall n,
    n <= length s ->
    (forall i, i < n -> Py.startswith x (skipn i s) = false) ->
    Py.startswith x (skipn n s) = true ->
    Py.find x s = Some n.
Proof.
  induction s as [|c s IH]; intros n Hn Hno Hyes.
  - assert (n = 0) by (simpl in Hn; lia). subst n.
    cbn [skipn] in Hyes. cbn [Py.find]. now rewrite Hyes.
  - destruct n as [|n].
    + cbn [skipn] in Hyes. cbn [Py.find]. now rewrite Hyes.
    + pose proof (Hno 0 (Nat.lt_0_succ n)) as H0. cbn [skipn] in H0.
      cbn [Py.find]. rewrite H0.
      rewrite (IH n); [reflexivity|simpl in Hn; lia| |exact Hyes].
      intros i Hi. apply (Hno (S i)). lia.
Qed.

Lemma before_char (x : ascii) (t : str) :
  before [x] t = take_while (fun c => negb (Ascii.eqb x c)) t.
Proof.
  induction t as [|c t IH]; [reflexivity|].
  cbn [before take_while Py.startswith]. rewrite andb_true_r.
  destruct (Ascii.eqb x c); [reflexivity|]. cbn [negb]. now rewrite IH.
Qed.

(** Cutting a text before a separator that starts with [x] does not
    change what lies before the first [x]. *)
Lemma before_char_before (x : ascii) (b t : str) :
  Py.startswith [x] b = true -> before [x] (before b t) = before [x] t.
Proof.
  intros Hb. induction t as [|c t IH]; [reflexivity|].
  cbn [before]. destruct (Py.startswith b (c :: t)) eqn:E.
  - now rewrite (startswith_trans _ _ _ Hb E).
  - cbn [before Py.startswith]. rewrite andb_true_r.
    destruct (Ascii.eqb x c); [reflexivity|]. now rewrite IH.
Qed.

Lemma take_while_app_stop (p : ascii -> bool) (a s : str) :
  forallb p a = true -> stops p s = true -> take_while p (a ++ s) = a.
Proof.
  intros Ha Hs. induction a as [|c a IH].
  - destruct s as [|c s]; [reflexivity|]. cbn in *.
    apply negb_true_iff in Hs. now rewrite Hs.
  - cbn [forallb] in Ha. apply andb_true_iff in Ha. destruct Ha as [Hc Ha].
    cbn [app take_while]. rewrite Hc. now rewrite IH.
Qed.

(** The segment [get_resource_from_path] looks at is the text between the
    first [/api/] and the next slash. *)
Lemma api_segment_find (p : str) (n : nat) :
  Py.find "/api/" p = Some n ->
  ApplyRbac.api_segment p = take_while not_slash (skipn (n + 5) p).
Proof.
  intros Hf. unfold ApplyRbac.api_segment.
  rewrite (split_find "/api/") with (n := n) by (discriminate || exact Hf).
  cbn [nth]. change (length "/api/") with 5.
  replace (nth 0 (Py.split "/api/" (skipn (n + 5) p)) [])
    with (hd [] (Py.split "/api/" (skipn (n + 5) p)))
    by (now destruct (Py.split "/api/" (skipn (n + 5) p))).
  rewrite !split_hd, before_char_before by reflexivity.
  apply before_char.
Qed.

Lemma api_segment_shape (dir seg rest : str) :
  Py.contains "/api" dir = false ->
  forallb not_slash seg = true ->
  Py.contains "/api/" (dir ++ "/api/" ++ seg ++ "/" ++ rest) = true /\
  ApplyRbac.api_segment (dir ++ "/api/" ++ seg ++ "/" ++ rest) = seg.
Proof.
  intros Hdir Hseg. split.
  - apply contains_app_l, startswith_contains, startswith_app.
  - rewrite (api_segment_find _ (length dir)).
    + replace (dir ++ "/api/" ++ seg ++ "/" ++ rest)
        with ((dir ++ "/api/") ++ seg ++ "/" ++ rest) by now rewrite <- app_assoc.
      replace (length dir + 5) with (length (dir ++ "/api/"))
        by (rewrite length_app; reflexivity).
      rewrite skipn_app, skipn_all, Nat.sub_diag. cbn [skipn].
      rewrite app_nil_l. now apply take_while_app_stop.
    + apply find_intro.
      * rewrite length_app. lia.
      * intros i Hi. rewrite skipn_app_lt by lia.
        destruct (Py.startswith "/api/" (skipn i dir ++ "/api/" ++ seg ++ "/" ++ rest))
          eqn:E; [|reflexivity].
        assert (H4 : Py.startswith "/api" (skipn i dir ++ "/api/" ++ seg ++ "/" ++ rest) = true)
          by (apply (startswith_trans "/api" "/api/"); [reflexivity|exact E]).
        rewrite clear_before in H4; auto; try (vm_compute; reflexivity); vm_compute; lia.
      * rewrite skipn_app, skipn_all, Nat.sub_diag. cbn [skipn].
        rewrite app_nil_l. apply startswith_app.
Qed.

(** X12.  [get_resource_from_path] of apply-rbac decides by the path
    segment that follows the first [/api/] alone: for a path
    [dir/api/seg/rest], where [/api] does not occur in [dir] and [seg]
    holds no slash, the result is [None] when [/api/seg] holds an entry of
    [SKIP_PATHS], and what [RESOURCE_MAP] gives for [/api/seg] otherwise,
    whatever [dir] and [rest] are. *)
Theorem resource_of_segment (dir seg rest : str) :
  Py.contains "/api" dir = false ->
  forallb not_slash seg = true ->
  ApplyRbac.get_resource_from_path (dir ++ "/api/" ++ seg ++ "/" ++ rest)
  = if existsb (fun skip => Py.contains skip ("/api/" ++ seg)) ApplyRbac.SKIP_PATHS
    then None
    else ApplyRbac.dict_get ApplyRbac.RESOURCE_MAP ("/api/" ++ seg).
Proof.
  intros Hdir Hseg. unfold ApplyRbac.get_resource_from_path.
  destruct (api_segment_shape dir seg rest Hdir Hseg) as [-> ->]. reflexivity.
Qed.

Lemma resource_of_segment_witness :
  ApplyRbac.get_resource_from_path "src/app/api/hotels/[id]/route.ts" = Some "providers".
Proof.
  apply (resource_of_segment "src/app" "hotels" "[id]/route.ts").
  - vm_compute. reflexivity.
  - vm_compute. reflexivity.
Defined.

(** X13.  Every route file below a path of [RESOURCE_MAP] gets the
    resource of that entry: for each entry [(k, v)] of the table,
    [get_resource_from_path] returns [v] on [dir ++ k ++ /rest], whatever
    [rest] is and for every [dir] in which [/api] does not occur.  No
    entry of the table is shadowed by the skip list. *)
Theorem resource_of_mapped_route (dir rest k v : str) :
  In (k, v) ApplyRbac.RESOURCE_MAP ->
  Py.contains "/api" dir = false ->
  ApplyRbac.get_resource_from_path (dir ++ k ++ "/" ++ rest) = Some v.
Proof.
  intros Hin Hdir. unfold ApplyRbac.RESOURCE_MAP in Hin.
  repeat (destruct Hin as [Hin|Hin];
          [injection Hin as <- <-;
           match goal with
           | |- ApplyRbac.get_resource_from_path (dir ++ ?key ++ _) = _ =>
               let seg := eval vm_compute in (skipn 5 key) in
               change (dir ++ key ++ "/" ++ rest) with (dir ++ "/api/" ++ seg ++ "/" ++ rest);
               unfold ApplyRbac.get_resource_from_path;
               destruct (api_segment_shape dir seg rest Hdir eq_refl) as [Hc Hs];
               rewrite Hc, Hs; vm_compute; reflexivity
           end|]).
  contradiction.
Qed.

Lemma resource_of_mapped_route_witness :
  ApplyRbac.get_resource_from_path "src/app/api/daily-tours/route.ts" = Some "providers".
Proof.
  apply (resource_of_mapped_route "src/app" "route.ts" "/api/daily-tours" "providers").
  - unfold ApplyRbac.RESOURCE_MAP. do 24 right. left. reflexivity.
  - vm_compute. reflexivity.
Defined.

(* ================================================================== *)
(** * The message of an internal error in migrate-endpoints *)

Section SearchHead.
Variables (l : str) (r : Re.regex).
Hypothesis Hh : heads l r.

(** [re.search] passes over a stretch in which the head literal of the
    pattern does not start. *)
Lemma search_from_head_clear (u v : str) :
  (forall i, i < length u -> Py.startswith l (skipn i u ++ v) = false) ->
  forall bol,
    Re.search_from r bol (u ++ v)
    = match Re.search_from r (eol bol u) v with
      | Some (a, e, g) => Some (length u + a, length u + e, g)
      | None => None
      end.
Proof.
  induction u as [|c u IH]; intros H bol.
  - cbn [app eol length Nat.add]. now destruct (Re.search_from r bol v) as [[[a e] g]|].
  - pose proof (H 0 ltac:(cbn [length]; lia)) as H0. cbn [skipn app] in H0.
    cbn [app eol Re.search_from]. rewrite (Hh _ _ H0).
    rewrite IH by (intros i Hi; apply (H (S i)); cbn [length]; lia).
    now destruct (Re.search_from r (eol (is_nl c) u) v) as [[[a e] g]|].
Qed.
End SearchHead.

Lemma search_from_hit (r : Re.regex) (bol : bool) (s : str) (n : nat) (g : Re.caps) :
  Re.match_at r bol s = Some (n, g) -> Re.search_from r bol s = Some (0, n, g).
Proof. intros H. destruct s; cbn [Re.search_from]; now rewrite H. Qed.

Lemma heads_message : heads "internalServerErrorProblem(" MigrateEndpoints.message_rx.
Proof. apply heads_cat. Qed.

Lemma message_head_clear (pre rest : str) :
  Py.contains "internalServerErrorProblem(" pre = false ->
  forall i, i < length pre ->
    Py.startswith "internalServerErrorProblem("
      (skipn i pre ++ "internalServerErrorProblem(" ++ rest) = false.
Proof.
  intros Hpre i Hi.
  apply clear_before; auto; try (vm_compute; reflexivity); vm_compute; lia.
Qed.

Lemma extract_quoted (pre msg post : str) (q1 q2 : ascii) :
  Py.contains "internalServerErrorProblem(" pre = false ->
  one_of MigrateEndpoints.quotes q1 = true ->
  one_of MigrateEndpoints.quotes q2 = true ->
  msg <> [] ->
  forallb (fun c => negb (one_of MigrateEndpoints.quotes c)) msg = true ->
  MigrateEndpoints.extract_error_message
    (pre ++ "internalServerErrorProblem(" ++ [q1] ++ msg ++ [q2] ++ post)
  = "'" ++ msg ++ "'".
Proof.
  intros Hpre Hq1 Hq2 Hm Hf.
  unfold MigrateEndpoints.extract_error_message, Re.search.
  rewrite (search_from_head_clear _ _ heads_message)
    by now apply message_head_clear.
  rewrite (search_from_hit _ _ _ (length ("internalServerErrorProblem(" ++ [q1] ++ msg ++ [q2]))
             [(1, msg)]); [reflexivity|].
  unfold Re.match_at, MigrateEndpoints.message_rx.
  rewrite rx_cat_cons, rx_lit_app.
  rewrite rx_cat_cons. unfold Re.set at 1. rewrite rx_cls_app by exact Hq1.
  rewrite rx_cat_cons. apply rx_grp_plus_cls_all; [exact Hm|exact Hf| |].
  { cbn [app stops]. now rewrite Hq2. }
  rewrite rx_cat_cons. unfold Re.set at 1. rewrite rx_cls_app by exact Hq2.
  rewrite rx_cat_nil. f_equal. f_equal.
  rewrite !length_app. cbn [length]. lia.
Qed.

Lemma extract_unquoted (pre rest : str) :
  Py.contains "internalServerErrorProblem(" pre = false ->
  Py.contains "internalServerErrorProblem(" rest = false ->
  stops (one_of MigrateEndpoints.quotes) rest = true ->
  MigrateEndpoints.extract_error_message (pre ++ "internalServerErrorProblem(" ++ rest)
  = "'An error occurred'".
Proof.
  intros Hpre Hrest Hstop.
  unfold MigrateEndpoints.extract_error_message, Re.search.
  rewrite (search_from_head_clear _ _ heads_message)
    by now apply message_head_clear.
  change ("internalServerErrorProblem(" ++ rest)
    with ("i"%char :: "nternalServerErrorProblem(" ++ rest).
  cbn [Re.search_from].
  replace (Re.match_at MigrateEndpoints.message_rx (eol true pre)
             ("i"%char :: "nternalServerErrorProblem(" ++ rest))
    with (@None (nat * Re.caps)).
  - rewrite (search_head_absent _ _ heads_message); [reflexivity|discriminate|].
    apply contains_false_app; [|exact Hrest].
    intros j Hj. now apply clear_inside.
  - symmetry. unfold Re.match_at, MigrateEndpoints.message_rx.
    change ("i"%char :: "nternalServerErrorProblem(" ++ rest)
      with ("internalServerErrorProblem(" ++ rest).
    rewrite rx_cat_cons, rx_lit_app, rx_cat_cons. unfold Re.set. cbn [Re.rx].
    destruct rest as [|c rest]; [reflexivity|].
    cbn [stops] in Hstop. apply negb_true_iff in Hstop. now rewrite Hstop.
Qed.

(** X14.  [extract_error_message] of migrate-endpoints looks at what
    follows the first [internalServerErrorProblem(] of its argument.  A
    message between two quotes, single or double, is returned between
    single quotes; when no quote follows, and the name does not occur
    again, or when the name does not occur at all, the result is the
    default ['An error occurred']. *)
Theorem error_message_extraction :
  (forall pre msg post (q1 q2 : ascii),
     Py.contains "internalServerErrorProblem(" pre = false ->
     one_of MigrateEndpoints.quotes q1 = true ->
     one_of MigrateEndpoints.quotes q2 = true ->
     msg <> [] ->
     forallb (fun c => negb (one_of MigrateEndpoints.quotes c)) msg = true ->
     MigrateEndpoints.extract_error_message
       (pre ++ "internalServerErrorProblem(" ++ [q1] ++ msg ++ [q2] ++ post)
     = "'" ++ msg ++ "'") /\
  (forall pre rest,
     Py.contains "internalServerErrorProblem(" pre = false ->
     Py.contains "internalServerErrorProblem(" rest = false ->
     stops (one_of MigrateEndpoints.quotes) rest = true ->
     MigrateEndpoints.extract_error_message (pre ++ "internalServerErrorProblem(" ++ rest)
     = "'An error occurred'") /\
  (forall s,
     Py.contains "internalServerErrorProblem(" s = false ->
     MigrateEndpoints.extract_error_message s = "'An error occurred'").
Proof.
  splits.
  - apply extract_quoted.
  - apply extract_unquoted.
  - intros s Hs. unfold MigrateEndpoints.extract_error_message, Re.search.
    now rewrite (search_head_absent _ _ heads_message) by (discriminate || exact Hs).
Qed.

Lemma error_message_extraction_witness :
  MigrateEndpoints.extract_error_message
    ("return errorResponse(internalServerErrorProblem(" ++ [dquote] ++ "Failed to fetch agents"
       ++ [dquote] ++ "))")
  = "'Failed to fetch agents'".
Proof.
  apply (proj1 error_message_extraction "return errorResponse(" "Failed to fetch agents" "))"
           dquote dquote).
  - vm_compute. reflexivity.
  - vm_compute. reflexivity.
  - vm_compute. reflexivity.
  - discriminate.
  - vm_compute. reflexivity.
Defined.

(* ================================================================== *)
(** * Imports that are complete *)

(** [sep.join(s.split(sep))] is [s]. *)
Lemma join_split (sep : str) :
  sep <> [] -> forall s, Py.join sep (Py.split sep s) = s.
Proof.
  intros Hne s. remember (length s) as n eqn:Hn. revert s Hn.
  induction n as [n IH] using lt_wf_ind. intros s Hn.
  destruct s as [|c s]; [reflexivity|].
  destruct (Py.startswith sep (c :: s)) eqn:E.
  - destruct (startswith_inv _ _ E) as [t Ht]. rewrite Ht.
    unfold Py.split at 1. rewrite split_go_hit by exact Hne.
    assert (Hj : Py.join sep (Py.split sep t) = t).
    { apply (IH (length t)); [|reflexivity].
      subst n. rewrite Ht, length_app. destruct sep; [congruence|simpl; lia]. }
    unfold Py.split in *. destruct (Py.split_go sep 0 t) as [p ps].
    change (Py.join sep ([] :: p :: ps)) with ([] ++ sep ++ Py.join sep (p :: ps)).
    now rewrite Hj.
  - assert (Hj : Py.join sep (Py.split sep s) = s)
      by (apply (IH (length s)); [subst n; simpl; lia|reflexivity]).
    unfold Py.split in *. cbn [Py.split_go]. rewrite E.
    destruct (Py.split_go sep 0 s) as [p ps].
    destruct ps as [|q ps]; cbn [Py.join app] in *; now rewrite Hj.
Qed.

(** X15.  [add_imports] of update-phase1-endpoints leaves a content alone
    that already has what it looks for: the names [getRequestId],
    [logResponse] and [globalRateLimitTracker], the import line of
    [@/lib/response] as the script writes it, and, for a list endpoint,
    the name [parseStandardPaginationParams].  The split into lines and
    the join give the content back, character for character. *)
Theorem complete_imports_kept (content file_path : str) :
  Py.contains "getRequestId" content = true ->
  Py.contains "logResponse" content = true ->
  Py.contains "globalRateLimitTracker" content = true ->
  Py.contains UpdatePhase1Endpoints.import_response content = true ->
  (Py.contains "route.ts" file_path && negb (Py.contains "[id]" file_path) = true ->
   Py.contains "parseStandardPaginationParams" content = true) ->
  UpdatePhase1Endpoints.add_imports content file_path = content.
Proof.
  intros H1 H2 H3 H4 H5. unfold UpdatePhase1Endpoints.add_imports.
  rewrite H1, H2, H3, H4. cbn [negb orb app].
  destruct (negb (Py.contains "standardErrorResponse" content)
            || Py.contains "errorResponse(" content);
    (destruct (Py.contains "route.ts" file_path && negb (Py.contains "[id]" file_path));
     [rewrite H5 by reflexivity|]; cbn [negb rev UpdatePhase1Endpoints.insert_all];
     apply join_split; discriminate).
Qed.

Lemma complete_imports_kept_witness :
  UpdatePhase1Endpoints.add_imports
    ("import { getRequestId, logRequest, logResponse } from '@/middleware/correlation';"
       ++ [nl] ++ UpdatePhase1Endpoints.import_rateLimit
       ++ [nl] ++ UpdatePhase1Endpoints.import_response ++ [nl])
    "src/app/api/clients/[id]/route.ts"
  = "import { getRequestId, logRequest, logResponse } from '@/middleware/correlation';"
       ++ [nl] ++ UpdatePhase1Endpoints.import_rateLimit
       ++ [nl] ++ UpdatePhase1Endpoints.import_response ++ [nl].
Proof.
  apply complete_imports_kept.
  - vm_compute. reflexivity.
  - vm_compute. reflexivity.
  - vm_compute. reflexivity.
  - vm_compute. reflexivity.
  - vm_compute. discriminate.
Defined.

(* ================================================================== *)
(** * The names of a pagination import *)

Lemma dedup_In (l : list str) :
  forall seen x,
    In x (MigrateEndpoints.dedup seen l) <-> In x l /\ ~ In x seen.
Proof.
  induction l as [|imp l IH]; intros seen x; cbn [MigrateEndpoints.dedup].
  - split; [intros []|intros [[] _]].
  - destruct (MigrateEndpoints.mem imp seen) eqn:E; cbn [negb].
    + rewrite IH. apply mem_In in E. split.
      * intros [H1 H2]. split; [now right|exact H2].
      * intros [[<-|H1] H2]; [contradiction|now split].
    + assert (Hn : ~ In imp seen) by (intros H; apply mem_In in H; congruence).
      cbn [In]. rewrite IH. split.
      * intros [<-|[H1 H2]]; [split; [now left|exact Hn]|].
        split; [now right|]. intros H3. apply H2. now right.
      * intros [[<-|H1] H2]; [now left|].
        destruct (list_eq_dec ascii_dec imp x) as [->|Hne]; [now left|].
        right. split; [exact H1|]. intros [H3|H3]; [congruence|contradiction].
Qed.

Lemma lstrip_skipn (s : str) : exists k, Py.lstrip s = skipn k s.
Proof.
  induction s as [|c s [k IH]]; [now exists 0|].
  cbn [Py.lstrip]. destruct (is_space c); [exists (S k); exact IH|now exists 0].
Qed.

Lemma contains_skipn (x s : str) (k : nat) :
  Py.contains x (skipn k s) = true -> Py.contains x s = true.
Proof.
  intros H. destruct (Py.contains x s) eqn:E; [reflexivity|].
  rewrite contains_false_skipn in H by exact E. discriminate.
Qed.

Lemma contains_firstn (x s : str) (k : nat) :
  Py.contains x (firstn k s) = true -> Py.contains x s = true.
Proof. intros H. rewrite <- (firstn_skipn k s). now apply contains_app_r. Qed.

(** What occurs in a stripped text occurs in the text. *)
Lemma contains_strip (x s : str) :
  Py.contains x (Py.strip s) = true -> Py.contains x s = true.
Proof.
  unfold Py.strip, Py.rstrip. intros H.
  destruct (lstrip_skipn s) as [k Hk].
  destruct (lstrip_skipn (rev (Py.lstrip s))) as [j Hj].
  rewrite Hj, skipn_rev, rev_involutive in H.
  apply contains_firstn in H. rewrite Hk in H. now apply contains_skipn in H.
Qed.

Lemma strip_free (x s : str) :
  Py.contains x s = false -> Py.contains x (Py.strip s) = false.
Proof.
  intros H. destruct (Py.contains x (Py.strip s)) eqn:E; [|reflexivity].
  apply contains_strip in E. congruence.
Qed.

Lemma rename_imports_free (l : list str) (x : str) :
  In x (MigrateEndpoints.rename_imports l) ->
  Py.contains "parsePaginationParams" x = false /\
  Py.contains "buildPagedResponse" x = false.
Proof.
  induction l as [|imp l IH]; cbn [MigrateEndpoints.rename_imports]; [intros []|].
  destruct (Py.contains "parsePaginationParams" imp) eqn:E1.
  { intros [<-|H]; [split; vm_compute; reflexivity|auto]. }
  destruct (Py.contains "buildPagedResponse" imp) eqn:E2.
  { intros [<-|H]; [split; vm_compute; reflexivity|auto]. }
  destruct (MigrateEndpoints.mem (Py.strip imp) _); cbn [negb]; [exact IH|].
  intros [<-|H]; [|auto]. split; now apply strip_free.
Qed.

Lemma rename_imports_first (l : list str) :
  In "parseStandardPaginationParams" (MigrateEndpoints.rename_imports l) <->
  exists imp, In imp l /\ Py.contains "parsePaginationParams" imp = true.
Proof.
  induction l as [|imp l IH]; cbn [MigrateEndpoints.rename_imports].
  { split; [intros []|intros (imp & [] & _)]. }
  destruct (Py.contains "parsePaginationParams" imp) eqn:E1.
  { split; [intros _; exists imp; split; [now left|exact E1]|intros _; now left]. }
  assert (Hrest : (exists i, In i (imp :: l) /\ Py.contains "parsePaginationParams" i = true)
                  <-> exists i, In i l /\ Py.contains "parsePaginationParams" i = true).
  { split; intros (i & Hi & Hc); exists i; (split; [|exact Hc]).
    - destruct Hi as [<-|Hi]; [congruence|exact Hi].
    - now right. }
  rewrite Hrest, <- IH.
  destruct (Py.contains "buildPagedResponse" imp).
  { split; [intros [H|H]; [discriminate|exact H]|intros H; now right]. }
  destruct (MigrateEndpoints.mem (Py.strip imp) _) eqn:Em; cbn [negb]; [reflexivity|].
  split; [|intros H; now right].
  intros [H|H]; [|exact H]. rewrite H in Em. vm_compute in Em. discriminate.
Qed.

Lemma rename_imports_second (l : list str) :
  In "buildStandardListResponse" (MigrateEndpoints.rename_imports l) <->
  exists imp, In imp l /\ Py.contains "parsePaginationParams" imp = false /\
              Py.contains "buildPagedResponse" imp = true.
Proof.
  induction l as [|imp l IH]; cbn [MigrateEndpoints.rename_imports].
  { split; [intros []|intros (imp & [] & _)]. }
  destruct (Py.contains "parsePaginationParams" imp) eqn:E1.
  { split.
    - intros [H|H]; [discriminate|]. apply IH in H. destruct H as (i & Hi & Hc).
      exists i. split; [now right|exact Hc].
    - intros (i & [<-|Hi] & H1 & H2); [congruence|].
      right. apply IH. now exists i. }
  destruct (Py.contains "buildPagedResponse" imp) eqn:E2.
  { split; [intros _; exists imp; split; [now left|now split]|intros _; now left]. }
  assert (Hrest : (exists i, In i (imp :: l) /\ Py.contains "parsePaginationParams" i = false /\
                             Py.contains "buildPagedResponse" i = true)
                  <-> exists i, In i l /\ Py.contains "parsePaginationParams" i = false /\
                                Py.contains "buildPagedResponse" i = true).
  { split; intros (i & Hi & Hc); exists i; (split; [|exact Hc]).
    - destruct Hi as [<-|Hi]; [destruct Hc; congruence|exact Hi].
    - now right. }
  rewrite Hrest, <- IH.
  destruct (MigrateEndpoints.mem (Py.strip imp) _) eqn:Em; cbn [negb]; [reflexivity|].
  split; [|intros H; now right].
  intros [H|H]; [|exact H]. rewrite H in Em. vm_compute in Em. discriminate.
Qed.

Lemma rename_imports_other (l : list str) (imp : str) :
  In imp l ->
  Py.contains "parsePaginationParams" imp = false ->
  Py.contains "buildPagedResponse" imp = false ->
  MigrateEndpoints.mem (Py.strip imp)
    ["parseStandardPaginationParams"; "buildStandardListResponse"] = false ->
  In (Py.strip imp) (MigrateEndpoints.rename_imports l).
Proof.
  intros Hin H1 H2 H3. induction l as [|i l IH]; [contradiction|].
  cbn [MigrateEndpoints.rename_imports].
  destruct Hin as [->|Hin].
  - rewrite H1, H2, H3. now left.
  - specialize (IH Hin).
    destruct (Py.contains "parsePaginationParams" i); [now right|].
    destruct (Py.contains "buildPagedResponse" i); [now right|].
    destruct (MigrateEndpoints.mem (Py.strip i) _); cbn [negb]; [exact IH|now right].
Qed.

(** X16.  What [update_pagination_imports] of migrate-endpoints returns is
    a list of pairwise different names joined by a comma and a blank, for
    every argument.  No name of the list holds a legacy name; the
    canonical name [parseStandardPaginationParams] is in the list exactly
    when an import of the argument holds [parsePaginationParams], and
    [buildStandardListResponse] exactly when one holds
    [buildPagedResponse] and not the other legacy name; and an import
    that holds no legacy name and is not canonical is in the list,
    stripped. *)
Theorem pagination_imports_result (imports_str : str) :
  let imports := map Py.strip (Py.split "," imports_str) in
  exists names,
    MigrateEndpoints.update_pagination_imports imports_str = Py.join ", " names /\
    NoDup names /\
    (forall x, In x names ->
       Py.contains "parsePaginationParams" x = false /\
       Py.contains "buildPagedResponse" x = false) /\
    (In "parseStandardPaginationParams" names <->
     exists imp, In imp imports /\ Py.contains "parsePaginationParams" imp = true) /\
    (In "buildStandardListResponse" names <->
     exists imp, In imp imports /\ Py.contains "parsePaginationParams" imp = false /\
                 Py.contains "buildPagedResponse" imp = true) /\
    (forall imp, In imp imports ->
       Py.contains "parsePaginationParams" imp = false ->
       Py.contains "buildPagedResponse" imp = false ->
       Py.strip imp <> "parseStandardPaginationParams" ->
       Py.strip imp <> "buildStandardListResponse" ->
       In (Py.strip imp) names).
Proof.
  cbv zeta. set (imports := map Py.strip (Py.split "," imports_str)).
  exists (MigrateEndpoints.dedup [] (MigrateEndpoints.rename_imports imports)).
  assert (Hin : forall x, In x (MigrateEndpoints.dedup [] (MigrateEndpoints.rename_imports imports))
                          <-> In x (MigrateEndpoints.rename_imports imports)).
  { intros x. rewrite dedup_In. tauto. }
  splits.
  - reflexivity.
  - apply dedup_spec.
  - intros x Hx. apply Hin in Hx. now apply (rename_imports_free imports).
  - rewrite Hin. apply rename_imports_first.
  - rewrite Hin. apply rename_imports_second.
  - intros imp Hi H1 H2 H3 H4. apply Hin. apply rename_imports_other; auto.
    cbn [MigrateEndpoints.mem existsb]. apply str_eqb_neq in H3, H4.
    now rewrite H3, H4.
Qed.

Lemma pagination_imports_result_witness :
  exists names,
    MigrateEndpoints.update_pagination_imports " parsePaginationParams, parseSortParams "
    = Py.join ", " names /\
    In "parseSortParams" names.
Proof.
  destruct (pagination_imports_result " parsePaginationParams, parseSortParams ")
    as (names & Hj & _ & _ & _ & _ & Hk).
  exists names. split; [exact Hj|].
  apply (Hk "parseSortParams").
  - right. left. reflexivity.
  - vm_compute. reflexivity.
  - vm_compute. reflexivity.
  - vm_compute. discriminate.
  - vm_compute. discriminate.
Defined.

(* ================================================================== *)
(** * The flag of fix-all-methods *)

Lemma fix_methods_flagged (table : list (str * str)) (resource : str) :
  forall content, snd (FixAllMethods.fix_methods table resource content true) = true.
Proof.
  induction table as [|[method action] rest IH]; intros content;
    cbn [FixAllMethods.fix_methods]; [reflexivity|].
  destruct (Py.contains _ content); [|apply IH].
  destruct (negb (str_eqb _ content)); apply IH.
Qed.

(** When [changes_made] is still [False] after the loop, the content is
    the one the loop started with. *)
Lemma fix_methods_unflagged (table : list (str * str)) (resource : str) :
  forall content out,
    FixAllMethods.fix_methods table resource content false = (out, false) ->
    out = content.
Proof.
  induction table as [|[method action] rest IH]; intros content out;
    cbn [FixAllMethods.fix_methods].
  - now intros [= <-].
  - destruct (Py.contains _ content); [|apply IH].
    destruct (negb (str_eqb _ content)); [|apply IH].
    intros H. pose proof (fix_methods_flagged rest resource
      (FixAllMethods.fix_method_in_content content method action resource)) as Hf.
    rewrite H in Hf. discriminate.
Qed.

(* ================================================================== *)
(** * Texts a pattern cannot match without *)

(** The loop of a repetition, over a body that hands suffixes to its
    continuation. *)
Lemma rep_loop_suffix (R : Type)
    (body : bool -> str -> Re.caps -> (bool -> str -> Re.caps -> option R) -> option R)
    (greedy : bool) (k : bool -> str -> Re.caps -> option R) :
  (forall bol s g k' v, body bol s g k' = Some v ->
     exists bol' u s' g', s = u ++ s' /\ k' bol' s' g' = Some v) ->
  forall n bol s g v,
    Re.rep_loop body greedy k n bol s g = Some v ->
    exists bol' u s' g', s = u ++ s' /\ k bol' s' g' = Some v.
Proof.
  intros Hbody. induction n as [|n IHn]; intros bol s g v H; cbn [Re.rep_loop] in H.
  - exists bol, [], s, g. now split.
  - assert (Hmore : forall x,
              body bol s g
                (fun bol' s' g' =>
                   if length s' <? length s then Re.rep_loop body greedy k n bol' s' g'
                   else None) = Some x ->
              exists bol' u s' g', s = u ++ s' /\ k bol' s' g' = Some x).
    { intros x Hx. apply Hbody in Hx. destruct Hx as (b1 & u1 & s1 & g1 & -> & Hx).
      destruct (length s1 <? length (u1 ++ s1)); [|discriminate].
      apply IHn in Hx. destruct Hx as (b2 & u2 & s2 & g2 & -> & Hx).
      exists b2, (u1 ++ u2), s2, g2. split; [now rewrite app_assoc|exact Hx]. }
    destruct greedy; unfold Re.first_some in H.
    + destruct (body bol s g _) as [x|] eqn:Em.
      * injection H as ->. now apply Hmore.
      * exists bol, [], s, g. now split.
    + destruct (k bol s g) as [x|] eqn:Ek.
      * injection H as ->. exists bol, [], s, g. now split.
      * now apply Hmore.
Qed.

(** The matcher hands to its continuation what is left of the text: a
    match of [r] followed by a success of [k] means that [k] succeeded on
    a suffix of the text. *)
Lemma rx_calls_suffix (r : Re.regex) :
  forall (R : Type) bol s g (k : bool -> str -> Re.caps -> option R) v,
    Re.rx r bol s g k = Some v ->
    exists bol' u s' g', s = u ++ s' /\ k bol' s' g' = Some v.
Proof.
  induction r as [|p|a IHa b IHb|a IHa b IHb|greedy a IHa|i a IHa|a IHa|];
    intros R bol s g k v H; cbn [Re.rx] in H.
  - exists bol, [], s, g. now split.
  - destruct s as [|c s]; [discriminate|]. destruct (p c); [|discriminate].
    exists (is_nl c), [c], s, g. now split.
  - apply IHa in H. destruct H as (b1 & u1 & s1 & g1 & -> & H).
    apply IHb in H. destruct H as (b2 & u2 & s2 & g2 & -> & H).
    exists b2, (u1 ++ u2), s2, g2. split; [now rewrite app_assoc|exact H].
  - unfold Re.first_some in H. destruct (Re.rx a bol s g k) eqn:E.
    + injection H as ->. now apply IHa in E.
    + now apply IHb in H.
  - apply rep_loop_suffix in H; [exact H|]. intros b1 s1 g1 k1 v1. apply IHa.
  - apply IHa in H. destruct H as (b1 & u1 & s1 & g1 & -> & H). eauto 8.
  - destruct (Re.rx a bol s g (fun _ _ g' => Some g')) as [g'|]; [|discriminate].
    exists bol, [], s, g'. now split.
  - destruct bol; [|discriminate]. exists true, [], s, g. now split.
Qed.

Lemma needs_lit (x : str) : needs x (Re.lit x).
Proof.
  intros R bol s g k v H. rewrite rx_lit in H.
  destruct (Py.startswith x s) eqn:E; [|discriminate]. now apply startswith_contains.
Qed.

Lemma needs_seq_l (x : str) (a b : Re.regex) : needs x a -> needs x (Re.Seq a b).
Proof. intros Ha R bol s g k v H. cbn [Re.rx] in H. now apply Ha in H. Qed.

Lemma needs_seq_r (x : str) (a b : Re.regex) : needs x b -> needs x (Re.Seq a b).
Proof.
  intros Hb R bol s g k v H. cbn [Re.rx] in H.
  apply rx_calls_suffix in H. destruct H as (b1 & u & s1 & g1 & -> & H).
  apply contains_app_l. now apply Hb in H.
Qed.

Lemma needs_grp (x : str) (i : nat) (a : Re.regex) : needs x a -> needs x (Re.Grp i a).
Proof. intros Ha R bol s g k v H. cbn [Re.rx] in H. now apply Ha in H. Qed.

Lemma needs_cat (x : str) (r : Re.regex) (rs : list Re.regex) :
  In r rs -> needs x r -> needs x (Re.cat rs).
Proof.
  induction rs as [|r' rs IH]; [intros []|].
  intros [->|Hin] Hr; cbn [Re.cat]; [now apply needs_seq_l|apply needs_seq_r; auto].
Qed.

Lemma needs_match (x : str) (r : Re.regex) (bol : bool) (s : str) :
  needs x r -> Py.contains x s = false -> Re.match_at r bol s = None.
Proof.
  intros Hn Hc. unfold Re.match_at.
  destruct (Re.rx r bol s [] _) as [v|] eqn:E; [|reflexivity].
  apply Hn in E. congruence.
Qed.

(** [re.sub] changes nothing, and [re.search] finds nothing, in a text
    without a text the pattern needs. *)
Lemma sub_needs (x : str) (r : Re.regex) (repl : str -> Re.caps -> str) :
  needs x r ->
  forall s lim bol, Py.contains x s = false -> Re.sub_go r repl lim bol 0 s = s.
Proof.
  intros Hn. induction s as [|c s IH]; intros lim bol Hc; cbn [Re.sub_go].
  - rewrite (needs_match x) by assumption. now destruct (Re.exhausted lim).
  - rewrite (needs_match x) by assumption.
    cbn [Py.contains] in Hc. apply orb_false_iff in Hc. destruct Hc as [_ Hc].
    destruct (Re.exhausted lim); now rewrite IH.
Qed.

Lemma search_needs (x : str) (r : Re.regex) :
  needs x r ->
  forall s bol, Py.contains x s = false -> Re.search_from r bol s = None.
Proof.
  intros Hn. induction s as [|c s IH]; intros bol Hc; cbn [Re.search_from].
  - now rewrite (needs_match x).
  - rewrite (needs_match x) by assumption.
    cbn [Py.contains] in Hc. apply orb_false_iff in Hc. destruct Hc as [_ Hc].
    now rewrite IH.
Qed.

(* ================================================================== *)
(** * Files that apply-rbac has nothing to do with *)

Lemma contains_inv (x s : str) :
  Py.contains x s = true -> exists u v, s = u ++ x ++ v.
Proof.
  induction s as [|c s IH]; cbn [Py.contains]; intros H.
  - rewrite orb_false_r in H. destruct (startswith_inv _ _ H) as [t Ht].
    exists [], t. exact Ht.
  - apply orb_true_iff in H. destruct H as [H|H].
    + destruct (startswith_inv _ _ H) as [t Ht]. exists [], t. exact Ht.
    + destruct (IH H) as (u & v & ->). now exists (c :: u), v.
Qed.

Lemma contains_longer (x y s : str) :
  Py.startswith x y = true -> Py.contains x s = false -> Py.contains y s = false.
Proof.
  intros Hxy Hx. destruct (Py.contains y s) eqn:E; [|reflexivity].
  destruct (contains_inv _ _ E) as (u & v & ->).
  destruct (startswith_inv _ _ Hxy) as [t ->].
  rewrite <- app_assoc in Hx.
  assert (Py.contains x (u ++ x ++ t ++ v) = true)
    by (apply contains_app_l, startswith_contains, startswith_app).
  congruence.
Qed.

(** An insertion that cannot hold the start or the end of [x] does not
    make [x] occur. *)
Lemma insert_clean (x ins s : str) (pos : nat) :
  x <> [] -> no_start x ins = true -> no_tail_start x ins = true ->
  Py.contains x s = false ->
  Py.contains x (firstn pos s ++ ins ++ skipn pos s) = false.
Proof.
  intros Hx Hin Htail Hs.
  apply contains_false_app.
  - intros i Hi.
    destruct (le_lt_dec (length x) (length (skipn i (firstn pos s)))) as [Hl|Hl].
    + rewrite startswith_app_long by exact Hl.
      rewrite <- (startswith_app_long _ _ (skipn pos s)) by exact Hl.
      rewrite <- skipn_app_lt by lia. rewrite firstn_skipn.
      now apply contains_false_at.
    + rewrite startswith_app_short by lia.
      apply andb_false_iff. right. apply may_start_false.
      unfold no_tail_start in Htail.
      apply (forallb_seq _ 1 (length x - 1) (length (skipn i (firstn pos s)))) in Htail.
      * now apply negb_true_iff in Htail.
      * rewrite length_skipn in *. lia.
  - apply contains_false_app; [intros j Hj; now apply clear_inside|].
    now apply contains_false_skipn.
Qed.

Lemma needs_tenant_call : needs "requireTenant(request)" ApplyRbac.auth_pattern.
Proof.
  apply (needs_cat _ (Re.lit "requireTenant(request)")); [|apply needs_lit].
  unfold ApplyRbac.auth_pattern. do 9 right. left. reflexivity.
Qed.

Lemma replace_auth_without_tenant (content method_name resource_name action : str) :
  Py.contains "requireTenant" content = false ->
  ApplyRbac.replace_auth_in_method content method_name resource_name action = content.
Proof.
  intros Hc. unfold ApplyRbac.replace_auth_in_method.
  destruct (Re.search _ content) as [[[a e] g]|]; [|reflexivity].
  unfold Re.search. rewrite (search_needs _ _ needs_tenant_call); [reflexivity|].
  apply contains_false_skipn.
  now apply (contains_longer "requireTenant").
Qed.

Lemma replace_methods_without_tenant (table : list (str * str)) (resource_name content : str) :
  Py.contains "requireTenant" content = false ->
  ApplyRbac.replace_methods table resource_name content = content.
Proof.
  intros Hc. induction table as [|[method action] rest IH];
    cbn [ApplyRbac.replace_methods]; [reflexivity|].
  rewrite replace_auth_without_tenant by exact Hc.
  destruct (Py.contains ("export async function " ++ method ++ "(") content); exact IH.
Qed.

(** X18.  apply-rbac changes a file that does not mention [requireTenant]
    by the import line of [requirePermission] at most: no handler is
    touched, whatever the resource.  When the file mentions
    [requirePermission] as well, as every file does that the script has
    rewritten completely, it is left as it is. *)
Theorem rbac_without_tenant (content resource_name : str) :
  Py.contains "requireTenant" content = false ->
  ApplyRbac.transform content resource_name = ApplyRbac.add_import content /\
  (Py.contains "requirePermission" content = true ->
   ApplyRbac.transform content resource_name = content).
Proof.
  intros Hc.
  assert (Ht : ApplyRbac.transform content resource_name = ApplyRbac.add_import content).
  { unfold ApplyRbac.transform, ApplyRbac.should_replace_tenant. rewrite Hc.
    apply replace_methods_without_tenant.
    destruct (add_import_shape content) as [->|[pos ->]]; [exact Hc|].
    apply insert_clean; [discriminate|vm_compute; reflexivity|vm_compute; reflexivity|exact Hc]. }
  split; [exact Ht|].
  intros Hp. rewrite Ht. unfold ApplyRbac.add_import, ApplyRbac.should_add_import.
  now rewrite Hp.
Qed.

Lemma rbac_without_tenant_witness :
  ApplyRbac.transform plain_get "clients" = ApplyRbac.add_import plain_get.
Proof.
  apply (proj1 (rbac_without_tenant plain_get "clients" eq_refl)).
Defined.

(* ================================================================== *)
(** * The handlers of one file in migrate-endpoints *)

Lemma correlate_marked (handlers : list str) (content : str) :
  Py.contains "const requestId = getRequestId(request)" content = true ->
  MigrateEndpoints.correlate_handlers handlers content = content.
Proof.
  intros Hc. induction handlers as [|h rest IH];
    cbn [MigrateEndpoints.correlate_handlers]; [reflexivity|].
  unfold MigrateEndpoints.add_request_correlation_to_handler. rewrite Hc.
  destruct (Py.contains ("export async function " ++ h) content); exact IH.
Qed.

(** X19.  In migrate-endpoints the request correlation reaches the
    handlers of one method at most.  The rule tests the whole content for
    the binding of [requestId], so once it has rewritten the handler of
    one method the rules of the methods that follow change nothing: the
    loop over the methods, names of word characters, returns the content
    as it is, or what the rule of a single method makes of it; and a
    content that holds the binding is left as it is. *)
Theorem one_method_correlated (handlers : list str) (content : str) :
  forallb (forallb is_word) handlers = true ->
  (MigrateEndpoints.correlate_handlers handlers content = content \/
   exists h, In h handlers /\
     MigrateEndpoints.correlate_handlers handlers content
     = MigrateEndpoints.add_request_correlation_to_handler content h) /\
  (Py.contains "const requestId = getRequestId(request)" content = true ->
   MigrateEndpoints.correlate_handlers handlers content = content).
Proof.
  intros _. split; [|apply correlate_marked].
  induction handlers as [|h rest IH];
    cbn [MigrateEndpoints.correlate_handlers]; [now left|].
  assert (Hskip : MigrateEndpoints.correlate_handlers rest content = content \/
                  exists h0, In h0 (h :: rest) /\
                    MigrateEndpoints.correlate_handlers rest content
                    = MigrateEndpoints.add_request_correlation_to_handler content h0).
  { destruct IH as [E|(h0 & Hin & E)]; [now left|]. right. exists h0. split; [now right|exact E]. }
  destruct (Py.contains ("export async function " ++ h) content); [|exact Hskip].
  destruct (add_correlation_marks content h) as [E|E].
  - rewrite E. exact Hskip.
  - right. exists h. split; [now left|]. now apply correlate_marked.
Qed.

Lemma one_method_correlated_witness :
  MigrateEndpoints.correlate_handlers ["GET"; "POST"]
    (MigrateEndpoints.add_request_correlation_to_handler plain_get "GET")
  = MigrateEndpoints.add_request_correlation_to_handler plain_get "GET".
Proof.
  apply (proj2 (one_method_correlated ["GET"; "POST"]
                  (MigrateEndpoints.add_request_correlation_to_handler plain_get "GET")
                  eq_refl)).
  vm_compute. reflexivity.
Defined.

(* ================================================================== *)
(** * Reading a pattern along a text *)

Lemma takes_eps bol (s : str) g : takes Re.Eps bol [] s g bol g.
Proof. intros R k v H. exact H. Qed.

Lemma takes_lit (l : str) bol (s : str) g : takes (Re.lit l) bol l s g (eol bol l) g.
Proof. intros R k v H. now rewrite rx_lit_app. Qed.

Lemma takes_cls (p : ascii -> bool) (c : ascii) bol (s : str) g :
  p c = true -> takes (Re.Cls p) bol [c] s g (is_nl c) g.
Proof. intros Hp R k v H. now rewrite rx_cls_app. Qed.

Lemma takes_seq (a b : Re.regex) bol (u w s : str) g b1 g1 b2 g2 :
  takes a bol u (w ++ s) g b1 g1 -> takes b b1 w s g1 b2 g2 ->
  takes (Re.Seq a b) bol (u ++ w) s g b2 g2.
Proof.
  intros Ha Hb R k v H. rewrite <- app_assoc. cbn [Re.rx].
  apply Ha. now apply Hb.
Qed.

Lemma takes_star_cls (p : ascii -> bool) (a : str) bol (s : str) g :
  forallb p a = true -> stops p s = true ->
  takes (Re.star (Re.Cls p)) bol a s g (eol bol a) g.
Proof. intros Ha Hs R k v H. now apply rx_star_cls_all. Qed.

Lemma takes_plus_cls (p : ascii -> bool) (a : str) bol (s : str) g :
  a <> [] -> forallb p a = true -> stops p s = true ->
  takes (Re.plus (Re.Cls p)) bol a s g (eol bol a) g.
Proof. intros Hne Ha Hs R k v H. now apply rx_plus_cls_all. Qed.

Lemma takes_grp (i : nat) (r : Re.regex) bol (a s : str) g b' g' :
  takes r bol a s g b' g' -> takes (Re.Grp i r) bol a s g b' ((i, a) :: g').
Proof.
  intros Hr R k v H. cbn [Re.rx]. apply Hr. now rewrite firstn_app_exact.
Qed.

(** A lazy repetition of any character, followed by a literal: it stops
    at the first place where the literal starts, when what follows the
    literal matches there. *)
Lemma rep_lazy_any (R : Type) (K : bool -> str -> Re.caps -> option R) (g : Re.caps)
    (rest : str) (v : R) :
  forall (body : str) (n : nat) bol,
    length (body ++ rest) <= n ->
    (forall i b, i < length body -> K b (skipn i body ++ rest) g = None) ->
    K (eol bol body) rest g = Some v ->
    Re.rep_loop (fun bol' s' g' k' => Re.rx Re.any bol' s' g' k') false K n bol
      (body ++ rest) g = Some v.
Proof.
  induction body as [|c body IH]; intros n bol Hn Hno Hyes.
  - cbn [app eol] in *. destruct n; cbn [Re.rep_loop]; [exact Hyes|].
    unfold Re.first_some. now rewrite Hyes.
  - destruct n as [|n]; [cbn [app length] in Hn; lia|].
    cbn [Re.rep_loop]. unfold Re.first_some.
    pose proof (Hno 0 bol ltac:(cbn [length]; lia)) as H0. cbn [skipn] in H0.
    rewrite H0. cbn [app Re.rx Re.any].
    replace (length (body ++ rest) <? length (c :: body ++ rest)) with true
      by (symmetry; apply Nat.ltb_lt; cbn [length]; lia).
    apply IH.
    + cbn [app length] in Hn. lia.
    + intros i b Hi. apply (Hno (S i) b). cbn [length]. lia.
    + exact Hyes.
Qed.

Lemma takes_lazy_until (l : str) (r : Re.regex) bol (body u s : str) g b' g' :
  (forall i, i < length body -> Py.startswith l (skipn i body ++ l ++ u ++ s) = false) ->
  takes r (eol (eol bol body) l) u s g b' g' ->
  takes (Re.Seq (Re.lazy_star Re.any) (Re.Seq (Re.lit l) r)) bol (body ++ l ++ u) s g b' g'.
Proof.
  intros Hno Hr R k v H.
  replace ((body ++ l ++ u) ++ s) with (body ++ l ++ u ++ s) by now rewrite <- !app_assoc.
  cbn [Re.rx Re.lazy_star]. apply rep_lazy_any.
  - lia.
  - intros i b Hi. apply rx_seq_lit_fail. now apply Hno.
  - cbn [Re.rx]. rewrite rx_lit_app. now apply Hr.
Qed.

Lemma takes_match (r : Re.regex) bol (a s : str) b' g' :
  takes r bol a s [] b' g' -> Re.match_at r bol (a ++ s) = Some (length a, g').
Proof.
  intros Hr. unfold Re.match_at. apply Hr.
  now rewrite length_app, Nat.add_sub.
Qed.

Lemma sub_go_exhausted (r : Re.regex) (repl : str -> Re.caps -> str) (s : str) :
  forall bol, Re.sub_go r repl (Some 0) bol 0 s = s.
Proof.
  induction s as [|c s IH]; intros bol; cbn [Re.sub_go Re.exhausted]; [reflexivity|].
  now rewrite IH.
Qed.

Lemma takes_cat_nil bol (s : str) g : takes (Re.cat []) bol [] s g bol g.
Proof. apply takes_eps. Qed.

Lemma takes_cat_cons (r : Re.regex) (rs : list Re.regex) bol (u w s : str) g b1 g1 b2 g2 :
  takes r bol u (w ++ s) g b1 g1 -> takes (Re.cat rs) b1 w s g1 b2 g2 ->
  takes (Re.cat (r :: rs)) bol (u ++ w) s g b2 g2.
Proof. apply takes_seq. Qed.

Lemma takes_cat_last (r : Re.regex) bol (u s : str) g b1 g1 :
  takes r bol u s g b1 g1 -> takes (Re.cat [r]) bol u s g b1 g1.
Proof. intros Hr R k v H. cbn [Re.cat Re.rx]. now apply Hr. Qed.

(* ================================================================== *)
(** * The action of a guarded handler in fix-all-methods *)

Lemma heads_fix_pattern (method resource : str) :
  heads "export" (FixAllMethods.method_pattern method resource).
Proof.
  intros b s H. unfold Re.match_at, FixAllMethods.method_pattern.
  cbn [Re.cat Re.rx]. now rewrite rx_lit, H.
Qed.

(** The pattern of [fix_method_in_content] reads a guarded handler whole:
    group 1 ends with the quote that opens the resource, group 3 is the
    action. *)
Lemma fix_pattern_takes (method params body resource action post : str) (bol : bool) :
  method <> [] -> stops is_space method = true ->
  forallb not_closing params = true ->
  Py.contains "requirePermission(request," body = false ->
  action <> [] -> forallb is_word action = true ->
  exists b',
    takes (FixAllMethods.method_pattern method resource) bol
      (("export" ++ " " ++ "async" ++ " " ++ "function" ++ " " ++ method ++ [] ++ "("
          ++ params ++ ")" ++ " " ++ "{" ++ body ++ "requirePermission(request," ++ " " ++ "'")
         ++ resource ++ ("'" ++ "," ++ " " ++ "'") ++ action ++ "'")
      post [] b'
      [(4, "'"); (3, action); (2, "', '");
       (1, handler_opening method params ++ body ++ "requirePermission(request, '")].
Proof.
  intros Hm Hms Hp Hb Ha Haw. eexists.
  unfold FixAllMethods.method_pattern, Re.ws, Re.wd, Re.set, Re.nset.
  assert (Hg1 : handler_opening method params ++ body ++ "requirePermission(request, '"
                = "export" ++ " " ++ "async" ++ " " ++ "function" ++ " " ++ method ++ [] ++ "("
                    ++ params ++ ")" ++ " " ++ "{" ++ body ++ "requirePermission(request,"
                    ++ " " ++ "'").
  { unfold handler_opening. rewrite <- !app_assoc. reflexivity. }
  rewrite Hg1.
  eapply takes_cat_cons.
  { apply takes_grp.
    eapply takes_cat_cons; [apply takes_lit|].
    eapply takes_cat_cons; [apply takes_plus_cls; [discriminate|reflexivity|reflexivity]|].
    eapply takes_cat_cons; [apply takes_lit|].
    eapply takes_cat_cons; [apply takes_plus_cls; [discriminate|reflexivity|reflexivity]|].
    eapply takes_cat_cons; [apply takes_lit|].
    eapply takes_cat_cons;
      [apply takes_plus_cls;
         [discriminate|reflexivity
         |apply stops_app; [destruct method; [congruence|discriminate]|now apply stops_app]]|].
    eapply takes_cat_cons; [apply takes_lit|].
    eapply takes_cat_cons; [apply takes_star_cls; reflexivity|].
    eapply takes_cat_cons; [apply takes_lit|].
    eapply takes_cat_cons; [apply takes_star_cls; [exact Hp|reflexivity]|].
    eapply takes_cat_cons; [apply takes_lit|].
    eapply takes_cat_cons; [apply takes_star_cls; reflexivity|].
    eapply takes_cat_cons; [apply takes_lit|].
    apply takes_lazy_until.
    - intros i Hi. apply clear_before; auto; try (vm_compute; reflexivity); vm_compute; lia.
    - eapply takes_seq; [apply takes_star_cls; reflexivity|].
      apply (takes_cat_last (Re.Cls (one_of FixAllMethods.quotes))).
      apply takes_cls. reflexivity. }
  eapply takes_cat_cons; [apply takes_lit|].
  eapply takes_cat_cons.
  { apply (takes_grp 2).
    eapply takes_cat_cons; [apply takes_cls; reflexivity|].
    eapply takes_cat_cons; [apply takes_lit|].
    eapply takes_cat_cons; [apply takes_star_cls; reflexivity|].
    apply takes_cat_last. apply takes_cls. reflexivity. }
  eapply takes_cat_cons.
  { apply takes_grp. apply takes_plus_cls; [exact Ha|exact Haw|reflexivity]. }
  apply takes_cat_last. apply (takes_grp 4). apply takes_cls. reflexivity.
Qed.

(** X20.  [fix_method_in_content] of fix-all-methods puts the correct
    action in the place of the action of the first call of
    [requirePermission] that follows the opening of the handler, and
    changes nothing else.  For a method and a resource of word
    characters, and a content that holds, after a text without [export],
    the handler of the method with a parameter list, a body without
    [requirePermission(request,], and the call for the resource with an
    action made of word characters, the result is the content with that
    action replaced, whatever comes after the call. *)
Theorem guarded_action_fixed
    (pre method params body resource action correct post : str) :
  Py.contains "export" pre = false ->
  method <> [] -> forallb is_word method = true ->
  forallb is_word resource = true ->
  forallb not_closing params = true ->
  Py.contains "requirePermission(request," body = false ->
  action <> [] -> forallb is_word action = true ->
  FixAllMethods.fix_method_in_content
    (pre ++ guarded_handler method params body resource action ++ post)
    method correct resource
  = pre ++ guarded_handler method params body resource correct ++ post.
Proof.
  intros Hpre Hm Hmw _ Hp Hb Ha Haw.
  destruct (fix_pattern_takes method params body resource action post (eol true pre)
              Hm (name_stops _ Hmw) Hp Hb Ha Haw) as [b' Htakes].
  apply takes_match in Htakes.
  match type of Htakes with
  | Re.match_at _ _ (?M ++ _) = _ =>
      assert (HM : guarded_handler method params body resource action = M)
        by (unfold guarded_handler, guard_call, handler_opening;
            rewrite <- !app_assoc; reflexivity)
  end.
  rewrite <- HM in Htakes.
  unfold FixAllMethods.fix_method_in_content, Re.sub. cbn [Re.limit].
  rewrite (sub_go_head_clear _ _ _ (heads_fix_pattern method resource)).
  2: { intros i Hi. unfold guarded_handler, handler_opening. rewrite <- !app_assoc.
       apply clear_before; auto; try (vm_compute; reflexivity); vm_compute; lia. }
  rewrite (sub_go_match (FixAllMethods.method_pattern method resource) _ (Some 1) _
             (guarded_handler method params body resource action) post
             [(4, "'"); (3, action); (2, "', '");
              (1, handler_opening method params ++ body ++ "requirePermission(request, '")]);
    [| unfold guarded_handler, handler_opening; discriminate | reflexivity | exact Htakes].
  cbn [Re.spend Nat.sub]. rewrite sub_go_exhausted.
  f_equal. f_equal.
  unfold FixAllMethods.replacer. cbn [Re.group Nat.eqb].
  destruct (str_eqb action correct) eqn:E; cbn [negb].
  - apply str_eqb_eq in E. now subst.
  - unfold guarded_handler, guard_call. now rewrite <- !app_assoc.
Qed.

Lemma guarded_action_fixed_witness :
  FixAllMethods.fix_method_in_content
    (guarded_handler "POST" "request: NextRequest" ([nl] ++ "  const authResult = await ")
       "clients" "read" ++ ");")
    "POST" "create" "clients"
  = guarded_handler "POST" "request: NextRequest" ([nl] ++ "  const authResult = await ")
      "clients" "create" ++ ");".
Proof.
  apply (guarded_action_fixed [] "POST" "request: NextRequest"
           ([nl] ++ "  const authResult = await ") "clients" "read" "create" ");").
  - reflexivity.
  - discriminate.
  - reflexivity.
  - reflexivity.
  - vm_compute. reflexivity.
  - vm_compute. reflexivity.
  - discriminate.
  - vm_compute. reflexivity.
Defined.

(* ================================================================== *)
(** * One match, the text around it kept *)

Lemma limit_open (count : nat) : Re.exhausted (Re.limit count) = false.
Proof. now destruct count. Qed.

(** [re.sub] on a text in which the head literal of the pattern starts
    at one place only, where the pattern reads [m]. *)
Lemma sub_single (l : str) (r : Re.regex) (repl : str -> Re.caps -> str) (count : nat)
    (pre m post : str) (g : Re.caps) (b' : bool) :
  heads l r -> l <> [] -> m <> [] ->
  (forall i, i < length pre -> Py.startswith l (skipn i pre ++ m ++ post) = false) ->
  takes r (eol true pre) m post [] b' g ->
  Py.contains l post = false ->
  Re.sub r repl count (pre ++ m ++ post) = pre ++ repl m g ++ post.
Proof.
  intros Hh Hl Hm Hpre Ht Hpost. unfold Re.sub.
  rewrite (sub_go_head_clear _ _ _ Hh) by exact Hpre.
  rewrite (sub_go_match r repl (Re.limit count) (eol true pre) m post g);
    [|exact Hm|apply limit_open|exact (takes_match _ _ _ _ _ _ Ht)].
  now rewrite (sub_go_head_absent _ _ _ Hh) by assumption.
Qed.

(** X21.  [update_response_headers] of update-phase1-endpoints turns a
    return of [NextResponse.json] whose argument holds no closing
    parenthesis into three statements: the response is bound, the
    standard headers are added to it, and it is returned.  The argument
    and the text around the statement are kept as they are. *)
Theorem json_return_rewritten (pre arg post : str) :
  Py.contains "return NextResponse.json(" pre = false ->
  Py.contains "return NextResponse.json(" post = false ->
  arg <> [] -> forallb not_closing arg = true ->
  UpdatePhase1Endpoints.update_response_headers
    (pre ++ ("return NextResponse.json(" ++ arg ++ ");") ++ post)
  = pre ++ ("const response = NextResponse.json(" ++ arg ++ ");
    addStandardHeaders(response, requestId);
    return response;") ++ post.
Proof.
  intros Hpre Hpost Ha Hf. unfold UpdatePhase1Endpoints.update_response_headers.
  assert (Ht : exists b',
             takes UpdatePhase1Endpoints.json_return_rx (eol true pre)
               ("return NextResponse.json(" ++ arg ++ ");") post [] b' [(1, arg)]).
  { eexists. unfold UpdatePhase1Endpoints.json_return_rx, Re.nset.
    eapply takes_cat_cons; [apply takes_lit|].
    eapply takes_cat_cons;
      [apply takes_grp; apply takes_plus_cls; [exact Ha|exact Hf|reflexivity]|].
    apply takes_cat_last. apply takes_lit. }
  destruct Ht as [b' Ht].
  assert (Hh : heads "return NextResponse.json(" UpdatePhase1Endpoints.json_return_rx)
    by apply heads_cat.
  rewrite (sub_single _ _ _ _ pre _ post [(1, arg)] b' Hh);
    [reflexivity|discriminate|discriminate| |exact Ht|exact Hpost].
  intros i Hi. rewrite <- !app_assoc.
  apply clear_before; auto; try (vm_compute; reflexivity); vm_compute; lia.
Qed.

Lemma json_return_rewritten_witness :
  UpdatePhase1Endpoints.update_response_headers "  return NextResponse.json(rows);"
  = "  const response = NextResponse.json(rows);
    addStandardHeaders(response, requestId);
    return response;".
Proof.
  apply (json_return_rewritten "  " "rows" []).
  - reflexivity.
  - reflexivity.
  - discriminate.
  - reflexivity.
Defined.

(* ================================================================== *)
(** * The request tracking of apply-phase1-standards *)

Lemma heads_grp_cat (l : str) (i : nat) (rs : list Re.regex) :
  heads l (Re.Grp i (Re.cat (Re.lit l :: rs))).
Proof.
  intros b s H. unfold Re.match_at. cbn [Re.cat Re.rx]. now rewrite rx_lit, H.
Qed.

Lemma takes_opt_take (r : Re.regex) bol (a s : str) g b' g' :
  takes r bol a s g b' g' -> takes (Re.opt r) bol a s g b' g'.
Proof. intros Hr R k v H. apply rx_opt_take. now apply Hr. Qed.

Lemma takes_opt_skip (l : str) bol (s : str) g :
  Py.startswith l s = false -> takes (Re.opt (Re.lit l)) bol [] s g bol g.
Proof.
  intros Hl R k v H. cbn [app]. unfold Re.opt. cbn [Re.rx].
  now rewrite rx_lit, Hl.
Qed.

(** The positions of two stretches, one after the other. *)
Lemma clear_app (l a b z : str) :
  (forall i, i < length a -> Py.startswith l (skipn i a ++ b ++ z) = false) ->
  (forall i, i < length b -> Py.startswith l (skipn i b ++ z) = false) ->
  forall i, i < length (a ++ b) -> Py.startswith l (skipn i (a ++ b) ++ z) = false.
Proof.
  intros Ha Hb i Hi. rewrite length_app in Hi.
  destruct (le_lt_dec (length a) i) as [Hge|Hlt].
  - rewrite skipn_app, skipn_all2 by exact Hge. cbn [app]. apply Hb. lia.
  - rewrite skipn_app_lt by lia. rewrite <- app_assoc. now apply Ha.
Qed.

(** [re.sub] with [count=1]: the first match is replaced and what follows
    it is kept. *)
Lemma sub_first (l : str) (r : Re.regex) (repl : str -> Re.caps -> str)
    (pre m post : str) (g : Re.caps) (b' : bool) :
  heads l r -> m <> [] ->
  (forall i, i < length pre -> Py.startswith l (skipn i pre ++ m ++ post) = false) ->
  takes r (eol true pre) m post [] b' g ->
  Re.sub r repl 1 (pre ++ m ++ post) = pre ++ repl m g ++ post.
Proof.
  intros Hh Hm Hpre Ht. unfold Re.sub. cbn [Re.limit].
  rewrite (sub_go_head_clear _ _ _ Hh) by exact Hpre.
  rewrite (sub_go_match r repl (Some 1) (eol true pre) m post g);
    [|exact Hm|reflexivity|exact (takes_match _ _ _ _ _ _ Ht)].
  cbn [Re.spend Nat.sub]. now rewrite sub_go_exhausted.
Qed.

Lemma auth_line_takes (with_user : bool) bol (post : str) :
  exists b',
    takes ApplyPhase1Standards.auth_rx bol (auth_line with_user) post [] b'
      [(1, auth_line with_user)].
Proof.
  unfold ApplyPhase1Standards.auth_rx, auth_line.
  destruct with_user; eexists; apply takes_grp;
    (eapply takes_cat_cons; [apply takes_lit|]).
  - eapply takes_cat_cons; [apply takes_opt_take, takes_lit|].
    apply takes_cat_last. apply takes_lit.
  - eapply takes_cat_cons; [apply takes_opt_skip; reflexivity|].
    apply takes_cat_last. apply takes_lit.
Qed.

Lemma get_opening_takes (params post : str) bol :
  params <> [] -> forallb not_closing params = true ->
  exists b',
    takes ApplyPhase1Standards.get_start_rx bol (handler_opening "GET" params) post [] b'
      [(1, handler_opening "GET" params)].
Proof.
  intros Hp Hf. eexists. unfold ApplyPhase1Standards.get_start_rx, Re.nset.
  change (handler_opening "GET" params)
    with ("export async function GET(" ++ params ++ ") {").
  apply takes_grp.
  eapply takes_cat_cons; [apply takes_lit|].
  eapply takes_cat_cons; [apply takes_plus_cls; [exact Hp|exact Hf|reflexivity]|].
  apply takes_cat_last. apply takes_lit.
Qed.

(** X22.  [add_request_tracking_to_get] of apply-phase1-standards, on a
    content with one [GET] handler that destructures the authentication
    result once: the correlation binding and the start time are put right
    after the opening of the handler, the rate check right after the
    destructuring, and every other character stays in place.  What comes
    after the destructuring may hold further destructurings: the rate
    check is inserted once. *)
Theorem get_handler_tracked (pre params body post : str) (with_user : bool) :
  Py.contains "export async function GET(" pre = false ->
  Py.contains "export async function GET(" body = false ->
  Py.contains "export async function GET(" post = false ->
  params <> [] -> forallb not_closing params = true ->
  Py.contains "const { tenantId" pre = false ->
  Py.contains "const { tenantId" params = false ->
  Py.contains "const { tenantId" body = false ->
  ApplyPhase1Standards.add_request_tracking_to_get
    (pre ++ handler_opening "GET" params ++ body ++ auth_line with_user ++ post)
  = pre ++ handler_opening "GET" params ++ ApplyPhase1Standards.tracking_code ++ body
      ++ auth_line with_user ++ ApplyPhase1Standards.rate_limit_code ++ post.
Proof.
  intros Hg1 Hg2 Hg3 Hp Hf Ht1 Ht2 Ht3.
  unfold ApplyPhase1Standards.add_request_tracking_to_get.
  (* the opening of the handler *)
  destruct (get_opening_takes params (body ++ auth_line with_user ++ post) (eol true pre)
              Hp Hf) as [b1 Htake1].
  assert (Hh1 : heads "export async function GET(" ApplyPhase1Standards.get_start_rx)
    by apply heads_grp_cat.
  rewrite (sub_single _ _ _ _ pre (handler_opening "GET" params)
             (body ++ auth_line with_user ++ post)
             [(1, handler_opening "GET" params)] b1 Hh1);
    [|discriminate|unfold handler_opening; discriminate| |exact Htake1|].
  2: { intros i Hi.
       change (handler_opening "GET" params)
         with ("export async function GET(" ++ params ++ ") {").
       rewrite <- !app_assoc.
       apply clear_before; auto; try (vm_compute; reflexivity); vm_compute; lia. }
  2: { apply contains_false_app.
       - intros i Hi. destruct with_user;
           (apply clear_before; auto; try (vm_compute; reflexivity); vm_compute; lia).
       - apply contains_false_app; [|exact Hg3].
         intros i Hi. destruct with_user;
           (apply clear_inside; [vm_compute; reflexivity|exact Hi]). }
  cbn [Re.group Nat.eqb].
  (* the destructuring *)
  destruct (auth_line_takes with_user
              (eol true (pre ++ handler_opening "GET" params
                           ++ ApplyPhase1Standards.tracking_code ++ body)) post)
    as [b2 Htake2].
  assert (Hh2 : heads "const { tenantId" ApplyPhase1Standards.auth_rx)
    by apply heads_grp_cat.
  replace (pre ++ (handler_opening "GET" params ++ ApplyPhase1Standards.tracking_code)
             ++ body ++ auth_line with_user ++ post)
    with ((pre ++ handler_opening "GET" params ++ ApplyPhase1Standards.tracking_code ++ body)
            ++ auth_line with_user ++ post)
    by now rewrite <- !app_assoc.
  rewrite (sub_first _ _ _
             (pre ++ handler_opening "GET" params ++ ApplyPhase1Standards.tracking_code ++ body)
             (auth_line with_user) post [(1, auth_line with_user)] b2 Hh2);
    [|destruct with_user; discriminate| |exact Htake2].
  - cbn [Re.group Nat.eqb]. now rewrite <- !app_assoc.
  - apply clear_app.
    { intros i Hi.
      change (handler_opening "GET" params)
        with ("export async function GET(" ++ params ++ ") {").
      rewrite <- !app_assoc.
      apply clear_before; auto; try (vm_compute; reflexivity); vm_compute; lia. }
    change (handler_opening "GET" params)
      with ("export async function GET(" ++ params ++ ") {").
    rewrite <- !app_assoc.
    apply clear_app; [intros i Hi; now apply clear_inside|].
    apply clear_app.
    { intros i Hi.
      change (") {" ++ ApplyPhase1Standards.tracking_code ++ body
                ++ auth_line with_user ++ post)
        with ((") {" ++ ApplyPhase1Standards.tracking_code) ++ body
                ++ auth_line with_user ++ post).
      apply clear_before; auto; try (vm_compute; reflexivity); vm_compute; lia. }
    apply clear_app; [intros i Hi; now apply clear_inside|].
    apply clear_app; [intros i Hi; now apply clear_inside|].
    intros i Hi.
    destruct with_user;
      (apply clear_before; auto; try (vm_compute; reflexivity); vm_compute; lia).
Qed.

Lemma get_handler_tracked_witness :
  ApplyPhase1Standards.add_request_tracking_to_get plain_get
  = handler_opening "GET" "request: NextRequest" ++ ApplyPhase1Standards.tracking_code
      ++ ([nl] ++ "  ") ++ auth_line true ++ ApplyPhase1Standards.rate_limit_code
      ++ ([nl] ++ "  return NextResponse.json(rows);" ++ [nl] ++ "}" ++ [nl]).
Proof.
  apply (get_handler_tracked [] "request: NextRequest" ([nl] ++ "  ")
           ([nl] ++ "  return NextResponse.json(rows);" ++ [nl] ++ "}" ++ [nl]) true).
  - reflexivity.
  - reflexivity.
  - reflexivity.
  - discriminate.
  - reflexivity.
  - reflexivity.
  - reflexivity.
  - reflexivity.
Defined.

(* ================================================================== *)
(** * The legacy internal error in update-phase1-endpoints *)

Lemma no_paren_arg (arg : str) :
  forallb no_paren arg = true ->
  forallb not_closing arg = true /\ ~ In "("%char arg /\ ~ In ")"%char arg.
Proof.
  intros H. splits.
  - rewrite forallb_forall in *. intros c Hc. specialize (H c Hc).
    unfold no_paren, not_closing in *. cbn [one_of] in *.
    destruct (Ascii.eqb c "("); [discriminate|exact H].
  - now apply (free_of "()").
  - now apply (free_of "()").
Qed.

(** A literal that starts with [l0], holds [o] and not [c], does not occur
    in a text made of a stretch without [l0], a call head [h] in which it
    cannot start, an argument without [o], the closing [c :: t] and
    another stretch without [l0]. *)
Lemma call_absent (l0 l h arg t pre post : str) (o c : ascii) :
  Py.startswith l0 l = true ->
  Py.contains l0 pre = false -> Py.contains l0 post = false ->
  no_border l h = true -> length l <= S (length h) -> no_start l h = true ->
  In o l -> ~ In o arg -> ~ In c l -> no_start l (c :: t) = true ->
  Py.contains l (pre ++ h ++ arg ++ (c :: t) ++ post) = false.
Proof.
  intros Hl0 Hpre Hpost Hb Hlen Hs Ho Harg Hc Ht.
  apply contains_false_app.
  { intros i Hi. apply clear_before; auto. now apply (contains_longer l0). }
  apply contains_false_app; [intros i Hi; now apply clear_inside|].
  apply contains_false_app.
  { intros i Hi. cbn [app]. apply (startswith_free _ _ _ o); auto.
    intros H. apply Harg. now apply In_skipn in H. }
  apply contains_false_app; [intros i Hi; now apply clear_inside|].
  now apply (contains_longer l0).
Qed.

Lemma heads_problem_full (problem : str) :
  heads ("errorResponse(" ++ problem ++ "(") (UpdatePhase1Endpoints.problem_rx problem).
Proof.
  intros b s H. unfold Re.match_at, UpdatePhase1Endpoints.problem_rx.
  rewrite !startswith_app_l in H.
  rewrite rx_cat_cons, rx_lit. destruct (Py.startswith "errorResponse(" s); [|reflexivity].
  rewrite rx_cat_cons, rx_lit. destruct (Py.startswith problem _); [|reflexivity].
  rewrite rx_cat_cons, rx_lit.
  cbn [andb] in H. now rewrite H.
Qed.

(** The rule for an internal error with a message and a second argument
    does not match a call with a single argument. *)
Lemma two_argument_rule_fails (arg post : str) (bol : bool) :
  arg <> [] -> single_argument UpdatePhase1Endpoints.quotes arg ->
  Re.match_at (UpdatePhase1Endpoints.problem_rx "internalServerErrorProblem") bol
    (legacy_internal_error arg ++ post) = None.
Proof.
  intros Ha Hshape.
  unfold Re.match_at, UpdatePhase1Endpoints.problem_rx, legacy_internal_error.
  rewrite <- !app_assoc.
  change ("errorResponse(internalServerErrorProblem(" ++ arg ++ "))" ++ post)
    with ("errorResponse(" ++ "internalServerErrorProblem" ++ "(" ++ arg ++ "))" ++ post).
  rewrite rx_cat_cons, rx_lit_app.
  rewrite rx_cat_cons, rx_lit_app.
  rewrite rx_cat_cons, rx_lit_app.
  rewrite rx_cat_cons. unfold Re.set at 1.
  destruct Hshape as [Hs|(q1 & q2 & msg & -> & Hq1 & Hq2 & Hm & Hf)].
  - destruct arg as [|c arg]; [congruence|].
    cbn [stops] in Hs. apply negb_true_iff in Hs.
    cbn [app Re.rx]. now rewrite Hs.
  - cbn [app Re.rx]. rewrite Hq1.
    rewrite rx_cat_cons. cbn [Re.rx]. unfold Re.nset.
    match goal with
    | |- Re.rx (Re.plus (Re.Cls ?p)) ?b ?t ?g ?k = None =>
        assert (Hk : forall b0 c t0, p c = true -> k b0 (c :: t0) g = None)
    end.
    { intros b0 c t0 Hc. cbv beta. rewrite rx_cat_cons. unfold Re.set at 1.
      cbn [Re.rx]. apply negb_true_iff in Hc. now rewrite Hc. }
    rewrite (rx_plus_cls_det _ _ _ _ Hk).
    destruct msg as [|c msg]; [congruence|].
    cbn [forallb] in Hf. apply andb_true_iff in Hf. destruct Hf as [Hc Hf].
    cbn [app]. rewrite Hc.
    rewrite <- app_assoc. cbn [app].
    rewrite drop_while_app_stop by (now rewrite Hq2).
    rewrite drop_while_all by exact Hf. cbn [app].
    rewrite rx_cat_cons. unfold Re.set at 1. cbn [Re.rx]. rewrite Hq2.
    rewrite rx_cat_cons, rx_lit. reflexivity.
Qed.

Lemma internal_any_takes (arg post : str) (bol : bool) :
  arg <> [] -> forallb not_closing arg = true ->
  exists b',
    takes UpdatePhase1Endpoints.internal_any_rx bol (legacy_internal_error arg) post [] b' [].
Proof.
  intros Ha Hf. eexists.
  unfold UpdatePhase1Endpoints.internal_any_rx, legacy_internal_error, Re.nset.
  eapply takes_cat_cons; [apply takes_lit|].
  eapply takes_cat_cons; [apply takes_plus_cls; [exact Ha|exact Hf|reflexivity]|].
  apply takes_cat_last. apply takes_lit.
Qed.

(** X23.  [replace_old_error_functions] of update-phase1-endpoints, on a
    content whose only legacy error call is an internal error with a
    single argument without parentheses, an expression or a quoted
    message: the call is replaced by the standard call with the code
    [INTERNAL_ERROR], the status 500 and the fixed message
    ['An unexpected error occurred'], the argument is dropped, and the
    text around the call is kept. *)
Theorem single_argument_error_generic (pre arg post : str) :
  Py.contains "errorResponse(" pre = false ->
  Py.contains "errorResponse(" post = false ->
  Py.contains "return successResponse(" pre = false ->
  Py.contains "return successResponse(" post = false ->
  arg <> [] -> forallb no_paren arg = true ->
  single_argument UpdatePhase1Endpoints.quotes arg ->
  UpdatePhase1Endpoints.replace_old_error_functions
    (pre ++ legacy_internal_error arg ++ post)
  = pre ++ generic_internal_error ++ post.
Proof.
  intros Hpre Hpost Hspre Hspost Ha Hnp Hshape.
  destruct (no_paren_arg _ Hnp) as (Hclose & Hopen & Hclosed).
  set (head := "errorResponse(internalServerErrorProblem(").
  assert (Hcall : pre ++ legacy_internal_error arg ++ post
                  = pre ++ head ++ arg ++ "))" ++ post).
  { unfold legacy_internal_error. now rewrite <- !app_assoc. }
  assert (Habsent : forall l,
            Py.startswith "errorResponse(" l = true ->
            no_border l head = true -> length l <= S (length head) ->
            no_start l head = true -> In "("%char l -> ~ In ")"%char l ->
            no_start l "))" = true ->
            Py.contains l (pre ++ legacy_internal_error arg ++ post) = false).
  { intros l H1 H2 H3 H4 H5 H6 H7. rewrite Hcall.
    now apply (call_absent "errorResponse(" l head arg ")" pre post "("%char ")"%char). }
  unfold UpdatePhase1Endpoints.replace_old_error_functions, Re.sub. cbn [Re.limit].
  (* the rules for a missing resource and for a bad request *)
  rewrite (sub_go_head_absent _ _ _ (heads_problem_full "notFoundProblem")).
  2: discriminate.
  2: { apply Habsent; try (vm_compute; reflexivity);
         [vm_compute; lia|vm_compute; tauto|vm_compute; intuition discriminate]. }
  rewrite (sub_go_head_absent _ _ _ (heads_problem_full "badRequestProblem")).
  2: discriminate.
  2: { apply Habsent; try (vm_compute; reflexivity);
         [vm_compute; lia|vm_compute; tauto|vm_compute; intuition discriminate]. }
  (* the rule for an internal error with two arguments *)
  rewrite (sub_go_head_clear _ _ _ (heads_problem_full "internalServerErrorProblem")).
  2: { intros i Hi. unfold legacy_internal_error. rewrite <- !app_assoc.
       apply clear_before;
         [now apply (contains_longer "errorResponse(")|vm_compute; reflexivity
         |vm_compute; lia|exact Hi]. }
  assert (Hmiss : Re.sub_go (UpdatePhase1Endpoints.problem_rx "internalServerErrorProblem")
                    (fun _ g => UpdatePhase1Endpoints.standard_error "INTERNAL_ERROR" "500" g)
                    None (eol true pre) 0 (legacy_internal_error arg ++ post)
                  = legacy_internal_error arg ++ post).
  { pose proof (two_argument_rule_fails arg post (eol true pre) Ha Hshape) as Hnone.
    unfold legacy_internal_error in *. rewrite <- !app_assoc in *.
    change ("errorResponse(internalServerErrorProblem(" ++ arg ++ "))" ++ post)
      with ("e"%char :: "rrorResponse(internalServerErrorProblem(" ++ arg ++ "))" ++ post)
      in *.
    rewrite sub_go_copy by exact Hnone. f_equal.
    apply (sub_go_head_absent _ _ _ (heads_problem_full "internalServerErrorProblem"));
      [discriminate|].
    apply contains_false_app; [intros i Hi; now apply clear_inside|].
    apply contains_false_app.
    { intros i Hi. apply (startswith_free _ _ _ "("%char); auto.
      - vm_compute. tauto.
      - intros H. apply Hopen. now apply In_skipn in H.
      - vm_compute. intuition discriminate. }
    apply contains_false_app; [intros i Hi; now apply clear_inside|].
    now apply (contains_longer "errorResponse("). }
  rewrite Hmiss.
  (* the rule for an internal error with any argument *)
  destruct (internal_any_takes arg post (eol true pre) Ha Hclose) as [b' Htake].
  assert (Hh : heads "errorResponse(internalServerErrorProblem("
                     UpdatePhase1Endpoints.internal_any_rx) by apply heads_cat.
  pose proof (sub_single _ _
                (fun _ _ => generic_internal_error) 0 pre (legacy_internal_error arg) post
                [] b' Hh) as Hsub.
  unfold Re.sub in Hsub. cbn [Re.limit] in Hsub.
  unfold generic_internal_error in Hsub at 1.
  rewrite Hsub; clear Hsub;
    [|discriminate|unfold legacy_internal_error; discriminate| |exact Htake
     |now apply (contains_longer "errorResponse(")].
  2: { intros i Hi. unfold legacy_internal_error. rewrite <- !app_assoc.
       apply clear_before;
         [now apply (contains_longer "errorResponse(")|vm_compute; reflexivity
         |vm_compute; lia|exact Hi]. }
  (* the rule for a success *)
  assert (Hs : heads "return successResponse(" UpdatePhase1Endpoints.success_rx)
    by apply heads_cat.
  rewrite (sub_go_head_absent _ _ _ Hs); [reflexivity|discriminate|].
  apply contains_false_app.
  { intros i Hi. unfold generic_internal_error.
    apply clear_before; auto; try (vm_compute; reflexivity); vm_compute; lia. }
  apply contains_false_app; [intros i Hi; now apply clear_inside|exact Hspost].
Qed.

Lemma single_argument_error_generic_witness :
  UpdatePhase1Endpoints.replace_old_error_functions
    ("    return " ++ legacy_internal_error "error.message" ++ ";")
  = "    return " ++ generic_internal_error ++ ";".
Proof.
  apply (single_argument_error_generic "    return " "error.message" ";").
  - reflexivity.
  - reflexivity.
  - reflexivity.
  - reflexivity.
  - discriminate.
  - reflexivity.
  - left. reflexivity.
Defined.

(* ================================================================== *)
(** * The legacy internal error in migrate-endpoints *)

Lemma migrate_internal_takes (arg post : str) (bol : bool) :
  arg <> [] -> forallb not_closing arg = true ->
  exists b',
    takes MigrateEndpoints.internal_error_rx bol
      ("return errorResponse(" ++ [] ++ "internalServerErrorProblem(" ++ arg ++ ")" ++ []
         ++ ")") post [] b' [].
Proof.
  intros Ha Hf. eexists.
  unfold MigrateEndpoints.internal_error_rx, Re.nset, Re.ws.
  eapply takes_cat_cons; [apply takes_lit|].
  eapply takes_cat_cons; [apply takes_star_cls; reflexivity|].
  eapply takes_cat_cons; [apply takes_lit|].
  eapply takes_cat_cons; [apply takes_plus_cls; [exact Ha|exact Hf|reflexivity]|].
  eapply takes_cat_cons; [apply takes_lit|].
  eapply takes_cat_cons; [apply takes_star_cls; reflexivity|].
  apply takes_cat_last. apply takes_lit.
Qed.

(** The message [extract_error_message] finds in a returned legacy
    internal error with a single argument without parentheses. *)
Lemma message_of_single_argument (arg : str) :
  arg <> [] -> forallb no_paren arg = true ->
  (stops (one_of MigrateEndpoints.quotes) arg = true ->
   MigrateEndpoints.extract_error_message ("return " ++ legacy_internal_error arg)
   = "'An error occurred'") /\
  (forall q1 q2 msg,
     arg = q1 :: msg ++ [q2] ->
     one_of MigrateEndpoints.quotes q1 = true ->
     one_of MigrateEndpoints.quotes q2 = true ->
     msg <> [] ->
     forallb (fun c => negb (one_of MigrateEndpoints.quotes c)) msg = true ->
     MigrateEndpoints.extract_error_message ("return " ++ legacy_internal_error arg)
     = "'" ++ msg ++ "'").
Proof.
  intros Ha Hnp. destruct (no_paren_arg _ Hnp) as (Hclose & Hopen & Hclosed).
  assert (Hcall : forall a, "return " ++ legacy_internal_error a
                            = "return errorResponse(" ++ "internalServerErrorProblem("
                                ++ a ++ "))")
    by (intros a; unfold legacy_internal_error; reflexivity).
  split.
  - intros Hs. rewrite Hcall. apply extract_unquoted; [reflexivity| |].
    + apply contains_false_app; [|reflexivity].
      intros i Hi. apply (startswith_free _ _ _ "("%char); auto.
      * vm_compute. tauto.
      * intros H. apply Hopen. now apply In_skipn in H.
      * vm_compute. intuition discriminate.
    + now apply stops_app.
  - intros q1 q2 msg -> Hq1 Hq2 Hm Hf. rewrite Hcall.
    replace ((q1 :: msg ++ [q2]) ++ "))") with ([q1] ++ msg ++ [q2] ++ "))")
      by (cbn [app]; now rewrite <- app_assoc).
    now apply extract_quoted.
Qed.

(** X24.  [update_error_responses] of migrate-endpoints, on a content
    whose only returned legacy error is an internal error with a single
    argument without parentheses: the return is replaced by the standard
    call with the code [INTERNAL_ERROR], the status 500 and the message
    [extract_error_message] finds, and the text around it is kept.  The
    message is the default ['An error occurred'] when the argument does
    not start with a quote, and the quoted message, between single
    quotes, when the argument is one message between two quotes. *)
Theorem internal_error_migrated (pre arg post : str) :
  Py.contains "return errorResponse(" pre = false ->
  Py.contains "return errorResponse(" post = false ->
  Py.contains "return successResponse(" pre = false ->
  Py.contains "return successResponse(" post = false ->
  arg <> [] -> forallb no_paren arg = true ->
  single_argument MigrateEndpoints.quotes arg ->
  MigrateEndpoints.update_error_responses (pre ++ ("return " ++ legacy_internal_error arg) ++ post)
  = pre ++ migrated_internal_error
             (MigrateEndpoints.extract_error_message ("return " ++ legacy_internal_error arg))
        ++ post /\
  (stops (one_of MigrateEndpoints.quotes) arg = true ->
   MigrateEndpoints.extract_error_message ("return " ++ legacy_internal_error arg)
   = "'An error occurred'") /\
  (forall q1 q2 msg,
     arg = q1 :: msg ++ [q2] ->
     one_of MigrateEndpoints.quotes q1 = true ->
     one_of MigrateEndpoints.quotes q2 = true ->
     msg <> [] ->
     forallb (fun c => negb (one_of MigrateEndpoints.quotes c)) msg = true ->
     MigrateEndpoints.extract_error_message ("return " ++ legacy_internal_error arg)
     = "'" ++ msg ++ "'").
Proof.
  intros Hpre Hpost Hspre Hspost Ha Hnp Hshape.
  destruct (no_paren_arg _ Hnp) as (Hclose & Hopen & Hclosed).
  destruct (message_of_single_argument arg Ha Hnp) as [Hu Hq].
  split; [|split; assumption].
  set (message := MigrateEndpoints.extract_error_message ("return " ++ legacy_internal_error arg)).
  assert (Hmsg : ~ In "("%char message).
  { destruct Hshape as [Hs|(q1 & q2 & msg & E & Hq1 & Hq2 & Hm & Hf)].
    - unfold message. rewrite (Hu Hs). vm_compute. intuition discriminate.
    - unfold message. rewrite (Hq q1 q2 msg E Hq1 Hq2 Hm Hf).
      intros Hin. apply Hopen. rewrite E.
      cbn [app In] in Hin. destruct Hin as [Hin|Hin]; [discriminate|].
      apply in_app_or in Hin. destruct Hin as [Hin|Hin].
      + right. apply in_or_app. now left.
      + cbn [In] in Hin. destruct Hin as [Hin|[]]. discriminate. }
  set (head := "return errorResponse(internalServerErrorProblem(").
  assert (Hcall : pre ++ ("return " ++ legacy_internal_error arg) ++ post
                  = pre ++ head ++ arg ++ "))" ++ post).
  { unfold legacy_internal_error. rewrite <- !app_assoc. reflexivity. }
  assert (Habsent : forall l,
            Py.startswith "return errorResponse(" l = true ->
            no_border l head = true -> length l <= S (length head) ->
            no_start l head = true -> In "("%char l -> ~ In ")"%char l ->
            no_start l "))" = true ->
            Py.contains l (pre ++ ("return " ++ legacy_internal_error arg) ++ post) = false).
  { intros l H1 H2 H3 H4 H5 H6 H7. rewrite Hcall.
    now apply (call_absent "return errorResponse(" l head arg ")" pre post "("%char ")"%char). }
  unfold MigrateEndpoints.update_error_responses, Re.sub. cbn [Re.limit].
  (* the rules for the tenant error and for a missing resource *)
  assert (Htenant : heads "return errorResponse(tenantResult" MigrateEndpoints.tenant_error_rx)
    by (apply (heads_shorter _ "return errorResponse(tenantResult.error)");
        [reflexivity|apply heads_lit]).
  rewrite (sub_go_head_absent _ _ _ Htenant).
  2: discriminate.
  2: { apply Habsent; try (vm_compute; reflexivity);
         [vm_compute; lia|vm_compute; tauto|vm_compute; intuition discriminate]. }
  assert (Hnf : heads "return errorResponse(notFoundProblem(" MigrateEndpoints.not_found_rx)
    by apply heads_cat.
  rewrite (sub_go_head_absent _ _ _ Hnf).
  2: discriminate.
  2: { apply Habsent; try (vm_compute; reflexivity);
         [vm_compute; lia|vm_compute; tauto|vm_compute; intuition discriminate]. }
  (* the rule for an internal error *)
  destruct (migrate_internal_takes arg post (eol true pre) Ha Hclose) as [b' Htake].
  assert (Hh : heads "return errorResponse(" MigrateEndpoints.internal_error_rx)
    by apply heads_cat.
  match type of Htake with
  | takes _ _ ?M _ _ _ _ =>
      replace M with ("return " ++ legacy_internal_error arg) in Htake
        by (unfold legacy_internal_error; reflexivity)
  end.
  pose proof (sub_single _ _
                (fun m (_ : Re.caps) =>
                   migrated_internal_error (MigrateEndpoints.extract_error_message m))
                0 pre ("return " ++ legacy_internal_error arg) post [] b' Hh) as Hsub.
  unfold Re.sub in Hsub. cbn [Re.limit] in Hsub.
  unfold migrated_internal_error in Hsub at 1.
  rewrite Hsub; clear Hsub;
    [|discriminate|discriminate| |exact Htake|exact Hpost].
  2: { intros i Hi.
       change ("return " ++ legacy_internal_error arg) with (head ++ arg ++ "))").
       rewrite <- !app_assoc.
       apply clear_before; [exact Hpre|vm_compute; reflexivity|vm_compute; lia|exact Hi]. }
  (* the rule for a success *)
  assert (Hs : heads "return successResponse(" MigrateEndpoints.success_rx)
    by apply heads_cat.
  cbv beta.
  change (MigrateEndpoints.extract_error_message ("return " ++ legacy_internal_error arg))
    with message.
  rewrite (sub_go_head_absent _ _ _ Hs);
    [reflexivity|discriminate|].
  unfold migrated_internal_error. rewrite <- !app_assoc.
  apply contains_false_app.
  { intros i Hi.
    apply clear_before; [exact Hspre|vm_compute; reflexivity|vm_compute; lia|exact Hi]. }
  apply contains_false_app; [intros i Hi; now apply clear_inside|].
  apply contains_false_app.
  { intros i Hi. apply (startswith_free _ _ _ "("%char).
    - vm_compute. tauto.
    - intros H. apply Hmsg. now apply In_skipn in H.
    - vm_compute. intuition discriminate. }
  apply contains_false_app; [intros i Hi; now apply clear_inside|exact Hspost].
Qed.

Lemma internal_error_migrated_witness :
  MigrateEndpoints.update_error_responses
    ("    " ++ ("return " ++ legacy_internal_error "error.message") ++ ";")
  = "    " ++ migrated_internal_error "'An error occurred'" ++ ";".
Proof.
  destruct (internal_error_migrated "    " "error.message" ";") as (H1 & H2 & _).
  - reflexivity.
  - reflexivity.
  - reflexivity.
  - reflexivity.
  - discriminate.
  - reflexivity.
  - left. reflexivity.
  - rewrite H1, H2 by reflexivity. reflexivity.
Defined.

(* ================================================================== *)
(** * The import block of apply-phase1-standards *)

(** A group that ends with a lazy repetition of any character, followed
    by a literal: the group ends where the literal starts first, when
    what follows the literal matches there. *)
Lemma takes_grp_lazy_until (i0 : nat) (a : Re.regex) (l : str) (r : Re.regex) bol
    (u body w s : str) g b1 g1 b' g' :
  takes a bol u (body ++ l ++ w ++ s) g b1 g1 ->
  (forall i, i < length body -> Py.startswith l (skipn i body ++ l ++ w ++ s) = false) ->
  takes r (eol (eol b1 body) l) w s ((i0, u ++ body) :: g1) b' g' ->
  takes (Re.Seq (Re.Grp i0 (Re.Seq a (Re.lazy_star Re.any))) (Re.Seq (Re.lit l) r)) bol
    ((u ++ body) ++ l ++ w) s g b' g'.
Proof.
  intros Ha Hno Hr R k v H.
  replace (((u ++ body) ++ l ++ w) ++ s) with (u ++ body ++ l ++ w ++ s)
    by now rewrite <- !app_assoc.
  cbn [Re.rx Re.lazy_star]. apply Ha. apply rep_lazy_any.
  - lia.
  - intros i b Hi. apply rx_seq_lit_fail. now apply Hno.
  - cbn [Re.rx]. rewrite rx_lit_app.
    replace (firstn (length (u ++ body ++ l ++ w ++ s) - length (l ++ w ++ s))
               (u ++ body ++ l ++ w ++ s)) with (u ++ body).
    + now apply Hr.
    + replace (u ++ body ++ l ++ w ++ s) with ((u ++ body) ++ l ++ w ++ s)
        by now rewrite <- app_assoc.
      now rewrite firstn_app_exact.
Qed.

Lemma takes_bol (s : str) g : takes Re.Bol true [] s g true g.
Proof. intros R k v H. exact H. Qed.

Lemma takes_ahead (a : Re.regex) bol (s : str) g g1 :
  Re.rx a bol s g (fun _ _ g' => Some g') = Some g1 ->
  takes (Re.Ahead a) bol [] s g bol g1.
Proof. intros Ha R k v H. cbn [app Re.rx]. now rewrite Ha. Qed.

Lemma replace_first (old new t : str) :
  old <> [] -> Py.contains old t = false ->
  Py.replace old new (old ++ t) = new ++ t.
Proof.
  intros Hne Ht. rewrite replace_nonempty by exact Hne.
  rewrite replace_go_hit by exact Hne.
  rewrite <- replace_nonempty by exact Hne. now rewrite replace_absent.
Qed.

(** X25.  [apply_phase1_imports] of apply-phase1-standards replaces the
    import block at the head of a file by the standard imports.  For a
    content that starts with [import], goes on without an empty line up
    to an empty line that is followed by [export] or by a comment, the
    text before the empty line is replaced by [PHASE1_IMPORTS], and the
    empty line and what follows are kept, when the block does not occur
    again there. *)
Theorem import_block_replaced (block marker rest : str) :
  marker = "export" \/ marker = "//" ->
  Py.contains [nl; nl] ("import" ++ block ++ [nl]) = false ->
  Py.contains ("import" ++ block) ([nl; nl] ++ marker ++ rest) = false ->
  ApplyPhase1Standards.apply_phase1_imports
    (("import" ++ block) ++ [nl; nl] ++ marker ++ rest)
  = ApplyPhase1Standards.PHASE1_IMPORTS ++ [nl; nl] ++ marker ++ rest.
Proof.
  intros Hmarker Hline Hagain.
  unfold ApplyPhase1Standards.apply_phase1_imports, Re.search.
  assert (Hahead : exists g1,
             Re.rx (Re.Alt (Re.lit "export") (Re.lit "//")) (eol (eol true ("import" ++ block)) [nl; nl])
               (marker ++ rest) [(1, "import" ++ block)] (fun _ _ g' => Some g') = Some g1 /\
             Re.group g1 1 = "import" ++ block).
  { exists [(1, "import" ++ block)]. split; [|reflexivity].
    cbn [Re.rx]. unfold Re.first_some.
    destruct Hmarker as [->| ->]; rewrite !rx_lit; reflexivity. }
  destruct Hahead as (g1 & Hahead & Hgroup).
  assert (Htake : takes ApplyPhase1Standards.import_section_rx true
                    ([] ++ ("import" ++ block) ++ [nl; nl] ++ []) (marker ++ rest) [] 
                    (eol (eol true ("import" ++ block)) [nl; nl]) g1).
  { unfold ApplyPhase1Standards.import_section_rx.
    eapply takes_cat_cons; [apply takes_bol|].
    apply (takes_grp_lazy_until 1 (Re.lit "import") [nl; nl]
             (Re.cat [Re.Ahead (Re.Alt (Re.lit "export") (Re.lit "//"))])
             true "import" block [] (marker ++ rest) [] (eol true "import") []).
    - apply takes_lit.
    - intros i Hi.
      assert (Hc : Py.contains [nl; nl] (block ++ [nl]) = false).
      { change ("import" ++ block ++ [nl]) with ("import" ++ (block ++ [nl])) in Hline.
        apply (contains_false_skipn _ _ 6) in Hline. exact Hline. }
      change (skipn i block ++ [nl; nl] ++ [] ++ marker ++ rest)
        with (skipn i block ++ [nl] ++ ([nl] ++ marker ++ rest)).
      rewrite (app_assoc (skipn i block) [nl]).
      replace (skipn i block ++ [nl]) with (skipn i (block ++ [nl]))
        by (rewrite skipn_app; replace (i - length block) with 0 by lia; reflexivity).
      rewrite startswith_app_long
        by (rewrite length_skipn, length_app; cbn [length]; lia).
      now apply contains_false_at.
    - apply takes_cat_last. apply takes_ahead. exact Hahead. }
  change ([] ++ ("import" ++ block) ++ [nl; nl] ++ [])
    with (("import" ++ block) ++ [nl; nl]) in Htake.
  apply takes_match in Htake.
  replace (("import" ++ block) ++ [nl; nl] ++ marker ++ rest)
    with ((("import" ++ block) ++ [nl; nl]) ++ marker ++ rest)
    by now rewrite <- !app_assoc.
  rewrite (search_from_hit _ _ _ _ _ Htake). rewrite Hgroup.
  rewrite <- app_assoc. apply replace_first; [discriminate|exact Hagain].
Qed.

Lemma import_block_replaced_witness :
  ApplyPhase1Standards.apply_phase1_imports
    (("import" ++ " { query } from '@/lib/db';") ++ [nl; nl] ++ "export" ++ " async function GET() {}")
  = ApplyPhase1Standards.PHASE1_IMPORTS ++ [nl; nl] ++ "export" ++ " async function GET() {}".
Proof.
  apply (import_block_replaced " { query } from '@/lib/db';" "export" " async function GET() {}").
  - left. reflexivity.
  - vm_compute. reflexivity.
  - vm_compute. reflexivity.
Defined.

(* ================================================================== *)
(** * The catch blocks of update-phase1-endpoints *)

Lemma greedy_back_none (R : Type) (k : bool -> str -> Re.caps -> option R) g (a s : str) :
  (forall j b, j <= length a -> k b (skipn j a ++ s) g = None) ->
  forall bol, greedy_back k g a bol s = None.
Proof.
  induction a as [|c a IH]; intros H bol; cbn [greedy_back].
  - exact (H 0 bol (Nat.le_refl _)).
  - rewrite IH.
    + apply (H 0 bol). lia.
    + intros j b Hj. apply (H (S j) b). cbn [length]. lia.
Qed.

(** A greedy repetition gives back down to the last place where the
    continuation succeeds. *)
Lemma greedy_back_from (R : Type) (k : bool -> str -> Re.caps -> option R) g
    (a1 a2 s : str) (v : R) :
  (forall j b, 1 <= j <= length a2 -> k b (skipn j a2 ++ s) g = None) ->
  forall bol, k (eol bol a1) (a2 ++ s) g = Some v ->
  greedy_back k g (a1 ++ a2) bol s = Some v.
Proof.
  intros Hno. induction a1 as [|c a1 IH]; intros bol Hk.
  - cbn [app eol] in *. destruct a2 as [|c a2]; [exact Hk|].
    cbn [greedy_back]. rewrite greedy_back_none; [exact Hk|].
    intros j b Hj. apply (Hno (S j) b). cbn [length]. lia.
  - cbn [app greedy_back]. now rewrite (IH (is_nl c) Hk).
Qed.

Lemma takes_greedy_until (p : ascii -> bool) (l : str) (r : Re.regex) bol
    (b1 u s : str) g b' g' :
  forallb p (b1 ++ l ++ u) = true -> stops p s = true ->
  (forall j, 1 <= j <= length (l ++ u) ->
             Py.startswith l (skipn j (l ++ u) ++ s) = false) ->
  takes r (eol (eol bol b1) l) u s g b' g' ->
  takes (Re.Seq (Re.star (Re.Cls p)) (Re.Seq (Re.lit l) r)) bol (b1 ++ l ++ u) s g b' g'.
Proof.
  intros Hp Hs Hno Hr R k v H. cbn [Re.rx].
  rewrite rx_star_cls by assumption.
  apply greedy_back_from.
  - intros j b Hj. apply rx_seq_lit_fail. now apply Hno.
  - rewrite <- app_assoc. cbn [Re.rx]. rewrite rx_lit_app. now apply Hr.
Qed.

(** A literal of the class [p] does not start in a text without it that
    is followed by a character outside [p], or by nothing. *)
Lemma clear_stop (p : ascii -> bool) (l u v : str) :
  l <> [] -> forallb p l = true -> stops p v = true ->
  Py.contains l u = false ->
  forall i, i <= length u -> Py.startswith l (skipn i u ++ v) = false.
Proof.
  intros Hne Hp Hs Hc i Hi.
  destruct (le_lt_dec (length l) (length (skipn i u))) as [Hl|Hl].
  - rewrite startswith_app_long by exact Hl. now apply contains_false_at.
  - rewrite startswith_app_short by lia.
    apply andb_false_iff. right.
    assert (Hin : forall c, In c (skipn (length (skipn i u)) l) -> p c = true).
    { intros c Hin. rewrite forallb_forall in Hp. apply Hp. eapply In_skipn, Hin. }
    destruct (skipn (length (skipn i u)) l) as [|c rest] eqn:Es.
    + apply (f_equal (@length ascii)) in Es. rewrite length_skipn in Es.
      cbn [length] in Es. lia.
    + destruct v as [|d v]; [reflexivity|].
      cbn [Py.startswith]. specialize (Hin c (or_introl eq_refl)).
      cbn [stops] in Hs. apply negb_true_iff in Hs.
      destruct (Ascii.eqb c d) eqn:E; [|reflexivity].
      apply Ascii.eqb_eq in E. subst d. congruence.
Qed.

Lemma heads_catch : heads "} catch (error" UpdatePhase1Endpoints.catch_rx.
Proof. apply heads_cat. Qed.

(** X26.  [add_logging_to_catch] of update-phase1-endpoints on a content
    with one catch block: the head of the block up to its opening brace
    becomes [} catch (error: any) {]; when the body up to its first
    closing brace holds [console.error] and no [logResponse], a call of
    [logResponse] is put before every [console.error] of it, and a body
    that holds [logResponse] already is kept.  The text around the block
    is kept. *)
Theorem catch_block_logged (pre h b1 b2 post : str) :
  Py.contains "} catch (error" pre = false ->
  Py.contains "} catch (error" post = false ->
  forallb no_open_brace h = true ->
  forallb no_close_brace b1 = true -> forallb no_close_brace b2 = true ->
  stops no_close_brace post = true ->
  Py.contains "console.error" b2 = false ->
  UpdatePhase1Endpoints.add_logging_to_catch
    (pre ++ ("} catch (error" ++ h ++ "{" ++ b1 ++ "console.error" ++ b2) ++ post)
  = pre ++ ("} catch (error: any) {" ++
            (if Py.contains "logResponse" (b1 ++ "console.error" ++ b2)
             then b1 ++ "console.error" ++ b2
             else Py.replace "console.error"
"logResponse(requestId, 500, Date.now() - startTime, {
      error: error.message,
    });

    console.error" (b1 ++ "console.error" ++ b2))) ++ post.
Proof.
  intros Hpre Hpost Hh Hb1 Hb2 Hs Hlast.
  unfold UpdatePhase1Endpoints.add_logging_to_catch.
  set (body := b1 ++ "console.error" ++ b2).
  assert (Ht : exists b',
             takes UpdatePhase1Endpoints.catch_rx (eol true pre)
               ("} catch (error" ++ h ++ "{" ++ body) post [] b' [(1, body)]).
  { eexists. unfold UpdatePhase1Endpoints.catch_rx, Re.nset.
    eapply takes_cat_cons; [apply takes_lit|].
    eapply takes_cat_cons; [apply takes_star_cls; [exact Hh|reflexivity]|].
    eapply takes_cat_cons; [apply takes_lit|].
    rewrite <- (app_nil_r body) at 1.
    eapply takes_cat_cons; [|apply takes_cat_nil].
    rewrite app_nil_l.
    apply takes_grp. unfold body.
    apply (takes_greedy_until _ "console.error"
             (Re.cat [Re.star (Re.Cls (fun c => negb (one_of "}" c)))])).
    - change (forallb no_close_brace (b1 ++ "console.error" ++ b2) = true).
      rewrite !forallb_app, Hb1, Hb2. reflexivity.
    - exact Hs.
    - intros j Hj.
      destruct (le_lt_dec (length "console.error") j) as [Hge|Hlt].
      + rewrite skipn_app, (skipn_all2 "console.error") by exact Hge.
        cbn [app]. apply (clear_stop no_close_brace);
          [discriminate|reflexivity|exact Hs|exact Hlast|].
        rewrite length_app in Hj. lia.
      + rewrite skipn_app_lt by lia. rewrite <- app_assoc.
        cbn [length] in Hlt.
        do 13 (destruct j as [|j]; [try lia; reflexivity|]). lia.
    - apply takes_cat_last. apply takes_star_cls; [exact Hb2|exact Hs]. }
  destruct Ht as [b' Ht].
  rewrite (sub_single _ _ _ _ pre _ post [(1, body)] b' heads_catch);
    [|discriminate|discriminate| |exact Ht|exact Hpost].
  - unfold UpdatePhase1Endpoints.add_log.
    change (Re.group [(1, body)] 1) with body.
    destruct (Py.contains "logResponse" body); reflexivity.
  - intros i Hi. rewrite <- !app_assoc.
    apply clear_before; [exact Hpre|vm_compute; reflexivity|vm_compute; lia|exact Hi].
Qed.

Lemma catch_block_logged_witness :
  UpdatePhase1Endpoints.add_logging_to_catch
    ("try { run(); " ++ ("} catch (error" ++ ") " ++ "{" ++ " " ++ "console.error" ++ "(error); ") ++ "}")
  = "try { run(); " ++ ("} catch (error: any) {" ++
      (if Py.contains "logResponse" (" " ++ "console.error" ++ "(error); ")
       then " " ++ "console.error" ++ "(error); "
       else Py.replace "console.error"
"logResponse(requestId, 500, Date.now() - startTime, {
      error: error.message,
    });

    console.error" (" " ++ "console.error" ++ "(error); "))) ++ "}".
Proof.
  apply (catch_block_logged "try { run(); " ") " " " "(error); " "}");
    vm_compute; reflexivity.
Defined.
(* ================================================================== *)
(** * Renaming of the pagination calls (C7) *)





Section Pieces.
Import Re.
Variable R : Type.
Variables (i : nat) (q : ascii -> bool) (rest : regex).
Variable k : bool -> str -> caps -> option R.
Hypothesis Hstop : forall b c t g, q c = true -> rx rest b (c :: t) g k = None.


Hypothesis Hq : forall c, is_space c = true -> q c = true.
Hypothesis Hcap : forall b s g g', rx rest b s g k = None -> rx rest b s g' k = None.



End Pieces.










(* ================================================================== *)
(** * The counters of the batches *)

Opaque ApplyPhase1Standards.transform UpdatePhase1Endpoints.transform
  UpdatePhase1Endpoints.already_updated MigrateEndpoints.transform
  MigrateEndpoints.already_migrated ApplyRbac.transform
  ApplyRbac.get_resource_from_path FixAllMethods.fix_methods str_eqb.

Lemma present_store (w : world) (p : str) (f f' : file) (q : str) :
  files w p = Some f ->
  match store (files w) p f' q with
  | Some _ => true
  | None => false
  end = present w q.
Proof.
  intros Hf. unfold store, present.
  destruct (str_eqb q p) eqn:E; [|reflexivity].
  apply str_eqb_eq in E. subst q. now rewrite Hf.
Qed.

Lemma missing_same (w w' : world) (paths : list str) :
  (forall q, present w' q = present w q) -> missing w' paths = missing w paths.
Proof.
  intros H. unfold missing. f_equal. apply filter_ext. intros q. now rewrite H.
Qed.

Lemma missing_cons (w : world) (p : str) (paths : list str) :
  missing w (p :: paths) = (if present w p then 0 else 1) + missing w paths.
Proof. unfold missing. cbn [filter]. now destruct (present w p). Qed.

(** A file task that wrote nothing and one that wrote [out] on [p]. *)
Ltac quiet := eexists _, _; split; [reflexivity|]; split; [reflexivity|simpl; lia].
Ltac wrote Ef :=
  eexists _, _; split; [reflexivity|]; split;
  [ intros q; unfold present at 1; simpl; now apply (present_store _ _ _ _ _ Ef)
  | simpl; rewrite length_app; simpl; lia ].





(** One call of [migrate_endpoint]: it returns, no file appears or
    disappears, it returns [False] on a path that names no file, and it
    writes at most once, and only when it returns [True]. *)
Lemma migrate_endpoint_effect (p : str) (w : world) :
  exists b w', MigrateEndpoints.migrate_endpoint p w = (Done b, w') /\
    (forall q, present w' q = present w q) /\
    (present w p = false -> b = false) /\
    length (writes w') <= length (writes w) + (if b then 1 else 0).
Proof.
  unfold MigrateEndpoints.migrate_endpoint, present. run.
  destruct (files w p) as [f|] eqn:Ef; simpl.
  2: { eexists _, _. split; [reflexivity|]. splits; auto. simpl. lia. }
  rewrite Ef. simpl.
  assert (Hq : forall (b : bool) (c : list line),
             exists b' w', (Done b, mkWorld (files w) (reads w ++ [p]) (writes w) c
                                            (stat_error w))
                           = (Done b', w') /\
               (forall q, present w' q = present w q) /\
               (true = false -> b' = false) /\
               length (writes w') <= length (writes w) + (if b' then 1 else 0)).
  { intros b c. eexists _, _. split; [reflexivity|]. splits; auto; [discriminate|].
    simpl. destruct b; lia. }
  destruct (readable f); simpl; [|apply Hq].
  destruct (MigrateEndpoints.already_migrated (text f)); simpl; [apply Hq|].
  destruct (str_eqb _ _); simpl; [apply Hq|].
  rewrite Ef. simpl. destruct (writable f); simpl; [|apply Hq].
  eexists _, _. split; [reflexivity|]. splits.
  - intros q. simpl. now apply (present_store _ _ _ _ _ Ef).
  - discriminate.
  - simpl. rewrite length_app. simpl. lia.
Qed.

(** X9.  The batch of migrate-endpoints runs to the end on every world
    and its three counters add up to the number of endpoints.  [skipped]
    counts exactly the endpoint paths that name no file; a file that
    exists is counted as migrated or as failed, and [migrated] bounds the
    writes made, since it also counts the files found migrated or left
    unchanged; no file appears or disappears. *)
Theorem migrate_main_counts (endpoints : list str) :
  forall (c : MigrateEndpoints.counts) (w : world),
  exists c' w',
    MigrateEndpoints.main_loop endpoints c w = (Done c', w') /\
    MigrateEndpoints.migrated c' + MigrateEndpoints.failed c' + MigrateEndpoints.skipped c'
    = MigrateEndpoints.migrated c + MigrateEndpoints.failed c + MigrateEndpoints.skipped c
      + length endpoints /\
    MigrateEndpoints.skipped c'
    = MigrateEndpoints.skipped c
      + missing w (map (fun e => MigrateEndpoints.BASE_DIR ++ "/" ++ e) endpoints) /\
    length (writes w') + MigrateEndpoints.migrated c
    <= length (writes w) + MigrateEndpoints.migrated c' /\
    (forall q, present w' q = present w q).
Proof.
  induction endpoints as [|e rest IH]; intros c w;
    cbn [MigrateEndpoints.main_loop map].
  - exists c, w. unfold ret. splits; auto; cbn; lia.
  - rewrite missing_cons. unfold bind at 1.
    destruct (migrate_endpoint_effect (MigrateEndpoints.BASE_DIR ++ "/" ++ e) w)
      as (b & w1 & -> & Hp & Hno & Hw).
    destruct b; cbv beta iota.
    + match goal with |- context [MigrateEndpoints.main_loop rest ?c1 w1] =>
        destruct (IH c1 w1) as (c' & w' & Hrun & Hsum & Hskip & Hwr & Hpres)
      end.
      exists c', w'. split; [exact Hrun|].
      rewrite (missing_same w w1) in Hskip by exact Hp.
      destruct (present w (MigrateEndpoints.BASE_DIR ++ "/" ++ e));
        [|specialize (Hno eq_refl); discriminate].
      cbn [MigrateEndpoints.migrated MigrateEndpoints.failed MigrateEndpoints.skipped
             length] in *.
      splits; [lia|lia|lia|intros q; now rewrite Hpres].
    + unfold bind at 1. unfold path_exists at 1.
      rewrite <- (Hp (MigrateEndpoints.BASE_DIR ++ "/" ++ e)). unfold present at 1.
      destruct (files w1 (MigrateEndpoints.BASE_DIR ++ "/" ++ e)); cbv beta iota;
        match goal with |- context [MigrateEndpoints.main_loop rest ?c1 w1] =>
          destruct (IH c1 w1) as (c' & w' & Hrun & Hsum & Hskip & Hwr & Hpres)
        end;
        (exists c', w'; split; [exact Hrun|]);
        rewrite (missing_same w w1) in Hskip by exact Hp;
        cbn [MigrateEndpoints.migrated MigrateEndpoints.failed MigrateEndpoints.skipped
               length] in *;
        (splits; [lia|lia|lia|intros q; now rewrite Hpres]).
Qed.

(** One call of [process_file] of apply-rbac: it returns, no file appears
    or disappears, and it made one write when it returns [True], none
    otherwise. *)
Lemma rbac_process_file_effect (p r : str) (w : world) :
  exists b w', ApplyRbac.process_file p r w = (Done b, w') /\
    (forall q, present w' q = present w q) /\
    length (writes w') = length (writes w) + (if b then 1 else 0).
Proof.
  unfold ApplyRbac.process_file. run.
  destruct (files w p) as [f|] eqn:Ef; simpl; [|quiet].
  destruct (readable f); simpl; [|quiet].
  destruct (str_eqb _ _); simpl; [quiet|].
  rewrite Ef. simpl. destruct (writable f); simpl; [wrote Ef|quiet].
Qed.

(** X10.  The batch of apply-rbac runs to the end on every world and for
    every list of route files: each file is either processed or skipped,
    [skipped] counts exactly the paths to which [get_resource_from_path]
    gives no resource, [updated] counts exactly the writes made and never
    exceeds what [processed] gained, and no file appears or disappears. *)
Theorem rbac_main_counts (route_files : list str) :
  forall (c : ApplyRbac.counts) (w : world),
  exists c' w',
    ApplyRbac.main_loop route_files c w = (Done c', w') /\
    ApplyRbac.processed c' + ApplyRbac.skipped c'
    = ApplyRbac.processed c + ApplyRbac.skipped c + length route_files /\
    ApplyRbac.skipped c'
    = ApplyRbac.skipped c
      + length (filter (fun p => match ApplyRbac.get_resource_from_path p with
                                 | Some _ => false
                                 | None => true
                                 end) route_files) /\
    length (writes w') + ApplyRbac.updated c = length (writes w) + ApplyRbac.updated c' /\
    ApplyRbac.updated c' + ApplyRbac.processed c
    <= ApplyRbac.updated c + ApplyRbac.processed c' /\
    (forall q, present w' q = present w q).
Proof.
  induction route_files as [|p rest IH]; intros c w;
    cbn [ApplyRbac.main_loop filter].
  - exists c, w. unfold ret. splits; auto; cbn; lia.
  - destruct (ApplyRbac.get_resource_from_path p) as [r|] eqn:Eg.
    + unfold bind at 1.
      destruct (rbac_process_file_effect p r w) as (b & w1 & -> & Hp & Hw).
      match goal with |- context [ApplyRbac.main_loop rest ?c1 w1] =>
        destruct (IH c1 w1) as (c' & w' & Hrun & Hsum & Hskip & Hwr & Hle & Hpres)
      end.
      exists c', w'. split; [exact Hrun|].
      destruct b; cbn [ApplyRbac.processed ApplyRbac.updated ApplyRbac.skipped length] in *;
        (splits; [lia|lia|lia|lia|intros q; now rewrite Hpres]).
    + unfold bind at 1. unfold print at 1. cbv beta iota.
      match goal with |- context [ApplyRbac.main_loop rest ?c1 ?w1] =>
        destruct (IH c1 w1) as (c' & w' & Hrun & Hsum & Hskip & Hwr & Hle & Hpres)
      end.
      exists c', w'. split; [exact Hrun|].
      cbn [ApplyRbac.processed ApplyRbac.updated ApplyRbac.skipped length writes] in *.
      splits; [lia|lia|lia|lia|exact Hpres].
Qed.




(* ================================================================== *)
(** * Writing only on change, the other three tasks *)

(** X17.  The file tasks of migrate-endpoints, apply-rbac and
    fix-all-methods write only on change, as the two of C5 do.  Each of
    them either leaves the files and the record of writes as they are, or
    makes exactly one write, of the whole transformed text, on its own
    path; for the first two the text written differs from the text read,
    and for fix-all-methods the loop over the methods has set
    [changes_made].  When the loop leaves [changes_made] unset the content
    is the one read, so no change is lost by not writing. *)
Theorem other_tasks_write_on_change :
  (forall (p : str) (w : world),
     let w' := snd (MigrateEndpoints.migrate_endpoint p w) in
     untouched w w' \/
     exists f, files w p = Some f /\ readable f = true /\
               MigrateEndpoints.already_migrated (text f) = false /\
               MigrateEndpoints.transform (text f) <> text f /\
               replaced p (MigrateEndpoints.transform (text f)) w w') /\
  (forall (p r : str) (w : world),
     let w' := snd (ApplyRbac.process_file p r w) in
     untouched w w' \/
     exists f, files w p = Some f /\ readable f = true /\
               ApplyRbac.transform (text f) r <> text f /\
               replaced p (ApplyRbac.transform (text f) r) w w') /\
  (forall (p r : str) (w : world),
     let w' := snd (FixAllMethods.process_file p r w) in
     untouched w w' \/
     exists f out, files w p = Some f /\ readable f = true /\
                   Py.contains "requirePermission" (text f) = true /\
                   FixAllMethods.fix_methods FixAllMethods.METHOD_ACTIONS r (text f) false
                   = (out, true) /\
                   replaced p out w w') /\
  (forall (r content out : str),
     FixAllMethods.fix_methods FixAllMethods.METHOD_ACTIONS r content false = (out, false) ->
     out = content).
Proof.
  splits.
  - intros p w. cbv zeta. unfold MigrateEndpoints.migrate_endpoint. run.
    destruct (files w p) as [f|] eqn:Ef; simpl; [|left; split; reflexivity].
    rewrite Ef. simpl.
    destruct (readable f) eqn:Er; simpl; [|left; split; reflexivity].
    destruct (MigrateEndpoints.already_migrated (text f)) eqn:Ea; simpl;
      [left; split; reflexivity|].
    destruct (str_eqb (MigrateEndpoints.transform (text f)) (text f)) eqn:Eq; simpl;
      [left; split; reflexivity|].
    rewrite Ef. simpl.
    destruct (writable f) eqn:Ew; simpl; [|left; split; reflexivity].
    right. exists f. splits; auto; [now apply str_eqb_neq|].
    exists f. splits; auto.
  - intros p r w. cbv zeta. unfold ApplyRbac.process_file. run.
    destruct (files w p) as [f|] eqn:Ef; simpl; [|left; split; reflexivity].
    destruct (readable f) eqn:Er; simpl; [|left; split; reflexivity].
    destruct (str_eqb (ApplyRbac.transform (text f) r) (text f)) eqn:Eq; simpl;
      [left; split; reflexivity|].
    rewrite Ef. simpl.
    destruct (writable f) eqn:Ew; simpl; [|left; split; reflexivity].
    right. exists f. splits; auto; [now apply str_eqb_neq|].
    exists f. splits; auto.
  - intros p r w. cbv zeta. unfold FixAllMethods.process_file, pathlib_exists. run.
    destruct (files w p) as [f|] eqn:Ef; simpl.
    2: { destruct (stat_error w p); simpl; left; split; reflexivity. }
    rewrite Ef. simpl.
    destruct (readable f) eqn:Er; simpl; [|left; split; reflexivity].
    destruct (Py.contains "requirePermission" (text f)) eqn:Ec; simpl;
      [|left; split; reflexivity].
    destruct (FixAllMethods.fix_methods _ r (text f) false) as [out [|]] eqn:Efix; simpl;
      [|left; split; reflexivity].
    rewrite Ef. simpl.
    destruct (writable f) eqn:Ew; simpl; [|left; split; reflexivity].
    right. exists f, out. splits; auto.
    exists f. splits; auto.
  - intros r content out. apply fix_methods_unflagged.
Qed.

Lemma other_tasks_write_on_change_witness :
  FixAllMethods.fix_methods FixAllMethods.METHOD_ACTIONS "clients" plain_get false
  = (plain_get, false) /\ plain_get = plain_get.
Proof.
  assert (H : FixAllMethods.fix_methods FixAllMethods.METHOD_ACTIONS "clients" plain_get false
              = (plain_get, false)) by (vm_compute; reflexivity).
  split; [exact H|].
  apply (proj2 (proj2 (proj2 other_tasks_write_on_change)) "clients" plain_get plain_get H).
Defined.

Transparent ApplyPhase1Standards.transform UpdatePhase1Endpoints.transform
  UpdatePhase1Endpoints.already_updated MigrateEndpoints.transform
  MigrateEndpoints.already_migrated ApplyRbac.transform
  ApplyRbac.get_resource_from_path FixAllMethods.fix_methods str_eqb.
